(** * GranularSynth: resampling and granular time/pitch engine

    A shallow embedding of [Source.cpp]: the cubic Hermite fractional
    sample reader, the time-only resampler [TimeAdjust], the grain
    writer [SplatGrainToOutput], the two granular engines
    [GranularTimePitchAdjust] and [GranularTimePitchAdjustDynamic], the
    PCM conversions [FloatToPCM] and [PCMToFloat] and the wave file
    functions [WriteWaveFile], [ReadFileIntoMemory] and [ReadWaveFile].

    - [float] is IEEE-754 binary32, through the parameterised
      specification of the Standard Library ([SpecFloat], precision 24,
      [emax] 128): every operation is rounded to nearest-even to
      binary32, with no excess precision and no fused multiply-add;
    - [size_t] is a 64-bit unsigned integer: a [Z] reduced modulo [2^64]
      after every operation; [uint16] and [uint32] arguments are
      integers that the statements bound where it matters;
    - [std::vector<float>] is a [list float]; an access outside the
      vector and a division by zero are undefined behaviour and make
      the run [Undefined];
    - a loop whose trip count the code does not bound by a counter is
      run with fuel; exhausting it gives [OutOfFuel];
    - the function-local [static bool reportedError] and the standard
      output are the [Process] state threaded through the calls;
    - [double] is IEEE-754 binary64 (precision 53, [emax] 1024); a
      conversion of a floating value to an integer type truncates
      toward zero and is reduced modulo the width of the type;
    - a file is its bytes; the files are a map from names to contents,
      with the set of names that cannot be opened for writing; the
      integer fields of the wave header are little-endian and the
      header has no padding (44 bytes). *)

From Stdlib Require Import ZArith Lia Bool Ascii String.
From Stdlib Require Import Strings.Byte Floats.SpecFloat.
From stdpp Require Import base list strings gmap.

Local Open Scope Z_scope.

(** ** Machine integers *)

Definition size_bits : Z := 64.
Definition size_mod : Z := 2 ^ size_bits.

(** Reduction of an integer result to [size_t]. *)
Definition wrap (z : Z) : Z := z mod size_mod.
Arguments wrap : simpl never.

(** [size_t(-1)], the "no grain written yet" sentinel. *)
Definition SIZE_MAX : Z := size_mod - 1.

(** [std::vector<float>::max_size()] of a 64-bit implementation:
    [PTRDIFF_MAX / sizeof(float)]. *)
Definition max_size : Z := (2 ^ 63 - 1) / 4.

Definition vsize {A} (v : list A) : Z := Z.of_nat (length v).

(** ** binary32 *)

Module F32.

Definition prec : Z := 24.
Definition emax : Z := 128.

Definition float := spec_float.

Definition add : float -> float -> float := SFadd prec emax.
Definition sub : float -> float -> float := SFsub prec emax.
Definition mul : float -> float -> float := SFmul prec emax.
Definition div : float -> float -> float := SFdiv prec emax.
Definition neg : float -> float := SFopp.
Definition ltb : float -> float -> bool := SFltb.
Definition leb : float -> float -> bool := SFleb.
Definition eqb : float -> float -> bool := SFeqb.

(** [static_cast<float>(n)] of an unsigned integer. *)
Definition of_size (n : Z) : float := binary_normalize prec emax n 0 false.

Definition signed (s : bool) (m : positive) : Z :=
  if s then Z.neg m else Z.pos m.

(** [size_t(x)]: truncation toward zero.  The conversion of a value
    that does not fit is not defined by the language; the model takes
    the truncated value modulo [2^64] (what x86-64 code yields for
    [|x| < 2^63]) and [0] for infinities and NaN. *)
Definition to_size (x : float) : Z :=
  match x with
  | S754_finite s m e =>
      if 0 <=? e then wrap (signed s m * 2 ^ e)
      else wrap (Z.quot (signed s m) (2 ^ (- e)))
  | _ => 0
  end.

(** [std::floor]. *)
Definition floor (x : float) : float :=
  match x with
  | S754_finite s m e =>
      if 0 <=? e then x
      else if Z.pos m mod 2 ^ (- e) =? 0 then x
      else binary_normalize prec emax (signed s m / 2 ^ (- e)) 0 s
  | _ => x
  end.

Definition zero : float := S754_zero false.
Definition one : float := Eval vm_compute in of_size 1.
Definition two : float := Eval vm_compute in of_size 2.
Definition three : float := Eval vm_compute in of_size 3.
Definition five : float := Eval vm_compute in of_size 5.

End F32.

Abbreviation float := F32.float.

Declare Scope f32_scope.
Delimit Scope f32_scope with f32.
Infix "+" := F32.add : f32_scope.
Infix "-" := F32.sub : f32_scope.
Infix "*" := F32.mul : f32_scope.
Infix "/" := F32.div : f32_scope.
Notation "- x" := (F32.neg x) : f32_scope.

(** ** Outcomes of a run *)

Inductive outcome (A : Type) : Type :=
| Done (a : A)
| Undefined
| OutOfFuel.
Arguments Done {A} a.
Arguments Undefined {A}.
Arguments OutOfFuel {A}.

#[global] Instance outcome_ret : MRet outcome := fun A a => Done a.
#[global] Instance outcome_bind : MBind outcome := fun A B k m =>
  match m with
  | Done a => k a
  | Undefined => Undefined
  | OutOfFuel => OutOfFuel
  end.

(** [v[i]] as an rvalue. *)
Definition vget (v : list float) (i : Z) : outcome float :=
  match v !! Z.to_nat i with
  | Some x => Done x
  | None => Undefined
  end.

(** ** Cubic Hermite interpolation *)

Definition CubicHermite (A B C D t : float) : float :=
  let a := (- A / F32.two + (F32.three * B) / F32.two
            - (F32.three * C) / F32.two + D / F32.two)%f32 in
  let b := (A - (F32.five * B) / F32.two + F32.two * C - D / F32.two)%f32 in
  let c := (- A / F32.two + C / F32.two)%f32 in
  let d := B in
  (a * t * t * t + b * t * t + c * t + d)%f32.

(** The four interleaved indices read by [SampleChannelFractional],
    after the clamp against [input.size() - 1]. *)
Definition tapIndices (inputSize : Z) (sampleFloat : float)
    (channel numChannels : Z) : Z * Z * Z * Z :=
  let sample := F32.to_size sampleFloat in
  let sampleIndexNeg1 := if 0 <? sample then wrap (sample - 1) else sample in
  let sampleIndex0 := sample in
  let sampleIndex1 := wrap (sample + 1) in
  let sampleIndex2 := wrap (sample + 2) in
  let sampleIndexNeg1 := wrap (wrap (sampleIndexNeg1 * numChannels) + channel) in
  let sampleIndex0 := wrap (wrap (sampleIndex0 * numChannels) + channel) in
  let sampleIndex1 := wrap (wrap (sampleIndex1 * numChannels) + channel) in
  let sampleIndex2 := wrap (wrap (sampleIndex2 * numChannels) + channel) in
  let last := wrap (inputSize - 1) in
  (Z.min sampleIndexNeg1 last, Z.min sampleIndex0 last,
   Z.min sampleIndex1 last, Z.min sampleIndex2 last).

Definition SampleChannelFractional (input : list float) (sampleFloat : float)
    (channel numChannels : Z) : outcome float :=
  let sampleFraction := (sampleFloat - F32.floor sampleFloat)%f32 in
  let '(sampleIndexNeg1, sampleIndex0, sampleIndex1, sampleIndex2) :=
    tapIndices (vsize input) sampleFloat channel numChannels in
  A ← vget input sampleIndexNeg1;
  B ← vget input sampleIndex0;
  C ← vget input sampleIndex1;
  D ← vget input sampleIndex2;
  Done (CubicHermite A B C D sampleFraction).

(** [v[i] = x]. *)
Definition vset (v : list float) (i : Z) (x : float) : outcome (list float) :=
  match v !! Z.to_nat i with
  | Some _ => Done (<[Z.to_nat i := x]> v)
  | None => Undefined
  end.

(** A counted loop [for (i = start; i < start + count; ++i) body]. *)
Fixpoint for_range {St : Type} (count : nat) (i : Z)
    (body : Z -> St -> outcome St) (s : St) : outcome St :=
  match count with
  | O => Done s
  | S count' => s' ← body i s; for_range count' (i + 1) body s'
  end.

(** ** Resample *)

Definition TimeAdjust (input output : list float) (numChannels : Z)
    (timeMultiplier : float) : outcome (list float) :=
  if numChannels =? 0 then Undefined else
  let numSrcSamples := vsize input / numChannels in
  let numOutSamples := F32.to_size (F32.of_size numSrcSamples * timeMultiplier)%f32 in
  let output := resize (Z.to_nat (wrap (numOutSamples * numChannels))) F32.zero output in
  for_range (Z.to_nat numOutSamples) 0 (fun outSample output =>
    let percent :=
      (F32.of_size outSample / F32.of_size (wrap (numOutSamples - 1)))%f32 in
    let srcSampleFloat := (F32.of_size numSrcSamples * percent)%f32 in
    for_range (Z.to_nat numChannels) 0 (fun channel output =>
      x ← SampleChannelFractional input srcSampleFloat channel numChannels;
      vset output (wrap (wrap (outSample * numChannels) + channel)) x) output)
    output.

(** ** Grain writer *)

Inductive ECrossFade := CrossFadeNone | CrossFadeIn | CrossFadeOut.

(** The state that outlives a call: the function-local [static bool
    reportedError] and what has been printed. *)
Record Process := {
  reportedError : bool;
  stdout : list string;
}.

Definition startup : Process := {| reportedError := false; stdout := [] |}.

Definition newline : string := String (ascii_of_nat 10) EmptyString.

Definition crossFadeMessage : string :=
  String.append
    "[-----ERROR-----] cross fade is longer than a grain size! (error only reported once)"
    newline.

Definition grainEnvelope (crossFade : ECrossFade) (crossFadeSize : Z)
    (sample : float) : float :=
  match crossFade with
  | CrossFadeNone => F32.one
  | _ =>
      let envelope :=
        if F32.leb sample (F32.of_size crossFadeSize)
        then (sample / F32.of_size crossFadeSize)%f32 else F32.one in
      match crossFade with
      | CrossFadeOut => (F32.one - envelope)%f32
      | _ => envelope
      end
  end.

(** The [for (float sample = 0; sample < grainSize; sample += pitch)] loop. *)
Fixpoint SplatLoop (fuel : nat) (input : list float) (numChannels : Z)
    (grainStart grainSize : Z) (crossFade : ECrossFade) (crossFadeSize : Z)
    (pitchMultiplier : float) (output : list float) (outputIndex : Z)
    (sample : float) (numSamplesWritten : Z) : outcome (list float * Z) :=
  if negb (F32.ltb sample (F32.of_size grainSize)) then Done (output, numSamplesWritten)
  else if vsize output <? wrap (outputIndex + numChannels)
  then Done (output, numSamplesWritten)
  else
    let inputIndexSamples := (F32.of_size grainStart + sample)%f32 in
    if vsize input <?
       wrap (wrap (F32.to_size inputIndexSamples * numChannels) + numChannels)
    then Done (output, numSamplesWritten)
    else
      match fuel with
      | O => OutOfFuel
      | S fuel' =>
          let envelope := grainEnvelope crossFade crossFadeSize sample in
          output' ← for_range (Z.to_nat numChannels) 0 (fun channel output =>
            x ← SampleChannelFractional input inputIndexSamples channel numChannels;
            old ← vget output (wrap (outputIndex + channel));
            vset output (wrap (outputIndex + channel)) (old + x * envelope)%f32)
            output;
          SplatLoop fuel' input numChannels grainStart grainSize crossFade
            crossFadeSize pitchMultiplier output'
            (wrap (outputIndex + numChannels)) (sample + pitchMultiplier)%f32
            (wrap (numSamplesWritten + 1))
      end.

(** The report that follows the loop. *)
Definition reportCrossFade (proc : Process) (isFinalGrain : bool)
    (crossFadeSize numSamplesWritten : Z) : Process :=
  if negb isFinalGrain && (numSamplesWritten <? crossFadeSize) then
    if reportedError proc then proc
    else {| reportedError := true; stdout := stdout proc ++ [crossFadeMessage] |}
  else proc.

Definition SplatGrainToOutput (fuel : nat) (proc : Process)
    (input output : list float) (numChannels : Z)
    (grainStart grainSize outputSampleIndex : Z) (crossFade : ECrossFade)
    (crossFadeSize : Z) (pitchMultiplier : float) (isFinalGrain : bool)
    : outcome (Process * list float * Z) :=
  let outputIndex := wrap (outputSampleIndex * numChannels) in
  '(output', numSamplesWritten) ←
    SplatLoop fuel input numChannels grainStart grainSize crossFade
      crossFadeSize pitchMultiplier output outputIndex F32.zero 0;
  Done (reportCrossFade proc isFinalGrain crossFadeSize numSamplesWritten,
        output', numSamplesWritten).

(** ** Granular engine, fixed parameters *)

Record Engine := {
  proc : Process;
  output : list float;
  outputSampleIndex : Z;
  lastGrainWritten : Z;
}.

(** The number of grains: [numInputSamples / grainSizeSamples], plus one
    when the division leaves a remainder. *)
Definition grainCount (numInputSamples grainSizeSamples : Z) : Z :=
  let numGrains := numInputSamples / grainSizeSamples in
  if numInputSamples mod grainSizeSamples =? 0 then numGrains
  else wrap (numGrains + 1).

Section Grain.

Variable fuel : nat.
Variable input : list float.
Variables numChannels grainSizeSamples crossFadeSizeSamples numGrains : Z.
Variable pitchMultiplier : float.

(** One trip through the body of the [while] loop of grain [grain]. *)
Definition GrainStep (grain : Z) (s : Engine) : outcome Engine :=
  let inputGrainStart := wrap (grain * grainSizeSamples) in
  let isFinalGrain := grain =? wrap (numGrains - 1) in
  if (lastGrainWritten s =? SIZE_MAX) || (lastGrainWritten s =? wrap (grain - 1))
  then
    '(p, out, n) ← SplatGrainToOutput fuel (proc s) input (output s)
        numChannels inputGrainStart grainSizeSamples (outputSampleIndex s)
        CrossFadeNone crossFadeSizeSamples pitchMultiplier isFinalGrain;
    Done {| proc := p; output := out;
            outputSampleIndex := wrap (outputSampleIndex s + n);
            lastGrainWritten := grain |}
  else
    '(p1, out1, _) ← SplatGrainToOutput fuel (proc s) input (output s)
        numChannels (wrap (wrap (lastGrainWritten s + 1) * grainSizeSamples))
        grainSizeSamples (outputSampleIndex s) CrossFadeOut
        crossFadeSizeSamples pitchMultiplier isFinalGrain;
    '(p2, out2, n) ← SplatGrainToOutput fuel p1 input out1
        numChannels inputGrainStart grainSizeSamples (outputSampleIndex s)
        CrossFadeIn crossFadeSizeSamples pitchMultiplier isFinalGrain;
    Done {| proc := p2; output := out2;
            outputSampleIndex := wrap (outputSampleIndex s + n);
            lastGrainWritten := grain |}.

End Grain.

(** [while (outputSampleIndex < outputSampleWindowEnd) body]. *)
Fixpoint GrainWhile (fuel : nat) (step : Engine -> outcome Engine)
    (outputSampleWindowEnd : Z) (s : Engine) : outcome Engine :=
  if outputSampleIndex s <? outputSampleWindowEnd then
    match fuel with
    | O => OutOfFuel
    | S fuel' =>
        s' ← step s; GrainWhile fuel' step outputSampleWindowEnd s'
    end
  else Done s.

(** The body of the loop over the grains: the output window of grain
    [grain] and the [while] loop that fills it. *)
Definition GrainWindow (fuel : nat) (input : list float)
    (numChannels grainSizeSamples crossFadeSizeSamples numGrains : Z)
    (timeMultiplier pitchMultiplier : float) (grain : Z) (s : Engine)
    : outcome Engine :=
  let inputGrainStart := wrap (grain * grainSizeSamples) in
  let outputSampleWindowEnd :=
    F32.to_size
      (F32.of_size (wrap (inputGrainStart + grainSizeSamples)) * timeMultiplier)%f32 in
  GrainWhile fuel
    (GrainStep fuel input numChannels grainSizeSamples crossFadeSizeSamples
       numGrains pitchMultiplier grain)
    outputSampleWindowEnd s.

Definition GranularTimePitchAdjust (fuel : nat) (p : Process)
    (input : list float) (numChannels sampleRate : Z)
    (timeMultiplier pitchMultiplier grainSizeSeconds crossFadeSeconds : float)
    : outcome (Process * list float) :=
  if numChannels =? 0 then Undefined else
  let numInputSamples := vsize input / numChannels in
  let numOutputSamples :=
    F32.to_size (F32.of_size numInputSamples * timeMultiplier)%f32 in
  let out := replicate (Z.to_nat (wrap (numOutputSamples * numChannels))) F32.zero in
  let grainSizeSamples := F32.to_size (F32.of_size sampleRate * grainSizeSeconds)%f32 in
  if grainSizeSamples =? 0 then Undefined else
  let numGrains := grainCount numInputSamples grainSizeSamples in
  let crossFadeSizeSamples :=
    F32.to_size (F32.of_size sampleRate * crossFadeSeconds)%f32 in
  s ← for_range (Z.to_nat numGrains) 0
        (GrainWindow fuel input numChannels grainSizeSamples
           crossFadeSizeSamples numGrains timeMultiplier pitchMultiplier)
        {| proc := p; output := out; outputSampleIndex := 0;
           lastGrainWritten := SIZE_MAX |};
  Done (proc s, output s).

(** ** Granular engine, per-grain parameters *)

(** [settingsCallback(percent, timeMultiplier, pitchMultiplier)]: the two
    multipliers are passed by reference, both [1.0f] on entry. *)
Definition SettingsCallback := float -> float * float -> float * float.

Record DynEngine := {
  engine :> Engine;
  lastGrainPitchMultiplier : float;
  outputSampleWindowEnd : Z;
}.

(** The first pass: the per-channel length of the output. *)
Definition DynamicOutputSamples (inputSize grainSizeSamples numGrains : Z)
    (settingsCallback : SettingsCallback) : outcome Z :=
  for_range (Z.to_nat numGrains) 0 (fun i numOutputSamples =>
    let grainStart := wrap (i * grainSizeSamples) in
    let grainEnd := wrap (grainStart + grainSizeSamples) in
    let grainEnd := Z.min grainEnd inputSize in
    let grainSize := wrap (grainEnd - grainStart) in
    let percent := (F32.of_size i / F32.of_size numGrains)%f32 in
    let '(timeMultiplier, pitchMultiplier) :=
      settingsCallback percent (F32.one, F32.one) in
    Done (wrap (numOutputSamples
                + F32.to_size (F32.of_size grainSize * timeMultiplier)%f32)))
    0.

Section DynGrain.

Variable fuel : nat.
Variable input : list float.
Variables numChannels grainSizeSamples crossFadeSizeSamples numGrains : Z.

Definition DynGrainStep (grain : Z) (pitchMultiplier : float)
    (s : DynEngine) : outcome DynEngine :=
  let inputGrainStart := wrap (grain * grainSizeSamples) in
  let isFinalGrain := grain =? wrap (numGrains - 1) in
  if (lastGrainWritten s =? SIZE_MAX) || (lastGrainWritten s =? wrap (grain - 1))
  then
    '(p, out, n) ← SplatGrainToOutput fuel (proc s) input (output s)
        numChannels inputGrainStart grainSizeSamples (outputSampleIndex s)
        CrossFadeNone crossFadeSizeSamples pitchMultiplier isFinalGrain;
    Done {| engine := {| proc := p; output := out;
                         outputSampleIndex := wrap (outputSampleIndex s + n);
                         lastGrainWritten := grain |};
            lastGrainPitchMultiplier := pitchMultiplier;
            outputSampleWindowEnd := outputSampleWindowEnd s |}
  else
    '(p1, out1, _) ← SplatGrainToOutput fuel (proc s) input (output s)
        numChannels (wrap (wrap (lastGrainWritten s + 1) * grainSizeSamples))
        grainSizeSamples (outputSampleIndex s) CrossFadeOut
        crossFadeSizeSamples (lastGrainPitchMultiplier s) isFinalGrain;
    '(p2, out2, n) ← SplatGrainToOutput fuel p1 input out1
        numChannels inputGrainStart grainSizeSamples (outputSampleIndex s)
        CrossFadeIn crossFadeSizeSamples pitchMultiplier isFinalGrain;
    Done {| engine := {| proc := p2; output := out2;
                         outputSampleIndex := wrap (outputSampleIndex s + n);
                         lastGrainWritten := grain |};
            lastGrainPitchMultiplier := pitchMultiplier;
            outputSampleWindowEnd := outputSampleWindowEnd s |}.

End DynGrain.

Fixpoint DynGrainWhile (fuel : nat) (step : DynEngine -> outcome DynEngine)
    (s : DynEngine) : outcome DynEngine :=
  if outputSampleIndex s <? outputSampleWindowEnd s then
    match fuel with
    | O => OutOfFuel
    | S fuel' => s' ← step s; DynGrainWhile fuel' step s'
    end
  else Done s.

Definition GranularTimePitchAdjustDynamic (fuel : nat) (p : Process)
    (input : list float) (numChannels sampleRate : Z)
    (grainSizeSeconds crossFadeSeconds : float)
    (settingsCallback : SettingsCallback) : outcome (Process * list float) :=
  if numChannels =? 0 then Undefined else
  let numInputSamples := vsize input / numChannels in
  let grainSizeSamples := F32.to_size (F32.of_size sampleRate * grainSizeSeconds)%f32 in
  if grainSizeSamples =? 0 then Undefined else
  let numGrains := grainCount numInputSamples grainSizeSamples in
  numOutputSamples ←
    DynamicOutputSamples (vsize input) grainSizeSamples numGrains settingsCallback;
  let out := replicate (Z.to_nat (wrap (numOutputSamples * numChannels))) F32.zero in
  let crossFadeSizeSamples :=
    F32.to_size (F32.of_size sampleRate * crossFadeSeconds)%f32 in
  s ← for_range (St := DynEngine) (Z.to_nat numGrains) 0 (fun grain s =>
        let percent := (F32.of_size grain / F32.of_size numGrains)%f32 in
        let '(timeMultiplier, pitchMultiplier) :=
          settingsCallback percent (F32.one, F32.one) in
        let windowEnd :=
          wrap (outputSampleWindowEnd s
                + F32.to_size (F32.of_size grainSizeSamples * timeMultiplier)%f32) in
        DynGrainWhile fuel
          (DynGrainStep fuel input numChannels grainSizeSamples
             crossFadeSizeSamples numGrains grain pitchMultiplier)
          {| engine := s; lastGrainPitchMultiplier := lastGrainPitchMultiplier s;
             outputSampleWindowEnd := windowEnd |})
        {| engine := {| proc := p; output := out; outputSampleIndex := 0;
                        lastGrainWritten := SIZE_MAX |};
           lastGrainPitchMultiplier := F32.one;
           outputSampleWindowEnd := 0 |};
  Done (proc (engine s), output (engine s)).

(** ** Bytes and fixed-width integers *)

Abbreviation byte := Byte.byte.

#[global] Instance byte_eq_decision : EqDecision byte := Byte.byte_eq_dec.

Definition byte_to_Z (b : byte) : Z := Z.of_N (Byte.to_N b).

(** [static_cast<unsigned char>] of an integer: its low eight bits. *)
Definition byte_of_Z (z : Z) : byte :=
  match Byte.of_N (Z.to_N (z mod 256)) with
  | Some b => b
  | None => Byte.x00
  end.

Definition uint16 (z : Z) : Z := z mod 2 ^ 16.
Definition uint32 (z : Z) : Z := z mod 2 ^ 32.

(** [static_cast<int32>] of a [uint32]. *)
Definition int32 (z : Z) : Z :=
  let u := uint32 z in if u <? 2 ^ 31 then u else u - 2 ^ 32.

(** [v[i]] and [v[i] = x] on a vector of bytes. *)
Definition bget (v : list byte) (i : Z) : outcome byte :=
  match v !! Z.to_nat i with
  | Some b => Done b
  | None => Undefined
  end.

Definition bset (v : list byte) (i : Z) (x : byte) : outcome (list byte) :=
  match v !! Z.to_nat i with
  | Some _ => Done (<[Z.to_nat i := x]> v)
  | None => Undefined
  end.

(** ** binary64 *)

Module F64.

Definition prec : Z := 53.
Definition emax : Z := 1024.

Definition double := spec_float.

Definition mul : double -> double -> double := SFmul prec emax.
Definition div : double -> double -> double := SFdiv prec emax.

(** [static_cast<double>] of a 32-bit integer, signed or not. *)
Definition of_int (n : Z) : double := binary_normalize prec emax n 0 false.

(** [static_cast<double>] of a [float]: exact. *)
Definition of_float (x : float) : double :=
  match x with
  | S754_finite s m e => binary_normalize prec emax (F32.signed s m) e false
  | _ => x
  end.

(** [static_cast<float>] of a [double]: rounded to nearest-even. *)
Definition to_float (x : double) : float :=
  match x with
  | S754_finite s m e =>
      binary_normalize F32.prec F32.emax (F32.signed s m) e false
  | _ => x
  end.

(** The integer part of a [float] or a [double], toward zero. *)
Definition trunc (x : spec_float) : Z :=
  match x with
  | S754_finite s m e =>
      if 0 <=? e then F32.signed s m * 2 ^ e
      else Z.quot (F32.signed s m) (2 ^ (- e))
  | _ => 0
  end.

(** [static_cast<uint32>] of a [double].  As for [F32.to_size], a value
    that does not fit (a negative one, for instance) is reduced modulo
    [2^32], infinities and NaN give [0]. *)
Definition to_uint32 (x : double) : Z := uint32 (trunc x).

End F64.

(** [static_cast<unsigned char>] of a [float], with the same convention. *)
Definition float_to_uchar (x : float) : byte := byte_of_Z (F64.trunc x).

(** ** PCM samples *)

Definition zeroPointFive : float := Eval vm_compute in (F32.one / F32.two)%f32.
Definition twoFiveFive : float := Eval vm_compute in F32.of_size 255.

(** [PCM] is the index in [data] the pointer refers to. *)
Definition FloatToPCM (data : list byte) (PCM : Z) (in_ : float)
    (numBytes : Z) : outcome (list byte) :=
  if numBytes =? 1 then
    bset data PCM (float_to_uchar ((in_ * zeroPointFive + zeroPointFive) * twoFiveFive)%f32)
  else
    let d :=
      if F32.ltb in_ F32.zero
      then F64.to_uint32 (F64.mul (F64.of_float in_) (F64.of_int 2147483648))
      else F64.to_uint32 (F64.mul (F64.of_float in_) (F64.of_int 2147483647)) in
    if numBytes =? 4 then
      data ← bset data (wrap (PCM + 3)) (byte_of_Z (Z.land (Z.shiftr d 24) 255));
      data ← bset data (wrap (PCM + 2)) (byte_of_Z (Z.land (Z.shiftr d 16) 255));
      data ← bset data (wrap (PCM + 1)) (byte_of_Z (Z.land (Z.shiftr d 8) 255));
      bset data PCM (byte_of_Z (Z.land d 255))
    else if numBytes =? 3 then
      data ← bset data (wrap (PCM + 2)) (byte_of_Z (Z.land (Z.shiftr d 24) 255));
      data ← bset data (wrap (PCM + 1)) (byte_of_Z (Z.land (Z.shiftr d 16) 255));
      bset data PCM (byte_of_Z (Z.land (Z.shiftr d 8) 255))
    else if numBytes =? 2 then
      data ← bset data (wrap (PCM + 1)) (byte_of_Z (Z.land (Z.shiftr d 24) 255));
      bset data PCM (byte_of_Z (Z.land (Z.shiftr d 16) 255))
    else Done data.

Definition PCMToFloat (fileData : list byte) (PCM : Z) (numBytes : Z)
    : outcome float :=
  if numBytes =? 1 then
    b0 ← bget fileData PCM;
    Done ((F32.of_size (byte_to_Z b0) / twoFiveFive) * F32.two - F32.one)%f32
  else
    data ←
      (if numBytes =? 4 then
         b3 ← bget fileData (wrap (PCM + 3));
         b2 ← bget fileData (wrap (PCM + 2));
         b1 ← bget fileData (wrap (PCM + 1));
         b0 ← bget fileData PCM;
         Done (Z.lor (Z.lor (Z.lor (uint32 (Z.shiftl (byte_to_Z b3) 24))
                                   (uint32 (Z.shiftl (byte_to_Z b2) 16)))
                            (uint32 (Z.shiftl (byte_to_Z b1) 8)))
                     (byte_to_Z b0))
       else if numBytes =? 3 then
         b2 ← bget fileData (wrap (PCM + 2));
         b1 ← bget fileData (wrap (PCM + 1));
         b0 ← bget fileData PCM;
         Done (Z.lor (Z.lor (uint32 (Z.shiftl (byte_to_Z b2) 24))
                            (uint32 (Z.shiftl (byte_to_Z b1) 16)))
                     (uint32 (Z.shiftl (byte_to_Z b0) 8)))
       else if numBytes =? 2 then
         b1 ← bget fileData (wrap (PCM + 1));
         b0 ← bget fileData PCM;
         Done (Z.lor (uint32 (Z.shiftl (byte_to_Z b1) 24))
                     (uint32 (Z.shiftl (byte_to_Z b0) 16)))
       else Done 0);
    if Z.testbit data 31 then
      Done (F64.to_float (F64.div (F64.of_int (int32 data))
                                  (F64.of_int 2147483648)))
    else
      Done (F64.to_float (F64.div (F64.of_int data) (F64.of_int 2147483647))).

(** ** Wave files *)

(** The files that exist, with their contents, and the names that
    cannot be opened for writing. *)
Record FileSystem := {
  files : gmap string (list byte);
  readOnly : gset string;
}.

(** [printf]. *)
Definition print (p : Process) (line : string) : Process :=
  {| reportedError := reportedError p; stdout := stdout p ++ [line] |}.

(** The object representation of the integer fields: little-endian. *)
Definition le16 (z : Z) : list byte :=
  [byte_of_Z z; byte_of_Z (Z.shiftr z 8)].

Definition le32 (z : Z) : list byte :=
  [byte_of_Z z; byte_of_Z (Z.shiftr z 8);
   byte_of_Z (Z.shiftr z 16); byte_of_Z (Z.shiftr z 24)].

(** A [uint16] and a [uint32] loaded from [&v[i]]. *)
Definition rd16 (v : list byte) (i : Z) : outcome Z :=
  b0 ← bget v i;
  b1 ← bget v (wrap (i + 1));
  Done (byte_to_Z b0 + 2 ^ 8 * byte_to_Z b1).

Definition rd32 (v : list byte) (i : Z) : outcome Z :=
  b0 ← bget v i;
  b1 ← bget v (wrap (i + 1));
  b2 ← bget v (wrap (i + 2));
  b3 ← bget v (wrap (i + 3));
  Done (byte_to_Z b0 + 2 ^ 8 * byte_to_Z b1
        + 2 ^ 16 * byte_to_Z b2 + 2 ^ 24 * byte_to_Z b3).

(** The minimal header of a wave file.  Every field is naturally
    aligned: the structure has no padding and occupies 44 bytes. *)
Record SMinimalWaveFileHeader := {
  m_chunkID : list byte;
  m_chunkSize : Z;
  m_format : list byte;
  m_subChunk1ID : list byte;
  m_subChunk1Size : Z;
  m_audioFormat : Z;
  m_numChannels : Z;
  m_sampleRate : Z;
  m_byteRate : Z;
  m_blockAlign : Z;
  m_bitsPerSample : Z;
  m_subChunk2ID : list byte;
  m_subChunk2Size : Z;
}.

(** What [fwrite(&waveHeader, sizeof(SMinimalWaveFileHeader), 1, File)]
    writes. *)
Definition headerBytes (h : SMinimalWaveFileHeader) : list byte :=
  m_chunkID h ++ le32 (m_chunkSize h) ++ m_format h
  ++ m_subChunk1ID h ++ le32 (m_subChunk1Size h)
  ++ le16 (m_audioFormat h) ++ le16 (m_numChannels h)
  ++ le32 (m_sampleRate h) ++ le32 (m_byteRate h)
  ++ le16 (m_blockAlign h) ++ le16 (m_bitsPerSample h)
  ++ m_subChunk2ID h ++ le32 (m_subChunk2Size h).

(** The four characters of a chunk identifier. *)
Definition tag (s : string) : list byte := list_byte_of_string s.

(** [memcmp(&v[i], s, 4) == 0]. *)
Definition tagAt (v : list byte) (i : Z) (s : string) : bool :=
  bool_decide (take 4 (drop (Z.to_nat i) v) = tag s).

(** The loop of [WriteWaveFile] that converts the samples. *)
Definition encodeSamples (dataFloat : list float) (numBytes : Z)
    (data : list byte) : outcome (list byte) :=
  for_range (length dataFloat) 0 (fun i data =>
    (* &data[i * numBytes] *)
    _ ← bget data (wrap (i * numBytes));
    x ← vget dataFloat i;
    FloatToPCM data (wrap (i * numBytes)) x numBytes) data.

(** [numChannels] and [numBytes] are [uint16] values, [sampleRate] a
    [uint32] value. *)
Definition WriteWaveFile (p : Process) (fs : FileSystem) (fileName : string)
    (dataFloat : list float) (numChannels sampleRate numBytes : Z)
    : outcome (Process * FileSystem * bool) :=
  let data := replicate (Z.to_nat (wrap (vsize dataFloat * numBytes))) Byte.x00 in
  data ← encodeSamples dataFloat numBytes data;
  let dataSize := uint32 (vsize data) in
  let bitsPerSample := uint16 (numBytes * 8) in
  if bool_decide (fileName ∈ readOnly fs) then
    Done (print p ("[-----ERROR-----] Could not open " +:+ fileName
                   +:+ " for writing." +:+ newline),
          fs, false)
  else
    (* the product of two promoted [uint16] is a signed [int] *)
    if 2 ^ 31 <=? numChannels * bitsPerSample then Undefined else
    let waveHeader :=
      {| m_chunkID := tag "RIFF";
         m_chunkSize := uint32 (dataSize + 36);
         m_format := tag "WAVE";
         m_subChunk1ID := tag "fmt ";
         m_subChunk1Size := 16;
         m_audioFormat := 1;
         m_numChannels := numChannels;
         m_sampleRate := sampleRate;
         m_byteRate :=
           uint32 (uint32 (sampleRate * numChannels) * bitsPerSample) / 8;
         m_blockAlign := uint16 (numChannels * bitsPerSample / 8);
         m_bitsPerSample := bitsPerSample;
         m_subChunk2ID := tag "data";
         m_subChunk2Size := dataSize |} in
    (* &data[0] *)
    _ ← bget data 0;
    Done (print p (fileName +:+ " saved." +:+ newline),
          {| files := <[fileName :=
                          headerBytes waveHeader ++ take (Z.to_nat dataSize) data]>
                        (files fs);
             readOnly := readOnly fs |},
          true).

Definition ReadFileIntoMemory (p : Process) (fs : FileSystem)
    (fileName : string) (data : list byte)
    : outcome (Process * list byte * bool) :=
  match files fs !! fileName with
  | None =>
      Done (print p ("[-----ERROR-----]Could not open " +:+ fileName
                     +:+ " for reading." +:+ newline),
            data, false)
  | Some contents =>
      let data := resize (length contents) Byte.x00 data in
      (* fread(&( *data)[0], 1, data->size(), file) *)
      _ ← bget data 0;
      Done (p, contents, true)
  end.

(** What [ReadWaveFile] returns through its pointer arguments. *)
Record WaveData := {
  wave_data : list float;
  wave_numChannels : Z;
  wave_sampleRate : Z;
  wave_numBytes : Z;
}.

Definition invalidInputFile (p : Process) (fileName code : string) : Process :=
  print p ("[-----ERROR-----]" +:+ fileName +:+ " is an invalid input file. ("
           +:+ code +:+ ")" +:+ newline).

(** The search for the "fmt " and the "data" chunk; [None] is the exit
    with error (4). *)
Fixpoint findChunks (fuel : nat) (fileData : list byte)
    (fileIndex chunkPosFmt chunkPosData : Z) : outcome (option (Z * Z)) :=
  if (chunkPosFmt =? SIZE_MAX) || (chunkPosData =? SIZE_MAX) then
    match fuel with
    | O => OutOfFuel
    | S fuel' =>
        if vsize fileData <? wrap (fileIndex + 8) then Done None
        else
          let chunkID := fileIndex in
          _ ← bget fileData chunkID;
          let fileIndex := wrap (fileIndex + 4) in
          chunkSize ← rd32 fileData fileIndex;
          let fileIndex := wrap (fileIndex + 4) in
          let '(chunkPosFmt, chunkPosData) :=
            if tagAt fileData chunkID "fmt "
            then (wrap (fileIndex - 8), chunkPosData)
            else if tagAt fileData chunkID "data"
            then (chunkPosFmt, wrap (fileIndex - 8))
            else (chunkPosFmt, chunkPosData) in
          findChunks fuel' fileData (wrap (fileIndex + chunkSize))
            chunkPosFmt chunkPosData
    end
  else Done (Some (chunkPosFmt, chunkPosData)).

(** [ReadWaveFile] once the file is in memory. *)
Definition parseWaveFile (fuel : nat) (p : Process) (fileName : string)
    (fileData : list byte) (out : WaveData)
    : outcome (Process * WaveData * bool) :=
  let invalid code := Done (invalidInputFile p fileName code, out, false) in
  if (vsize fileData <? 4) || negb (tagAt fileData 0 "RIFF") then invalid "1"
  else if vsize fileData <? 8 then invalid "2"
  else
    _ ← rd32 fileData 4;
    if (vsize fileData <? 12) || negb (tagAt fileData 8 "WAVE") then invalid "3"
    else
      found ← findChunks fuel fileData 12 SIZE_MAX SIZE_MAX;
      match found with
      | None => invalid "4"
      | Some (chunkPosFmt, chunkPosData) =>
          if vsize fileData <? wrap (chunkPosFmt + 24) then invalid "5"
          else
            audioFormat ← rd16 fileData (wrap (chunkPosFmt + 8));
            numChannels ← rd16 fileData (wrap (chunkPosFmt + 10));
            sampleRate ← rd32 fileData (wrap (chunkPosFmt + 12));
            blockAlign ← rd16 fileData (wrap (chunkPosFmt + 20));
            bitsPerSample ← rd16 fileData (wrap (chunkPosFmt + 22));
            if vsize fileData <? wrap (chunkPosData + 8) then invalid "6"
            else
              subChunk2Size ← rd32 fileData (wrap (chunkPosData + 4));
              let fileIndex := wrap (chunkPosData + 8) in
              if negb (audioFormat =? 1) || (numChannels <? 1)
                 || (2 <? numChannels) || (32 <? bitsPerSample)
                 || negb (bitsPerSample mod 8 =? 0) || (8 <? blockAlign)
              then invalid "7"
              else
                let bytesPerSample := blockAlign / numChannels in
                if bytesPerSample =? 0 then Undefined else
                let numSourceSamples := subChunk2Size / bytesPerSample in
                let data :=
                  resize (Z.to_nat numSourceSamples) F32.zero (wave_data out) in
                if vsize fileData <?
                   wrap (fileIndex + wrap (numSourceSamples * bytesPerSample))
                then
                  Done (invalidInputFile p fileName "8",
                        {| wave_data := data;
                           wave_numChannels := wave_numChannels out;
                           wave_sampleRate := wave_sampleRate out;
                           wave_numBytes := wave_numBytes out |},
                        false)
                else
                  '(data, _) ← for_range (St := list float * Z)
                    (Z.to_nat numSourceSamples) 0
                    (fun nIndex '(data, fileIndex) =>
                       _ ← bget fileData fileIndex;
                       x ← PCMToFloat fileData fileIndex bytesPerSample;
                       data ← vset data nIndex x;
                       Done (data, wrap (fileIndex + bytesPerSample)))
                    (data, fileIndex);
                  Done (print p (fileName +:+ " loaded." +:+ newline),
                        {| wave_data := data;
                           wave_numChannels := numChannels;
                           wave_sampleRate := sampleRate;
                           wave_numBytes := bitsPerSample / 8 |},
                        true)
      end.

Definition ReadWaveFile (fuel : nat) (p : Process) (fs : FileSystem)
    (fileName : string) (out : WaveData)
    : outcome (Process * WaveData * bool) :=
  '(p, fileData, loaded) ← ReadFileIntoMemory p fs fileName [];
  if (loaded : bool) then parseWaveFile fuel p fileName fileData out
  else Done (p, out, false).

(** * Notions used by the statements *)

(** ** Buffers *)

(** Slot [i] exists in a buffer of [inputSize] samples. *)
Definition inside (inputSize i : Z) : Prop := 0 <= i < inputSize.

(** With [numChannels] channels, slot [i] of the buffer belongs to
    channel [i mod numChannels]. *)
Definition channelOf (numChannels i : Z) : Z := i mod numChannels.

(** Per-channel length of an interleaved buffer. *)
Definition perChannel (v : list float) (numChannels : Z) : Z :=
  vsize v / numChannels.

(** ** binary32 values *)

(** A zero, or a finite value smaller than [2^k] in magnitude. *)
Definition below (k : Z) (x : float) : Prop :=
  match x with
  | S754_zero _ => True
  | S754_finite _ m e => Z.pos (digits2_pos m) + e <= k
  | _ => False
  end.

(** A sample of an audio buffer: a binary32 value in [[-1.0, 1.0]]. *)
Definition normalized (x : float) : Prop :=
  valid_binary F32.prec F32.emax x = true /\
  F32.leb (SFabs x) F32.one = true.

(** A finite value that is an integer. *)
Definition integral (x : float) : Prop :=
  match x with
  | S754_zero _ => True
  | S754_finite _ m e => 0 <= e \/ Z.pos m mod 2 ^ (- e) = 0
  | _ => False
  end.

Definition is_zero (x : float) : Prop :=
  match x with S754_zero _ => True | _ => False end.

Definition half : float := Eval vm_compute in (F32.one / F32.two)%f32.
Definition onePointFive : float := Eval vm_compute in (F32.one + half)%f32.
Definition threeQuarters : float :=
  Eval vm_compute in (F32.three / F32.of_size 4)%f32.
Definition fifth : float := Eval vm_compute in (F32.one / F32.five)%f32.

(** ** Resample *)

(** The nearest integer to a binary32 value (ties away from zero), the
    [round] of the specification. *)
Definition nearest (x : float) : Z :=
  match x with
  | S754_finite s m e =>
      if 0 <=? e then F32.signed s m * 2 ^ e
      else
        let q := (2 * Z.pos m + 2 ^ (- e)) / (2 * 2 ^ (- e)) in
        if s then - q else q
  | _ => 0
  end.

(** The length the specification gives for [Resample]. *)
Definition roundedLength (input : list float) (numChannels : Z)
    (timeMultiplier : float) : Z :=
  nearest (F32.of_size (perChannel input numChannels) * timeMultiplier)%f32.

(** The length the code gives. *)
Definition truncatedLength (input : list float) (numChannels : Z)
    (timeMultiplier : float) : Z :=
  F32.to_size (F32.of_size (perChannel input numChannels) * timeMultiplier)%f32.

(** The source position [TimeAdjust] reads for output frame [outSample]. *)
Definition resamplePosition (numSrcSamples numOutSamples outSample : Z) : float :=
  (F32.of_size numSrcSamples
   * (F32.of_size outSample / F32.of_size (wrap (numOutSamples - 1))))%f32.

(** Equality of two samples up to rounding: they differ by [2^-10] at
    most, far more than a few units in the last place of a normalized
    sample. *)
Definition tolerance : float :=
  Eval vm_compute in (F32.one / F32.of_size 1024)%f32.

Definition nearly (x y : float) : bool := F32.leb (SFabs (x - y)%f32) tolerance.

(** [Resample(input, c, 1.0)] is the identity up to rounding. *)
Definition resample_identity (input : list float) (numChannels : Z) : Prop :=
  exists out,
    TimeAdjust input [] numChannels F32.one = Done out /\
    Forall2 (fun x y => nearly x y = true) out input.

(** A mono buffer with one sample of 1.0 between two zeros. *)
Definition spike : list float := [F32.zero; F32.one; F32.zero].

(** ** Calls of the grain writer in one process *)

(** The arguments of one call of the grain writer. *)
Record SplatCall := {
  call_input : list float;
  call_output : list float;
  call_numChannels : Z;
  call_grainStart : Z;
  call_grainSize : Z;
  call_outputSampleIndex : Z;
  call_crossFade : ECrossFade;
  call_crossFadeSize : Z;
  call_pitchMultiplier : float;
  call_isFinalGrain : bool;
}.

Definition doCall (fuel : nat) (p : Process) (c : SplatCall)
    : outcome (Process * list float * Z) :=
  SplatGrainToOutput fuel p (call_input c) (call_output c) (call_numChannels c)
    (call_grainStart c) (call_grainSize c) (call_outputSampleIndex c)
    (call_crossFade c) (call_crossFadeSize c) (call_pitchMultiplier c)
    (call_isFinalGrain c).

(** A sequence of calls in one process; the result is the final process
    state and the number of samples each call has written. *)
Fixpoint runCalls (fuel : nat) (p : Process) (calls : list SplatCall)
    : outcome (Process * list Z) :=
  match calls with
  | [] => Done (p, [])
  | c :: calls' =>
      '(p', _, n) ← doCall fuel p c;
      '(p'', ns) ← runCalls fuel p' calls';
      Done (p'', n :: ns)
  end.

(** A call whose grain is not the final one and which wrote fewer
    samples than the cross fade is long. *)
Definition offending (c : SplatCall) (numSamplesWritten : Z) : bool :=
  negb (call_isFinalGrain c) && (numSamplesWritten <? call_crossFadeSize c).

Fixpoint anyOffending (calls : list SplatCall) (ns : list Z) : bool :=
  match calls, ns with
  | c :: calls', n :: ns' => offending c n || anyOffending calls' ns'
  | _, _ => false
  end.

(** A mono grain of two samples written with a cross fade of three. *)
Definition shortGrain (isFinalGrain : bool) : SplatCall :=
  {| call_input := [F32.one; F32.one];
     call_output := [F32.zero; F32.zero];
     call_numChannels := 1; call_grainStart := 0; call_grainSize := 2;
     call_outputSampleIndex := 0; call_crossFade := CrossFadeIn;
     call_crossFadeSize := 3; call_pitchMultiplier := F32.one;
     call_isFinalGrain := isFinalGrain |}.

(** ** States of the engine *)



(** Fifteen mono samples and grains of ten samples: the input length is
    not a multiple of the grain size. *)
Definition shortInput : list float := replicate 15 F32.one.

Definition shortStart : Engine :=
  {| proc := startup; output := replicate 15 F32.zero;
     outputSampleIndex := 0; lastGrainWritten := SIZE_MAX |}.

(** After the window of grain 0: ten samples written. *)
Definition shortAfterGrain0 : Engine :=
  {| proc := startup;
     output := replicate 10 F32.one ++ replicate 5 F32.zero;
     outputSampleIndex := 10; lastGrainWritten := 0 |}.

(** After the first write of grain 1: the output is full, five samples
    short of the window end 20. *)
Definition shortFull : Engine :=
  {| proc := startup; output := replicate 15 F32.one;
     outputSampleIndex := 15; lastGrainWritten := 1 |}.

(** Two stereo buffers that differ in the last sample of channel 1. *)
Definition stereoA : list float := [F32.zero; F32.zero; F32.zero; F32.zero].
Definition stereoB : list float := [F32.zero; F32.zero; F32.zero; F32.one].

(** ** Length of the output of the dynamic engine *)

(** The size the specification gives to grain [g]: the grain size,
    except for the final grain, which is shortened to what is left of
    the per-channel input when the grain size does not divide it. *)
Definition tiledGrainSize (numInputSamples grainSizeSamples numGrains g : Z) : Z :=
  if (g =? numGrains - 1) && negb (numInputSamples mod grainSizeSamples =? 0)
  then numInputSamples - g * grainSizeSamples
  else grainSizeSamples.

(** The time-scaled size of grain [g]. *)
Definition scaledGrainSize (numInputSamples grainSizeSamples numGrains : Z)
    (settingsCallback : SettingsCallback) (g : Z) : Z :=
  let percent := (F32.of_size g / F32.of_size numGrains)%f32 in
  let '(timeMultiplier, _) := settingsCallback percent (F32.one, F32.one) in
  F32.to_size
    (F32.of_size (tiledGrainSize numInputSamples grainSizeSamples numGrains g)
     * timeMultiplier)%f32.

(** The per-channel output length of the specification: the sum over
    the grains of their time-scaled sizes. *)
Definition tiledOutputSamples (numInputSamples grainSizeSamples numGrains : Z)
    (settingsCallback : SettingsCallback) : Z :=
  foldr (fun g acc =>
           scaledGrainSize numInputSamples grainSizeSamples numGrains
             settingsCallback g + acc)
        0 (seqZ 0 numGrains).

(** The callback that leaves both multipliers at [1.0f]. *)
Definition unitSettings : SettingsCallback := fun _ settings => settings.

(** ** Fuel *)

(** More fuel does not change a run that did not run out of it. *)
Definition fuel_mono {A} (F : nat -> outcome A) : Prop :=
  forall f f', (f <= f')%nat -> F f <> OutOfFuel -> F f' = F f.

(** ** PCM samples *)

(** The bytes [FloatToPCM] stores for one sample, and the sample
    [PCMToFloat] loads from them. *)
Definition encodeSample (numBytes : Z) (x : float) : list byte :=
  match FloatToPCM (replicate (Z.to_nat numBytes) Byte.x00) 0 x numBytes with
  | Done bytes => bytes
  | _ => []
  end.

Definition decodeSample (numBytes : Z) (bytes : list byte) : float :=
  match PCMToFloat bytes 0 numBytes with
  | Done x => x
  | _ => F32.zero
  end.

(** A sample after a trip through its PCM code. *)
Definition quantize (numBytes : Z) (x : float) : float :=
  decodeSample numBytes (encodeSample numBytes x).

(** The PCM data of a whole buffer. *)
Definition pcmBytes (numBytes : Z) (dataFloat : list float) : list byte :=
  concat (map (encodeSample numBytes) dataFloat).

(** ** Wave files *)

(** The header of a PCM file made of a 16 byte "fmt " chunk followed by
    the "data" chunk, and such a file. *)
Definition minimalHeader (chunkSize numChannels sampleRate byteRate blockAlign
    bitsPerSample dataSize : Z) : SMinimalWaveFileHeader :=
  {| m_chunkID := tag "RIFF"; m_chunkSize := chunkSize;
     m_format := tag "WAVE"; m_subChunk1ID := tag "fmt ";
     m_subChunk1Size := 16; m_audioFormat := 1;
     m_numChannels := numChannels; m_sampleRate := sampleRate;
     m_byteRate := byteRate; m_blockAlign := blockAlign;
     m_bitsPerSample := bitsPerSample; m_subChunk2ID := tag "data";
     m_subChunk2Size := dataSize |}.

Definition minimalFile (chunkSize numChannels sampleRate byteRate blockAlign
    bitsPerSample dataSize : Z) (payload : list byte) : list byte :=
  headerBytes (minimalHeader chunkSize numChannels sampleRate byteRate
                 blockAlign bitsPerSample dataSize) ++ payload.

(** A chunk position: the start of an eight byte chunk header inside
    the file. *)
Definition chunkPos (fileData : list byte) (pos : Z) : Prop :=
  0 <= pos /\ pos + 8 <= vsize fileData.

(** ** Every 8-bit and every 16-bit code *)

Definition allBytes : list byte := map byte_of_Z (seqZ 0 256).

(** [normalized], as a test. *)
Definition normalizedb (x : float) : bool :=
  valid_binary F32.prec F32.emax x && F32.leb (SFabs x) F32.one.

(** The code a stored 8-bit code [s] comes back as after [PCMToFloat]
    and [FloatToPCM]. *)
Definition recoded8 (s : Z) : Z :=
  if (1 <=? s) && (s <=? 63) then s - 1 else s.

(** The same for a 16-bit code, read as an unsigned integer. *)
Definition recoded16 (s : Z) : Z :=
  if (1 <=? s) && (s <=? 32767) then s - 1 else s.

Definition check8 (b : byte) : bool :=
  let x := decodeSample 1 [b] in
  normalizedb x && negb (F32.eqb x F32.zero)
  && match encodeSample 1 x with
     | [c] => byte_to_Z c =? recoded8 (byte_to_Z b)
     | _ => false
     end.

Definition check16 (b1 b0 : byte) : bool :=
  let x := decodeSample 2 [b0; b1] in
  normalizedb x
  && match rd16 (encodeSample 2 x) 0 with
     | Done s => s =? recoded16 (byte_to_Z b0 + 2 ^ 8 * byte_to_Z b1)
     | _ => false
     end.

(** ** Runs that do not go wrong *)

(** The run returns a result that satisfies [P], or it is still going
    when the fuel ends; it performs no undefined operation. *)
Definition safe {A} (P : A -> Prop) (r : outcome A) : Prop :=
  match r with
  | Done a => P a
  | Undefined => False
  | OutOfFuel => True
  end.

(** What a run may do to the process state: nothing, or the one report
    of the cross fade. *)
Definition reported (p p' : Process) : Prop :=
  p' = p \/
  (reportedError p = false /\
   p' = {| reportedError := true; stdout := stdout p ++ [crossFadeMessage] |}).

(** The slots of the frames [first .. first + count - 1]. *)
Definition inFrames (numChannels first count : Z) (i : nat) : Prop :=
  first * numChannels <= Z.of_nat i < (first + count) * numChannels.

(** What the loops of an engine keep true of its state: the output has
    [size] slots, the cursor is inside it, and the process state has
    moved from [p] by at most the one report. *)
Definition engineInv (numChannels : Z) (size : nat) (p : Process)
    (s : Engine) : Prop :=
  length (output s) = size /\
  0 <= outputSampleIndex s <= Z.of_nat size / numChannels /\
  reported p (proc s).

(** A zero or a finite non-zero value. *)
Definition finite (x : float) : Prop :=
  match x with
  | S754_zero _ | S754_finite _ _ _ => True
  | _ => False
  end.

(** ** The engine with unit multipliers *)

(** Two samples that compare equal, and are the same value unless the
    second one is a zero (the first may then be the zero of the other
    sign). *)
Definition sameSample (y x : float) : Prop :=
  F32.eqb y x = true /\ (~ is_zero x -> y = x).

(** The first [slots] slots of the output hold the samples of the
    input, the others the zero they were created with. *)
Definition copied (input : list float) (slots : Z) (out : list float) : Prop :=
  length out = length input /\
  forall i : nat, (i < length input)%nat ->
    exists x y, input !! i = Some x /\ out !! i = Some y /\
      if Z.of_nat i <? slots then sameSample y x else y = F32.zero.

(** The state of the engine with unit multipliers before the window of
    grain [grain]: the grains before it are copied, the cursor is at
    the start of the grain, the grain before it was the last one
    written. *)
Definition grainsCopied (input : list float) (numChannels grainSize : Z)
    (p : Process) (grain : Z) (s : Engine) : Prop :=
  copied input (grain * grainSize * numChannels) (output s) /\
  outputSampleIndex s = grain * grainSize /\
  (lastGrainWritten s = SIZE_MAX /\ grain = 0 \/
   lastGrainWritten s = grain - 1 /\ 1 <= grain) /\
  reported p (proc s).

(** ** Examples *)

(** A disk without files, and a disk that holds one file; no name is
    protected. *)
Definition emptyDisk : FileSystem := {| files := ∅; readOnly := ∅ |}.

Definition oneFileDisk (fileName : string) (contents : list byte) : FileSystem :=
  {| files := {[ fileName := contents ]}; readOnly := ∅ |}.

(** A disk on which [locked.wav] cannot be opened for writing. *)
Definition lockedDisk : FileSystem :=
  {| files := ∅; readOnly := {[ "locked.wav"%string ]} |}.

(** What a caller passes to [ReadWaveFile]: an empty vector. *)
Definition noWave : WaveData :=
  {| wave_data := []; wave_numChannels := 0; wave_sampleRate := 0;
     wave_numBytes := 0 |}.

(** Two stereo frames. *)
Definition twoFrames : list float := [F32.zero; F32.one; (- F32.one)%f32; half].

(** A mono 16-bit file of two samples, and the same header with a block
    align of 0. *)
Definition monoFile : list byte :=
  minimalFile 40 1 8000 16000 2 16 4
    ([Byte.x00; Byte.x40] ++ [Byte.xff; Byte.x7f]).

Definition zeroAlignFile : list byte :=
  minimalFile 40 1 8000 16000 0 16 4 [Byte.x00; Byte.x40; Byte.xff; Byte.x7f].

(** A grain of eight mono samples written at frame 1 of an output of
    three frames. *)
Definition grainRun : outcome (Process * list float * Z) :=
  SplatGrainToOutput 3 startup (replicate 8 F32.one) (replicate 3 F32.zero) 1
    0 8 1 CrossFadeNone 0 half false.

Definition grainRunOutput : list float :=
  match grainRun with Done (_, out, _) => out | _ => [] end.

Definition grainRunCount : Z :=
  match grainRun with Done (_, _, n) => n | _ => 0 end.

(** A grain of two mono samples faded in over no sample, the final
    grain of its run. *)
Definition fadeRun : outcome (Process * list float * Z) :=
  SplatGrainToOutput 2 startup (replicate 4 F32.one) (replicate 2 F32.zero) 1
    0 2 0 CrossFadeIn 0 F32.one true.

Definition fadeRunOutput : list float :=
  match fadeRun with Done (_, out, _) => out | _ => [] end.

Definition fadeRunCount : Z :=
  match fadeRun with Done (_, _, n) => n | _ => 0 end.

(** ** Files with more chunks *)

(** A chunk, as its identifier and its contents, and its bytes in a
    file: the identifier, the length of the contents, the contents. *)
Definition chunkBytes (c : list byte * list byte) : list byte :=
  c.1 ++ le32 (vsize c.2) ++ c.2.

(** A chunk the reader has no use for: four bytes of identifier that
    are neither "fmt " nor "data", and contents whose length fits the
    size field. *)
Definition foreign (c : list byte * list byte) : Prop :=
  length c.1 = 4%nat /\ c.1 <> tag "fmt " /\ c.1 <> tag "data" /\
  vsize c.2 < 2 ^ 32.

(** The file of [minimalFile] with the chunks [pre] before the "fmt "
    chunk and the chunks [mid] between the "fmt " and the "data"
    chunk. *)
Definition chunkedFile (chunkSize numChannels sampleRate byteRate blockAlign
    bitsPerSample dataSize : Z) (pre mid : list (list byte * list byte))
    (payload : list byte) : list byte :=
  tag "RIFF" ++ le32 chunkSize ++ tag "WAVE"
  ++ concat (map chunkBytes pre)
  ++ tag "fmt " ++ le32 16 ++ le16 1 ++ le16 numChannels
  ++ le32 sampleRate ++ le32 byteRate ++ le16 blockAlign ++ le16 bitsPerSample
  ++ concat (map chunkBytes mid)
  ++ tag "data" ++ le32 dataSize ++ payload.

(** The file of [monoFile] with a "LIST" chunk of two bytes between
    the "fmt " and the "data" chunk, and a mono file whose block align
    is 6. *)
Definition listFile : list byte :=
  chunkedFile 40 1 8000 16000 2 16 4 [] [(tag "LIST", [Byte.x01; Byte.x02])]
    ([Byte.x00; Byte.x40] ++ [Byte.xff; Byte.x7f]).

Definition wideFile : list byte :=
  minimalFile 48 1 8000 16000 6 16 12
    [Byte.x00; Byte.x40; Byte.xff; Byte.x7f; Byte.x00; Byte.x40;
     Byte.x00; Byte.x40; Byte.xff; Byte.x7f; Byte.x00; Byte.x40].

(** * Properties *)

(** ** Machine integers *)

Lemma size_mod_eq : size_mod = 18446744073709551616.
Proof. reflexivity. Qed.

Lemma max_size_eq : max_size = 2305843009213693951.
Proof. reflexivity. Qed.

Lemma wrap_range z : 0 <= wrap z < size_mod.
Proof. unfold wrap. apply Z.mod_pos_bound. rewrite size_mod_eq. lia. Qed.

Lemma wrap_small z : 0 <= z < size_mod -> wrap z = z.
Proof. intros H. unfold wrap. now apply Z.mod_small. Qed.

(** Removes the reductions that cannot overflow, innermost first. *)
Ltac unwrap :=
  repeat match goal with
  | |- context [wrap ?z] =>
      lazymatch z with
      | context [wrap _] => fail
      | _ => rewrite (wrap_small z) by (rewrite size_mod_eq; nia)
      end
  end.

Lemma vsize_nonneg {A} (v : list A) : 0 <= vsize v.
Proof. unfold vsize. lia. Qed.

Lemma vsize_pos {A} (v : list A) : v <> [] -> 1 <= vsize v.
Proof. destruct v; [congruence | unfold vsize; simpl; lia]. Qed.

Lemma vget_in_range (v : list float) i :
  0 <= i < vsize v -> exists x, v !! Z.to_nat i = Some x /\ vget v i = Done x.
Proof.
  intros H. unfold vget.
  destruct (v !! Z.to_nat i) as [x|] eqn:E; [eauto |].
  apply lookup_ge_None in E. unfold vsize in H. lia.
Qed.

Lemma vset_in_range (v : list float) i x :
  0 <= i < vsize v -> vset v i x = Done (<[Z.to_nat i := x]> v).
Proof.
  intros H. unfold vset.
  destruct (v !! Z.to_nat i) eqn:E; [reflexivity |].
  apply lookup_ge_None in E. unfold vsize in H. lia.
Qed.

Lemma vget_insert_eq (v : list float) i x :
  0 <= i < vsize v -> vget (<[Z.to_nat i := x]> v) i = Done x.
Proof.
  intros H. unfold vget.
  rewrite list_lookup_insert_eq; [reflexivity | unfold vsize in H; lia].
Qed.

Lemma vget_insert_ne (v : list float) i j x :
  0 <= i -> 0 <= j -> i <> j -> vget (<[Z.to_nat i := x]> v) j = vget v j.
Proof.
  intros Hi Hj Hne. unfold vget. rewrite list_lookup_insert_ne; [reflexivity | lia].
Qed.

Lemma vsize_insert (v : list float) n x : vsize (<[n := x]> v) = vsize v.
Proof. unfold vsize. now rewrite length_insert. Qed.

(** ** Counted loops *)

Lemma for_range_inv {St : Type} (P : Z -> St -> Prop) body count i (s : St) :
  P i s ->
  (forall j t, i <= j < i + Z.of_nat count -> P j t ->
               exists t', body j t = Done t' /\ P (j + 1) t') ->
  exists s', for_range count i body s = Done s' /\ P (i + Z.of_nat count) s'.
Proof.
  revert i s. induction count as [|count IH]; intros i s Hs Hbody.
  - exists s. simpl. split; [reflexivity |]. now rewrite Z.add_0_r.
  - destruct (Hbody i s ltac:(lia) Hs) as (t' & Ht' & HP).
    destruct (IH (i + 1) t' HP) as (s' & Hs' & HP').
    + intros j t Hj. apply Hbody. lia.
    + exists s'. simpl. rewrite Ht'. simpl. split; [exact Hs' |].
      now replace (i + Z.of_nat (S count)) with (i + 1 + Z.of_nat count) by lia.
Qed.

(** ** binary32 arithmetic *)

Module F32Facts.

(** *** Number of binary digits *)

Lemma digits2_pos_bounds (p : positive) :
  2 ^ (Z.pos (digits2_pos p) - 1) <= Z.pos p < 2 ^ Z.pos (digits2_pos p).
Proof.
  induction p as [p IH|p IH|]; simpl digits2_pos.
  - rewrite Pos2Z.inj_succ.
    replace (Z.succ (Z.pos (digits2_pos p)) - 1)
      with (Z.pos (digits2_pos p) - 1 + 1) by lia.
    rewrite Z.pow_succ_r by lia.
    destruct (Z.eq_dec (Z.pos (digits2_pos p)) 1) as [E|E].
    + rewrite E in *. simpl in *. lia.
    + rewrite Z.pow_add_r by lia. simpl (2 ^ 1). lia.
  - rewrite Pos2Z.inj_succ.
    replace (Z.succ (Z.pos (digits2_pos p)) - 1)
      with (Z.pos (digits2_pos p) - 1 + 1) by lia.
    rewrite Z.pow_succ_r by lia.
    rewrite Z.pow_add_r by lia. simpl (2 ^ 1). lia.
  - simpl. lia.
Qed.

Lemma digits2_pos_unique (p : positive) (d : Z) :
  2 ^ (d - 1) <= Z.pos p < 2 ^ d -> Z.pos (digits2_pos p) = d.
Proof.
  intros H. pose proof (digits2_pos_bounds p) as B.
  assert (0 < d).
  { destruct (Z_lt_le_dec 0 d); auto.
    rewrite (Z.pow_neg_r 2 (d - 1)) in H by lia.
    assert (2 ^ d <= 2 ^ 0) by (apply Z.pow_le_mono_r; lia). simpl in *. lia. }
  destruct (Z_lt_le_dec (Z.pos (digits2_pos p)) d).
  - assert (2 ^ Z.pos (digits2_pos p) <= 2 ^ (d - 1))
      by (apply Z.pow_le_mono_r; lia).
    lia.
  - destruct (Z_lt_le_dec d (Z.pos (digits2_pos p))); [| lia].
    assert (2 ^ d <= 2 ^ (Z.pos (digits2_pos p) - 1))
      by (apply Z.pow_le_mono_r; lia).
    lia.
Qed.

Lemma iter_xO_value (p : positive) (k : positive) :
  Z.pos (Pos.iter xO p k) = Z.pos p * 2 ^ Z.pos k.
Proof.
  rewrite <- Pos2Z.inj_pow. rewrite <- Pos2Z.inj_mul. f_equal.
  revert p. induction k using Pos.peano_ind; intros p.
  - simpl. lia.
  - rewrite Pos.iter_succ, IHk. rewrite Pos.pow_succ_r. lia.
Qed.

Lemma Zdigits2_nonneg m : 0 <= Zdigits2 m.
Proof. destruct m; simpl; lia. Qed.

Lemma Zdigits2_lt_pow m : 0 <= m -> m < 2 ^ Zdigits2 m.
Proof.
  destruct m as [|p|p]; simpl; try lia.
  intros _. apply digits2_pos_bounds.
Qed.

Lemma Zdigits2_le m j : 0 <= m < 2 ^ j -> 0 <= j -> Zdigits2 m <= j.
Proof.
  destruct m as [|p|p]; simpl; try lia.
  intros H Hj. pose proof (digits2_pos_bounds p) as B.
  destruct (Z_lt_le_dec j (Z.pos (digits2_pos p))); [| lia].
  assert (2 ^ j <= 2 ^ (Z.pos (digits2_pos p) - 1))
    by (apply Z.pow_le_mono_r; lia).
  lia.
Qed.

Lemma Zdigits2_div m n :
  0 <= m -> 0 <= n -> Zdigits2 (m / 2 ^ n) <= Z.max (Zdigits2 m - n) 0.
Proof.
  intros Hm Hn. pose proof (Zdigits2_lt_pow m Hm) as B.
  pose proof (Zdigits2_nonneg m) as D.
  assert (P : 0 < 2 ^ n) by (apply Z.pow_pos_nonneg; lia).
  destruct (Z_le_gt_dec n (Zdigits2 m)).
  - rewrite Z.max_l by lia. apply Zdigits2_le; [| lia]. split.
    + apply Z.div_pos; lia.
    + apply Z.div_lt_upper_bound; [lia |].
      rewrite <- Z.pow_add_r by lia.
      now replace (n + (Zdigits2 m - n)) with (Zdigits2 m) by lia.
  - rewrite Z.div_small; [simpl; lia |]. split; [lia |].
    assert (2 ^ Zdigits2 m <= 2 ^ n) by (apply Z.pow_le_mono_r; lia). lia.
Qed.

Lemma Zdigits2_succ m : 0 <= m -> Zdigits2 (m + 1) <= Zdigits2 m + 1.
Proof.
  intros Hm. pose proof (Zdigits2_lt_pow m Hm) as B.
  pose proof (Zdigits2_nonneg m) as D.
  apply Zdigits2_le; [| lia]. rewrite Z.pow_add_r by lia. simpl (2 ^ 1). lia.
Qed.

Lemma mul_pow_lt a da n :
  0 <= a < 2 ^ da -> 0 <= da -> 0 <= n -> a * 2 ^ n < 2 ^ (da + n).
Proof.
  intros. rewrite Z.pow_add_r by lia.
  assert (0 < 2 ^ n) by (apply Z.pow_pos_nonneg; lia). nia.
Qed.

Lemma pow_sum_lt a b da db :
  0 <= a < 2 ^ da -> 0 <= b < 2 ^ db -> 0 <= da -> 0 <= db ->
  a * b < 2 ^ (da + db).
Proof. intros. rewrite Z.pow_add_r by lia. nia. Qed.

(** *** Shifting the mantissa *)

Lemma shr_1_m mrs : 0 <= shr_m mrs -> shr_m (shr_1 mrs) = shr_m mrs / 2.
Proof.
  destruct mrs as [m r s]. simpl. intros H.
  destruct m as [|[p|p|]|p]; simpl; try lia; try reflexivity.
  - rewrite Pos2Z.inj_xI. rewrite (Z.mul_comm 2), Z.div_add_l by lia. reflexivity.
  - rewrite Pos2Z.inj_xO. rewrite (Z.mul_comm 2), Z.div_mul by lia. reflexivity.
Qed.

Lemma pow2_xO (n : positive) : 2 ^ Z.pos n~0 = 2 ^ Z.pos n * 2 ^ Z.pos n.
Proof. rewrite Pos2Z.inj_xO, <- Z.pow_add_r by lia. f_equal. lia. Qed.

Lemma pow2_xI (n : positive) : 2 ^ Z.pos n~1 = 2 * (2 ^ Z.pos n * 2 ^ Z.pos n).
Proof.
  rewrite Pos2Z.inj_xI, <- Z.pow_add_r by lia.
  replace (2 * Z.pos n + 1) with (Z.succ (Z.pos n + Z.pos n)) by lia.
  now rewrite Z.pow_succ_r by lia.
Qed.

Lemma iter_shr_1_m n : forall mrs,
  0 <= shr_m mrs ->
  shr_m (SpecFloat.iter_pos shr_1 n mrs) = shr_m mrs / 2 ^ Z.pos n.
Proof.
  induction n as [n IH|n IH|]; intros mrs H; simpl SpecFloat.iter_pos.
  - assert (P : 0 < 2 ^ Z.pos n) by (apply Z.pow_pos_nonneg; lia).
    assert (H1 : 0 <= shr_m (shr_1 mrs)).
    { rewrite shr_1_m by lia. apply Z.div_pos; lia. }
    assert (H2 : 0 <= shr_m (SpecFloat.iter_pos shr_1 n (shr_1 mrs))).
    { rewrite IH by lia. apply Z.div_pos; lia. }
    rewrite IH, IH, shr_1_m by lia.
    rewrite !Z.div_div by lia. now rewrite pow2_xI.
  - assert (P : 0 < 2 ^ Z.pos n) by (apply Z.pow_pos_nonneg; lia).
    assert (H2 : 0 <= shr_m (SpecFloat.iter_pos shr_1 n mrs)).
    { rewrite IH by lia. apply Z.div_pos; lia. }
    rewrite IH, IH by lia.
    rewrite !Z.div_div by lia. now rewrite pow2_xO.
  - rewrite shr_1_m by lia. reflexivity.
Qed.

Lemma shr_spec mrs e n :
  0 <= shr_m mrs ->
  shr_m (fst (shr mrs e n)) = shr_m mrs / 2 ^ Z.max n 0 /\
  snd (shr mrs e n) = e + Z.max n 0.
Proof.
  intros H. destruct n as [|p|p]; simpl.
  - rewrite Z.div_1_r. lia.
  - rewrite iter_shr_1_m by lia. rewrite Z.max_l by lia. lia.
  - rewrite Z.max_r by lia. rewrite Z.div_1_r. lia.
Qed.

Lemma shr_m_of_loc m l : shr_m (shr_record_of_loc m l) = m.
Proof. destruct l as [|[]]; reflexivity. Qed.

Lemma round_nearest_even_range m l :
  0 <= m -> m <= round_nearest_even m l <= m + 1.
Proof.
  intros H. destruct l as [|[]]; simpl; try lia.
  destruct (Z.even m); lia.
Qed.

Lemma fexp_eq e : fexp F32.prec F32.emax e = Z.max (e - 24) (-149).
Proof. reflexivity. Qed.

Lemma fexp_normal e : -125 <= e -> fexp F32.prec F32.emax e = e - 24.
Proof. intros H. rewrite fexp_eq. lia. Qed.

Lemma shr_fexp_spec m e l :
  0 <= m ->
  let r := shr_fexp F32.prec F32.emax m e l in
  let n := Z.max (fexp F32.prec F32.emax (Zdigits2 m + e) - e) 0 in
  shr_m (fst r) = m / 2 ^ n /\ snd r = e + n.
Proof.
  intros H. unfold shr_fexp.
  pose proof (shr_spec (shr_record_of_loc m l) e
                (fexp F32.prec F32.emax (Zdigits2 m + e) - e)) as S.
  rewrite shr_m_of_loc in S. apply S. exact H.
Qed.

Lemma shr_fexp_bound m e l k :
  0 <= m -> Zdigits2 m + e <= k ->
  let r := shr_fexp F32.prec F32.emax m e l in
  0 <= shr_m (fst r) /\
  Zdigits2 (shr_m (fst r)) + snd r <= Z.max k (-149) /\
  snd r <= Z.max e (Z.max (k - 24) (-149)).
Proof.
  intros Hm Hk r.
  destruct (shr_fexp_spec m e l Hm) as [E1 E2]. fold r in E1, E2.
  rewrite E1, E2. rewrite fexp_eq.
  set (n := Z.max (Z.max (Zdigits2 m + e - 24) (-149) - e) 0).
  assert (Hn : 0 <= n) by lia.
  pose proof (Zdigits2_div m n Hm Hn) as D.
  pose proof (Zdigits2_nonneg m).
  assert (P : 0 < 2 ^ n) by (apply Z.pow_pos_nonneg; lia).
  split; [apply Z.div_pos; lia |]. lia.
Qed.

Lemma shl_align_value m e t :
  t <= e -> Z.pos (fst (shl_align m e t)) = Z.pos m * 2 ^ (e - t).
Proof.
  intros H. unfold shl_align.
  destruct (t - e) as [|d|d] eqn:E; simpl; try lia.
  - replace (e - t) with 0 by lia. simpl. lia.
  - rewrite iter_xO_value. f_equal. f_equal. lia.
Qed.

Lemma shl_align_digits m e t :
  Z.pos (digits2_pos (fst (shl_align m e t))) + snd (shl_align m e t)
    = Z.pos (digits2_pos m) + e /\
  snd (shl_align m e t) <= e.
Proof.
  unfold shl_align.
  destruct (t - e) as [|d|d] eqn:E; simpl; try lia.
  assert (Hd : Z.pos (digits2_pos (Pos.iter xO m d))
               = Z.pos (digits2_pos m) + Z.pos d).
  { apply digits2_pos_unique. rewrite iter_xO_value.
    pose proof (digits2_pos_bounds m) as B.
    replace (Z.pos (digits2_pos m) + Z.pos d - 1)
      with (Z.pos (digits2_pos m) - 1 + Z.pos d) by lia.
    rewrite !Z.pow_add_r by lia.
    assert (0 < 2 ^ Z.pos d) by (apply Z.pow_pos_nonneg; lia). nia. }
  lia.
Qed.

(** *** Rounding does not overflow on bounded values *)

Lemma below_mono k k' x : k <= k' -> below k x -> below k' x.
Proof. destruct x; simpl; auto. lia. Qed.

Lemma round_below s m e l k :
  0 <= m -> Zdigits2 m + e <= k -> k <= 127 -> e <= 104 ->
  below (Z.max (k + 1) (-148)) (binary_round_aux F32.prec F32.emax s m e l).
Proof.
  intros Hm Hk Hk' He. unfold binary_round_aux.
  destruct (shr_fexp_bound m e l k Hm Hk) as (B1 & B2 & B3).
  destruct (shr_fexp F32.prec F32.emax m e l) as [mrs' e']. simpl in B1, B2, B3.
  set (m1 := round_nearest_even (shr_m mrs') (loc_of_shr_record mrs')).
  pose proof (round_nearest_even_range (shr_m mrs') (loc_of_shr_record mrs') B1) as R.
  fold m1 in R.
  pose proof (Zdigits2_succ (shr_m mrs') B1) as S1.
  assert (D1 : Zdigits2 m1 <= Zdigits2 (shr_m mrs') + 1).
  { destruct (Z.eq_dec m1 (shr_m mrs')) as [->|]; [lia |].
    replace m1 with (shr_m mrs' + 1) by lia. exact S1. }
  destruct (shr_fexp_bound m1 e' loc_Exact (Z.max k (-149) + 1)
              ltac:(lia) ltac:(lia)) as (C1 & C2 & C3).
  destruct (shr_fexp F32.prec F32.emax m1 e' loc_Exact) as [mrs'' e''].
  simpl in C1, C2, C3.
  destruct (shr_m mrs'') as [|p|p] eqn:E; simpl; try lia.
  change (F32.emax - F32.prec) with 104.
  destruct (e'' <=? 104) eqn:L.
  - simpl. simpl in C2. lia.
  - apply Z.leb_gt in L. lia.
Qed.

Lemma normalize_below m e sz k :
  Z.abs m < 2 ^ (k - e) -> e <= k -> e <= 104 -> k <= 127 ->
  below (Z.max (k + 1) (-148)) (binary_normalize F32.prec F32.emax m e sz).
Proof.
  intros Hm Hek He Hk.
  assert (R : forall s p, Z.pos p < 2 ^ (k - e) ->
            below (Z.max (k + 1) (-148)) (binary_round F32.prec F32.emax s p e)).
  { intros s p Hp. unfold binary_round.
    pose proof (shl_align_digits p e
                  (fexp F32.prec F32.emax (Z.pos (digits2_pos p) + e))) as [D1 D2].
    destruct (shl_align p e _) as [mz ez]. simpl in D1, D2.
    apply round_below; try lia. simpl.
    assert (Zdigits2 (Z.pos p) <= k - e) by (apply Zdigits2_le; lia).
    simpl in *. lia. }
  destruct m as [|p|p]; simpl; auto; apply R; simpl in Hm; lia.
Qed.

Lemma mul_below k1 k2 x y :
  below k1 x -> below k2 y -> k1 + k2 <= 106 ->
  below (Z.max (k1 + k2 + 1) (-148)) (x * y)%f32.
Proof.
  intros Hx Hy Hk.
  destruct x as [sx|sx| |sx mx ex], y as [sy|sy| |sy my ey];
    simpl in *; try contradiction; auto.
  apply round_below; try lia.
  assert (Zdigits2 (Z.pos (mx * my))
          <= Z.pos (digits2_pos mx) + Z.pos (digits2_pos my)).
  { apply Zdigits2_le; [| lia]. rewrite Pos2Z.inj_mul. split; [lia |].
    apply pow_sum_lt; try lia; split; try lia; apply digits2_pos_bounds. }
  lia.
Qed.

Lemma cond_Zopp_abs s m : Z.abs (cond_Zopp s m) = Z.abs m.
Proof. destruct s; simpl; lia. Qed.

(** The sum of two mantissas aligned on the smaller exponent. *)
Lemma aligned_sum_lt mx ex my ey k1 k2 (sx sy : Z -> Z) :
  (forall z, Z.abs (sx z) = Z.abs z) -> (forall z, Z.abs (sy z) = Z.abs z) ->
  Z.pos (digits2_pos mx) + ex <= k1 -> Z.pos (digits2_pos my) + ey <= k2 ->
  let ez := Z.min ex ey in
  Z.abs (sx (Z.pos (fst (shl_align mx ex ez)))
         + sy (Z.pos (fst (shl_align my ey ez))))
    < 2 ^ (Z.max k1 k2 + 1 - ez).
Proof.
  intros Hsx Hsy Hx Hy ez.
  rewrite !shl_align_value by (unfold ez; lia).
  pose proof (digits2_pos_bounds mx) as Bx.
  pose proof (digits2_pos_bounds my) as By.
  set (a := Z.pos mx * 2 ^ (ex - ez)). set (b := Z.pos my * 2 ^ (ey - ez)).
  assert (Ha : 0 <= a < 2 ^ (Z.max k1 k2 - ez)).
  { unfold a. split; [apply Z.mul_nonneg_nonneg; [lia | apply Z.pow_nonneg; lia] |].
    apply Z.lt_le_trans with (2 ^ (Z.pos (digits2_pos mx) + (ex - ez))).
    - apply mul_pow_lt; unfold ez; lia.
    - apply Z.pow_le_mono_r; unfold ez; lia. }
  assert (Hb : 0 <= b < 2 ^ (Z.max k1 k2 - ez)).
  { unfold b. split; [apply Z.mul_nonneg_nonneg; [lia | apply Z.pow_nonneg; lia] |].
    apply Z.lt_le_trans with (2 ^ (Z.pos (digits2_pos my) + (ey - ez))).
    - apply mul_pow_lt; unfold ez; lia.
    - apply Z.pow_le_mono_r; unfold ez; lia. }
  replace (Z.max k1 k2 + 1 - ez) with (Z.succ (Z.max k1 k2 - ez)) by lia.
  rewrite Z.pow_succ_r by (unfold ez; lia).
  pose proof (Hsx a). pose proof (Hsy b). lia.
Qed.

Lemma add_below k1 k2 x y :
  below k1 x -> below k2 y -> Z.max k1 k2 <= 105 ->
  below (Z.max (Z.max k1 k2 + 2) (-148)) (x + y)%f32.
Proof.
  intros Hx Hy Hk.
  destruct x as [sx|sx| |sx mx ex], y as [sy|sy| |sy my ey];
    simpl in *; try contradiction.
  - destruct sx, sy; simpl; auto.
  - lia.
  - lia.
  - replace (Z.max k1 k2 + 2) with (Z.max k1 k2 + 1 + 1) by lia.
    apply (normalize_below _ _ false (Z.max k1 k2 + 1)); try lia.
    apply (aligned_sum_lt mx ex my ey k1 k2 (cond_Zopp _) (cond_Zopp _));
      auto using cond_Zopp_abs.
Qed.

Lemma sub_below k1 k2 x y :
  below k1 x -> below k2 y -> Z.max k1 k2 <= 105 ->
  below (Z.max (Z.max k1 k2 + 2) (-148)) (x - y)%f32.
Proof.
  intros Hx Hy Hk.
  destruct x as [sx|sx| |sx mx ex], y as [sy|sy| |sy my ey];
    simpl in *; try contradiction.
  - destruct sx, sy; simpl; auto.
  - lia.
  - lia.
  - replace (cond_Zopp sx (Z.pos (fst (shl_align mx ex (Z.min ex ey))))
             - cond_Zopp sy (Z.pos (fst (shl_align my ey (Z.min ex ey)))))
      with (cond_Zopp sx (Z.pos (fst (shl_align mx ex (Z.min ex ey))))
            + cond_Zopp (negb sy) (Z.pos (fst (shl_align my ey (Z.min ex ey)))))
      by (destruct sy; simpl; lia).
    replace (Z.max k1 k2 + 2) with (Z.max k1 k2 + 1 + 1) by lia.
    apply (normalize_below _ _ false (Z.max k1 k2 + 1)); try lia.
    apply (aligned_sum_lt mx ex my ey k1 k2 (cond_Zopp _) (cond_Zopp _));
      auto using cond_Zopp_abs.
Qed.

Lemma neg_below k x : below k x -> below k (- x)%f32.
Proof. destruct x; simpl; auto. Qed.

Lemma div_core_bound m1 e1 m2 e2 :
  let '(q, e', _) :=
    SFdiv_core_binary F32.prec F32.emax (Z.pos m1) e1 (Z.pos m2) e2 in
  0 <= q /\
  Zdigits2 q + e' <=
    Z.max (Z.pos (digits2_pos m1) + e1 - (Z.pos (digits2_pos m2) + e2) + 1) (-149) /\
  e' <= e1 - e2.
Proof.
  unfold SFdiv_core_binary. simpl Zdigits2.
  set (d1 := Z.pos (digits2_pos m1)). set (d2 := Z.pos (digits2_pos m2)).
  rewrite fexp_eq.
  set (e' := Z.min (Z.max (d1 + e1 - (d2 + e2) - 24) (-149)) (e1 - e2)).
  set (s := e1 - e2 - e').
  set (m' := match s with
             | Z.pos _ => Z.shiftl (Z.pos m1) s
             | 0 => Z.pos m1
             | Z.neg _ => 0
             end).
  assert (Hd1 : 0 < d1) by (unfold d1; lia).
  assert (Hd2 : 0 < d2) by (unfold d2; lia).
  assert (Hs : 0 <= s) by (unfold s, e'; lia).
  assert (Hm' : m' = Z.pos m1 * 2 ^ s).
  { unfold m'. destruct s as [|p|p] eqn:E; try lia.
    now rewrite Z.shiftl_mul_pow2 by lia. }
  destruct (Z.div_eucl m' (Z.pos m2)) as [q r] eqn:E.
  assert (Hq : q = m' / Z.pos m2) by (unfold Z.div; now rewrite E).
  pose proof (digits2_pos_bounds m1) as B1. fold d1 in B1.
  pose proof (digits2_pos_bounds m2) as B2. fold d2 in B2.
  assert (P : 0 < 2 ^ s) by (apply Z.pow_pos_nonneg; lia).
  assert (Hm'lt : 0 <= m' < 2 ^ (d1 + s)).
  { rewrite Hm'. split; [nia |]. apply mul_pow_lt; lia. }
  assert (Hq0 : 0 <= q) by (rewrite Hq; apply Z.div_pos; lia).
  split; [exact Hq0 |]. split; [| unfold e', d1, d2; clear; lia].
  destruct (Z_le_gt_dec 0 (d1 + s - d2 + 1)) as [T|T].
  - assert (H : Zdigits2 q <= d1 + s - d2 + 1).
    { apply Zdigits2_le; [| lia]. split; [lia |].
      rewrite Hq. apply Z.div_lt_upper_bound; [lia |].
      apply Z.lt_le_trans with (2 ^ (d1 + s)); [lia |].
      replace (d1 + s) with ((d2 - 1) + (d1 + s - d2 + 1)) at 1 by lia.
      rewrite Z.pow_add_r by lia.
      apply Z.mul_le_mono_nonneg_r; [apply Z.pow_nonneg; lia | lia]. }
    clear - H. unfold s, e', d1, d2 in *. clear s e' d1 d2.
    revert H. generalize (Zdigits2 q). intros. lia.
  - assert (Hz : q = 0).
    { rewrite Hq. apply Z.div_small. split; [lia |].
      apply Z.lt_le_trans with (2 ^ (d1 + s)); [lia |].
      apply Z.le_trans with (2 ^ (d2 - 1)); [| lia].
      apply Z.pow_le_mono_r; lia. }
    rewrite Hz. simpl Zdigits2. unfold e', d1, d2. clear. lia.
Qed.

Lemma div_two_below k x :
  below k x -> k <= 83 -> below (Z.max k (-148)) (x / F32.two)%f32.
Proof.
  intros Hx Hk.
  destruct x as [sx|sx| |sx mx ex]; simpl in *; try contradiction; auto.
  pose proof (div_core_bound mx ex 8388608 (-22)) as B.
  destruct (SFdiv_core_binary F32.prec F32.emax (Z.pos mx) ex 8388608 (-22))
    as [[q e'] l].
  destruct B as (B1 & B2 & B3). simpl in B2.
  eapply below_mono;
    [| apply (round_below _ q e' l (Z.max (k - 1) (-149))); lia].
  lia.
Qed.

(** A sample in [[-1, 1]] is smaller than 2 in magnitude. *)
Lemma normalized_below x : normalized x -> below 1 x.
Proof.
  intros [Hv Hle]. destruct x as [s|s| |s m e]; simpl in *; try exact I.
  - discriminate.
  - discriminate.
  - unfold bounded, canonical_mantissa in Hv.
    apply andb_true_iff in Hv. destruct Hv as [Hc _].
    apply Z.eqb_eq in Hc. rewrite fexp_eq in Hc.
    unfold F32.leb, SFleb, SFcompare, F32.one in Hle.
    destruct (Z.compare_spec e (-23)) as [E|E|E]; [lia | lia | discriminate].
Qed.

(** *** Values computed exactly *)

Lemma round_canonical s m e :
  Z.pos (digits2_pos m) = 24 -> -149 <= e <= 104 ->
  binary_round_aux F32.prec F32.emax s (Z.pos m) e loc_Exact = S754_finite s m e.
Proof.
  intros Hd He. unfold binary_round_aux, shr_fexp.
  simpl Zdigits2. rewrite Hd.
  rewrite fexp_normal by lia.
  replace (24 + e - 24 - e) with 0 by lia.
  simpl. rewrite Hd. rewrite fexp_normal by lia.
  replace (24 + e - 24 - e) with 0 by lia. simpl.
  change (F32.emax - F32.prec) with 104.
  replace (e <=? 104) with true by (symmetry; apply Z.leb_le; lia).
  reflexivity.
Qed.

(** An integer below [2^24] converts to a normal number of the same
    value. *)
Lemma of_size_small n :
  0 < n < 2 ^ 24 ->
  exists m e, F32.of_size n = S754_finite false m e /\
              Z.pos (digits2_pos m) = 24 /\ -23 <= e <= 0 /\
              Z.pos m = n * 2 ^ (- e).
Proof.
  intros Hn. destruct n as [|p|p]; try lia.
  unfold F32.of_size, binary_normalize, binary_round.
  pose proof (digits2_pos_bounds p) as B.
  assert (Hd : 1 <= Z.pos (digits2_pos p) <= 24).
  { split; [lia |]. destruct (Z_lt_le_dec 24 (Z.pos (digits2_pos p))); [| lia].
    assert (2 ^ 24 <= 2 ^ (Z.pos (digits2_pos p) - 1))
      by (apply Z.pow_le_mono_r; lia).
    lia. }
  rewrite Z.add_0_r, fexp_normal by lia.
  unfold shl_align. rewrite Z.sub_0_r.
  destruct (Z.pos (digits2_pos p) - 24) as [|k|k] eqn:E; try lia.
  - exists p, 0. rewrite round_canonical by lia. repeat split; try lia.
  - exists (Pos.iter xO p k), (Z.neg k).
    assert (Hv : Z.pos (Pos.iter xO p k) = Z.pos p * 2 ^ Z.pos k)
      by apply iter_xO_value.
    assert (Hdk : Z.pos (digits2_pos (Pos.iter xO p k)) = 24).
    { apply digits2_pos_unique. rewrite Hv.
      replace 24 with (Z.pos (digits2_pos p) + Z.pos k) by lia.
      replace (Z.pos (digits2_pos p) + Z.pos k - 1)
        with (Z.pos (digits2_pos p) - 1 + Z.pos k) by lia.
      rewrite !Z.pow_add_r by lia.
      assert (0 < 2 ^ Z.pos k) by (apply Z.pow_pos_nonneg; lia). nia. }
    rewrite round_canonical by lia. repeat split; try lia.
    rewrite Hv. reflexivity.
Qed.

Lemma mul_one_exact s m e :
  Z.pos (digits2_pos m) = 24 -> -149 <= e <= 104 ->
  (S754_finite s m e * F32.one)%f32 = S754_finite s m e.
Proof.
  intros Hd He. unfold F32.mul, F32.one, SFmul. rewrite xorb_false_r.
  unfold binary_round_aux.
  assert (E : shr_fexp F32.prec F32.emax (Z.pos (m * 8388608)) (e + -23) loc_Exact
              = ({| shr_m := Z.pos m; shr_r := false; shr_s := false |}, e)).
  { unfold shr_fexp.
    assert (D : Zdigits2 (Z.pos (m * 8388608)) = 47).
    { simpl. apply digits2_pos_unique. pose proof (digits2_pos_bounds m) as B.
      rewrite Hd in B. rewrite Pos2Z.inj_mul.
      change (2 ^ (24 - 1)) with 8388608 in B.
      change (2 ^ 24) with 16777216 in B.
      change (2 ^ (47 - 1)) with 70368744177664.
      change (2 ^ 47) with 140737488355328. lia. }
    rewrite D, fexp_normal by lia.
    replace (47 + (e + -23) - 24 - (e + -23)) with 23 by lia.
    rewrite Pos.mul_comm. unfold shr. f_equal. lia. }
  rewrite E. cbn [shr_m loc_of_shr_record shr_r shr_s round_nearest_even].
  unfold shr_fexp. simpl Zdigits2. rewrite Hd, fexp_normal by lia.
  replace (24 + e - 24 - e) with 0 by lia. simpl.
  change (F32.emax - F32.prec) with 104.
  replace (e <=? 104) with true by (symmetry; apply Z.leb_le; lia).
  reflexivity.
Qed.

Lemma to_size_small m e n :
  0 <= n < 2 ^ 24 -> -23 <= e <= 0 -> Z.pos m = n * 2 ^ (- e) ->
  F32.to_size (S754_finite false m e) = n.
Proof.
  intros Hn He Hv. unfold F32.to_size, F32.signed.
  assert (P : 0 < 2 ^ (- e)) by (apply Z.pow_pos_nonneg; lia).
  assert (W : wrap n = n)
    by (apply wrap_small; rewrite size_mod_eq; simpl in Hn; lia).
  destruct (0 <=? e) eqn:E.
  - apply Z.leb_le in E. replace e with 0 in * by lia. simpl in Hv.
    rewrite Hv. simpl (2 ^ 0). rewrite !Z.mul_1_r. exact W.
  - rewrite Hv, Z.quot_mul by lia. exact W.
Qed.

Lemma to_size_of_size n : 0 <= n < 2 ^ 24 -> F32.to_size (F32.of_size n) = n.
Proof.
  intros Hn. destruct (Z.eq_dec n 0) as [->|Hz]; [reflexivity |].
  destruct (of_size_small n ltac:(lia)) as (m & e & -> & Hd & He & Hv).
  now apply to_size_small.
Qed.

Lemma to_size_of_size_mul_one n :
  0 <= n < 2 ^ 24 -> F32.to_size (F32.of_size n * F32.one)%f32 = n.
Proof.
  intros Hn. destruct (Z.eq_dec n 0) as [->|Hz]; [reflexivity |].
  destruct (of_size_small n ltac:(lia)) as (m & e & -> & Hd & He & Hv).
  rewrite mul_one_exact by lia. now apply to_size_small.
Qed.

Lemma to_size_nonneg x : 0 <= F32.to_size x.
Proof. unfold F32.to_size. repeat case_match; try lia; apply wrap_range. Qed.

Lemma to_size_mul_zero (x : float) : F32.to_size (F32.of_size 0 * x)%f32 = 0.
Proof. destruct x; reflexivity. Qed.

Lemma of_size_integral n : 0 <= n < 2 ^ 24 -> integral (F32.of_size n).
Proof.
  intros Hn. destruct (Z.eq_dec n 0) as [->|Hz]; [exact I |].
  destruct (of_size_small n ltac:(lia)) as (m & e & -> & Hd & He & Hv).
  simpl. right. rewrite Hv. apply Z.mod_mul.
  assert (P : 0 < 2 ^ (- e)) by (apply Z.pow_pos_nonneg; lia). lia.
Qed.

Lemma floor_integral x : integral x -> F32.floor x = x.
Proof.
  destruct x as [s|s| |s m e]; simpl; try contradiction; auto.
  intros [H|H].
  - apply Z.leb_le in H. now rewrite H.
  - destruct (0 <=? e); [reflexivity |].
    apply Z.eqb_eq in H. now rewrite H.
Qed.

Lemma sub_self x : integral x -> (x - x)%f32 = F32.zero.
Proof.
  destruct x as [s|s| |s m e]; simpl; try contradiction; intros _.
  - now destruct s.
  - now rewrite Z.sub_diag.
Qed.

Lemma eqb_refl x :
  match x with S754_nan => False | _ => True end -> F32.eqb x x = true.
Proof.
  destruct x as [s|s| |s m e]; try contradiction; intros _;
    unfold F32.eqb, SFeqb; simpl.
  - reflexivity.
  - now destruct s.
  - destruct s; rewrite Z.compare_refl, Pos.compare_cont_refl; reflexivity.
Qed.

(** *** The interpolation polynomial at [t = 0] *)

Lemma mul_zero k x sz :
  below k x -> exists s, (x * S754_zero sz)%f32 = S754_zero s.
Proof. destruct x; simpl; try contradiction; eauto. Qed.

Lemma add_zeros s1 s2 : exists s, (S754_zero s1 + S754_zero s2)%f32 = S754_zero s.
Proof. destruct s1, s2; simpl; eauto. Qed.

Lemma below_two : below 2 F32.two.
Proof. simpl. lia. Qed.

Lemma below_three : below 2 F32.three.
Proof. simpl. lia. Qed.

Lemma below_five : below 3 F32.five.
Proof. simpl. lia. Qed.

Lemma CubicHermite_at_zero A B C D :
  below 64 A -> below 64 B -> below 64 C -> below 64 D ->
  match B with
  | S754_zero _ => is_zero (CubicHermite A B C D F32.zero)
  | _ => CubicHermite A B C D F32.zero = B
  end.
Proof.
  intros HA HB HC HD. unfold CubicHermite.
  set (a := (- A / F32.two + F32.three * B / F32.two - F32.three * C / F32.two
             + D / F32.two)%f32).
  set (b := (A - F32.five * B / F32.two + F32.two * C - D / F32.two)%f32).
  set (c := (- A / F32.two + C / F32.two)%f32).
  assert (H2 : forall k x, below k x -> -148 <= k <= 83 ->
                           below k (x / F32.two)%f32).
  { intros k x Hx Hk.
    eapply below_mono; [| apply (div_two_below k); [exact Hx | lia]]. lia. }
  assert (Hmul : forall k1 k2 k x y, below k1 x -> below k2 y ->
            k1 + k2 + 1 <= k -> -148 <= k <= 107 -> below k (x * y)%f32).
  { intros k1 k2 k x y Hx Hy H1 H3.
    eapply below_mono; [| apply (mul_below k1 k2); [exact Hx | exact Hy | lia]].
    lia. }
  assert (Hadd : forall k1 k2 k x y, below k1 x -> below k2 y ->
            Z.max k1 k2 + 2 <= k -> -148 <= k <= 107 -> below k (x + y)%f32).
  { intros k1 k2 k x y Hx Hy H1 H3.
    eapply below_mono; [| apply (add_below k1 k2); [exact Hx | exact Hy | lia]].
    lia. }
  assert (Hsub : forall k1 k2 k x y, below k1 x -> below k2 y ->
            Z.max k1 k2 + 2 <= k -> -148 <= k <= 107 -> below k (x - y)%f32).
  { intros k1 k2 k x y Hx Hy H1 H3.
    eapply below_mono; [| apply (sub_below k1 k2); [exact Hx | exact Hy | lia]].
    lia. }
  assert (HA2 : below 64 (- A / F32.two)%f32)
    by (apply H2; [now apply neg_below | lia]).
  assert (HC2 : below 64 (C / F32.two)%f32) by (apply H2; [assumption | lia]).
  assert (HD2 : below 64 (D / F32.two)%f32) by (apply H2; [assumption | lia]).
  assert (H3B : below 67 (F32.three * B / F32.two)%f32).
  { apply H2; [| lia]. apply (Hmul 2 64); auto using below_three; lia. }
  assert (H3C : below 67 (F32.three * C / F32.two)%f32).
  { apply H2; [| lia]. apply (Hmul 2 64); auto using below_three; lia. }
  assert (H5B : below 68 (F32.five * B / F32.two)%f32).
  { apply H2; [| lia]. apply (Hmul 3 64); auto using below_five; lia. }
  assert (H2C : below 67 (F32.two * C)%f32).
  { apply (Hmul 2 64); auto using below_two; lia. }
  assert (Ha : below 73 a).
  { unfold a. apply (Hadd 71 64); auto; try lia.
    apply (Hsub 69 67); auto; try lia.
    apply (Hadd 64 67); auto; lia. }
  assert (Hb : below 74 b).
  { unfold b. apply (Hsub 72 64); auto; try lia.
    apply (Hadd 70 67); auto; try lia.
    apply (Hsub 64 68); auto; lia. }
  assert (Hc : below 66 c).
  { unfold c. apply (Hadd 64 64); auto; lia. }
  unfold F32.zero.
  destruct (mul_zero _ a false Ha) as (s1 & ->).
  destruct (mul_zero _ b false Hb) as (s2 & ->).
  destruct (mul_zero _ c false Hc) as (s3 & ->).
  change (S754_zero s1 * S754_zero false * S754_zero false)%f32
    with (S754_zero (xorb (xorb s1 false) false)).
  change (S754_zero s2 * S754_zero false)%f32 with (S754_zero (xorb s2 false)).
  destruct (add_zeros (xorb (xorb s1 false) false) (xorb s2 false)) as (s4 & ->).
  destruct (add_zeros s4 s3) as (s5 & ->).
  destruct B as [sB|sB| |sB mB eB]; simpl in HB; try contradiction.
  - destruct (add_zeros s5 sB) as (s6 & ->). exact I.
  - reflexivity.
Qed.

End F32Facts.

(** ** The fractional sample reader *)

Lemma clamp_inside inputSize z :
  1 <= inputSize <= max_size ->
  inside inputSize (Z.min (wrap z) (wrap (inputSize - 1))).
Proof.
  intros H. rewrite max_size_eq in H.
  rewrite (wrap_small (inputSize - 1)) by (rewrite size_mod_eq; lia).
  pose proof (wrap_range z). unfold inside. lia.
Qed.

Lemma tapIndices_inside inputSize sampleFloat channel numChannels :
  1 <= inputSize <= max_size ->
  let '(iN, i0, i1, i2) := tapIndices inputSize sampleFloat channel numChannels in
  inside inputSize iN /\ inside inputSize i0 /\
  inside inputSize i1 /\ inside inputSize i2.
Proof.
  intros H. unfold tapIndices.
  repeat split; apply clamp_inside; exact H.
Qed.

(** The reader returns the polynomial of the four samples at its taps. *)
Lemma SampleChannelFractional_taps input sampleFloat channel numChannels :
  input <> [] -> vsize input <= max_size ->
  exists A B C D,
    let '(iN, i0, i1, i2) :=
      tapIndices (vsize input) sampleFloat channel numChannels in
    input !! Z.to_nat iN = Some A /\ input !! Z.to_nat i0 = Some B /\
    input !! Z.to_nat i1 = Some C /\ input !! Z.to_nat i2 = Some D /\
    SampleChannelFractional input sampleFloat channel numChannels =
      Done (CubicHermite A B C D (sampleFloat - F32.floor sampleFloat)%f32).
Proof.
  intros Hne Hmax. apply vsize_pos in Hne.
  pose proof (tapIndices_inside (vsize input) sampleFloat channel numChannels
                ltac:(lia)) as Hin.
  unfold SampleChannelFractional.
  destruct (tapIndices _ _ _ _) as [[[iN i0] i1] i2].
  destruct Hin as (HN & H0 & H1 & H2).
  destruct (vget_in_range input iN HN) as (A & EA & GA).
  destruct (vget_in_range input i0 H0) as (B & EB & GB).
  destruct (vget_in_range input i1 H1) as (C & EC & GC).
  destruct (vget_in_range input i2 H2) as (D & ED & GD).
  exists A, B, C, D. rewrite GA, GB, GC, GD. simpl. auto.
Qed.

Lemma SampleChannelFractional_defined input sampleFloat channel numChannels :
  input <> [] -> vsize input <= max_size ->
  exists x, SampleChannelFractional input sampleFloat channel numChannels = Done x.
Proof.
  intros Hne Hmax.
  destruct (SampleChannelFractional_taps input sampleFloat channel numChannels
              Hne Hmax) as (A & B & C & D & H).
  destruct (tapIndices _ _ _ _) as [[[iN i0] i1] i2].
  destruct H as (_ & _ & _ & _ & H). eauto.
Qed.

(** C5: on a non-empty buffer the fractional sample reader reads only
    slots [0 .. size-1], at every position (inside the buffer, at or
    beyond its end, or not a number at all): each of its four tap
    indices is clamped against the last slot, and the read is defined. *)
Theorem SampleChannelFractional_in_bounds
    (input : list float) (sampleFloat : float) (channel numChannels : Z) :
  input <> [] -> vsize input <= max_size ->
  (let '(iN, i0, i1, i2) :=
     tapIndices (vsize input) sampleFloat channel numChannels in
   inside (vsize input) iN /\ inside (vsize input) i0 /\
   inside (vsize input) i1 /\ inside (vsize input) i2) /\
  exists x, SampleChannelFractional input sampleFloat channel numChannels = Done x.
Proof.
  intros Hne Hmax. split.
  - apply tapIndices_inside. apply vsize_pos in Hne. lia.
  - now apply SampleChannelFractional_defined.
Qed.

Lemma SampleChannelFractional_in_bounds_witness :
  exists x,
    SampleChannelFractional [F32.one; F32.two] (F32.five + half)%f32 0 1 = Done x.
Proof.
  apply (SampleChannelFractional_in_bounds
           [F32.one; F32.two] (F32.five + half)%f32 0 1).
  - discriminate.
  - vm_compute. discriminate.
Defined.

(** *** The upper clamp is the last interleaved slot *)

(** Reading channel 0 of a stereo buffer at the last frame: the taps
    [i+1] and [i+2] are clamped to the last slot, a slot of channel 1. *)
Lemma stereo_last_frame_taps (frames : Z) (sampleFloat : float) :
  2 <= frames -> 2 * frames <= max_size ->
  F32.to_size sampleFloat = frames - 1 ->
  tapIndices (2 * frames) sampleFloat 0 2 =
    (2 * frames - 4, 2 * frames - 2, 2 * frames - 1, 2 * frames - 1) /\
  channelOf 2 (2 * frames - 1) = 1.
Proof.
  intros Hf Hmax Hs. rewrite max_size_eq in Hmax.
  unfold tapIndices. rewrite Hs.
  destruct (0 <? frames - 1) eqn:E; [| apply Z.ltb_ge in E; lia].
  unwrap. split.
  - repeat f_equal; lia.
  - unfold channelOf. replace (2 * frames - 1) with (1 + (frames - 1) * 2) by lia.
    now rewrite Z.mod_add.
Qed.

(** C10: there are two stereo buffers that differ only in the last
    sample of channel 1, and a position in the last frame, at which the
    fractional sample reader returns different values for channel 0:
    the taps beyond the end are clamped to the last interleaved slot,
    which belongs to channel 1. *)
Theorem clamped_taps_cross_channels :
  exists (input input' : list float) (sampleFloat : float),
    vsize input = 4 /\ vsize input' = 4 /\
    (forall i, i <> 3%nat -> input !! i = input' !! i) /\
    channelOf 2 3 = 1 /\
    tapIndices 4 sampleFloat 0 2 = (0, 2, 3, 3) /\
    SampleChannelFractional input sampleFloat 0 2 <>
    SampleChannelFractional input' sampleFloat 0 2.
Proof.
  exists stereoA, stereoB, onePointFive.
  repeat split.
  - intros [|[|[|[|i]]]] Hi; try reflexivity. congruence.
  - vm_compute. discriminate.
Qed.

(** *** Reading at an integer position *)

(** The tap [i] of channel [channel] is the slot of that channel in
    frame [i] when the frame exists. *)
Lemma tapIndices_frame inputSize sampleFloat channel numChannels :
  inputSize <= max_size -> 0 <= channel < numChannels ->
  F32.to_size sampleFloat < inputSize / numChannels ->
  exists iN i1 i2,
    tapIndices inputSize sampleFloat channel numChannels =
      (iN, F32.to_size sampleFloat * numChannels + channel, i1, i2) /\
    F32.to_size sampleFloat * numChannels + channel < inputSize.
Proof.
  intros Hmax Hch Hlt. rewrite max_size_eq in Hmax.
  pose proof (F32Facts.to_size_nonneg sampleFloat) as Hi.
  set (i := F32.to_size sampleFloat) in *.
  assert (Hin : i * numChannels + channel < inputSize).
  { pose proof (Z.mul_div_le inputSize numChannels ltac:(lia)). nia. }
  assert (E : Z.min (wrap (wrap (i * numChannels) + channel))
                    (wrap (inputSize - 1)) = i * numChannels + channel).
  { rewrite (wrap_small (i * numChannels)) by (rewrite size_mod_eq; nia).
    rewrite (wrap_small (i * numChannels + channel)) by (rewrite size_mod_eq; nia).
    rewrite (wrap_small (inputSize - 1)) by (rewrite size_mod_eq; nia).
    lia. }
  unfold tapIndices. fold i. rewrite E.
  eexists _, _, _. split; [reflexivity | exact Hin].
Qed.

(** C6 (as amended): on a buffer whose samples are finite and smaller
    than [2^64] in magnitude (as the normalized samples of an audio
    buffer are, by [F32Facts.normalized_below]), the fractional sample
    reader at a position that is an integer [i] (a frame of the buffer)
    returns, for every channel, the sample stored at frame [i] of that
    channel: the result compares equal to the stored sample, and is the
    stored sample itself unless that is a zero (the polynomial may give
    [+0] for a stored [-0]). *)
Theorem read_at_integer_position
    (input : list float) (sampleFloat : float) (channel numChannels : Z) :
  Forall (below 64) input -> vsize input <= max_size ->
  0 <= channel < numChannels ->
  integral sampleFloat ->
  F32.to_size sampleFloat < perChannel input numChannels ->
  exists stored r,
    input !! Z.to_nat (F32.to_size sampleFloat * numChannels + channel)
      = Some stored /\
    SampleChannelFractional input sampleFloat channel numChannels = Done r /\
    F32.eqb r stored = true /\
    (~ is_zero stored -> r = stored).
Proof.
  intros Hnorm Hmax Hch Hint Hlt. unfold perChannel in Hlt.
  pose proof (F32Facts.to_size_nonneg sampleFloat) as Hi.
  assert (Hne : input <> []).
  { intros ->. change (vsize (@nil float)) with 0 in Hlt.
    rewrite Zdiv_0_l in Hlt. lia. }
  destruct (SampleChannelFractional_taps input sampleFloat channel numChannels
              Hne Hmax) as (A & B & C & D & H).
  destruct (tapIndices_frame (vsize input) sampleFloat channel numChannels
              Hmax Hch Hlt) as (iN & i1 & i2 & E & _).
  rewrite E in H. destruct H as (HA & HB & HC & HD & Hrun).
  assert (Hb : forall i x, input !! i = Some x -> below 64 x).
  { intros i x Hx. exact (Forall_lookup_1 _ _ _ _ Hnorm Hx). }
  rewrite F32Facts.floor_integral, F32Facts.sub_self in Hrun by exact Hint.
  pose proof (F32Facts.CubicHermite_at_zero A B C D
                (Hb _ _ HA) (Hb _ _ HB) (Hb _ _ HC) (Hb _ _ HD)) as Hz.
  exists B, (CubicHermite A B C D F32.zero).
  split; [exact HB |]. split; [exact Hrun |].
  pose proof (Hb _ _ HB) as HbB.
  destruct B as [sB|sB| |sB mB eB]; simpl in HbB; try contradiction.
  - split; [| intros Hnz; now destruct Hnz].
    destruct (CubicHermite A (S754_zero sB) C D F32.zero);
      simpl in Hz; try contradiction. reflexivity.
  - rewrite Hz. split; [now apply F32Facts.eqb_refl | reflexivity].
Qed.

Lemma read_at_integer_position_witness :
  exists stored r,
    [half; F32.one; F32.zero] !! 1%nat = Some stored /\
    SampleChannelFractional [half; F32.one; F32.zero] F32.one 0 1 = Done r /\
    F32.eqb r stored = true /\
    (~ is_zero stored -> r = stored).
Proof.
  apply (read_at_integer_position [half; F32.one; F32.zero] F32.one 0 1).
  - repeat constructor; simpl; lia.
  - vm_compute. discriminate.
  - lia.
  - right. reflexivity.
  - reflexivity.
Defined.

(** The position [float(i)] of a frame [i] below [2^24] is such an
    integer position: binary32 represents [i] exactly. *)
Lemma frame_position (i : Z) :
  0 <= i < 2 ^ 24 ->
  integral (F32.of_size i) /\ F32.to_size (F32.of_size i) = i.
Proof.
  intros Hi. split.
  - now apply F32Facts.of_size_integral.
  - now apply F32Facts.to_size_of_size.
Qed.

(** The bound on the samples is needed: next to an infinite sample the
    coefficients of the polynomial are infinite, and their product with
    [t = 0] is not a number. *)
Lemma read_next_to_infinity :
  SampleChannelFractional [S754_infinity false; F32.one; F32.zero] F32.one 0 1
  = Done S754_nan.
Proof. vm_compute. reflexivity. Qed.

(** Inside a buffer of normalized samples the stored sample is not
    always returned bit for bit either: a stored [-0.0f] is read as
    [+0.0f]. *)
Lemma read_negative_zero :
  SampleChannelFractional [S754_zero true] F32.zero 0 1 = Done (S754_zero false).
Proof. vm_compute. reflexivity. Qed.

(** C6 as stated fails: the claim is made for every buffer and for the
    stored sample exactly, and at frame 1 of the mono buffer
    [+inf, 1.0, 0.0] the reader returns a NaN, not the stored [1.0]. *)
Lemma read_at_integer_position_not_exact :
  ~ (forall (input : list float) (sampleFloat : float) (channel numChannels : Z),
       vsize input <= max_size -> 0 <= channel < numChannels ->
       integral sampleFloat ->
       F32.to_size sampleFloat < perChannel input numChannels ->
       exists stored,
         input !! Z.to_nat (F32.to_size sampleFloat * numChannels + channel)
           = Some stored /\
         SampleChannelFractional input sampleFloat channel numChannels
         = Done stored).
Proof.
  intros H.
  destruct (H [S754_infinity false; F32.one; F32.zero] F32.one 0 1)
    as (stored & Hstored & Hread).
  - vm_compute. discriminate.
  - lia.
  - right. reflexivity.
  - reflexivity.
  - vm_compute in Hstored, Hread. congruence.
Qed.

(** ** Resample *)

(** The output has [truncatedLength] frames, and in frame [k] the sample
    of each channel is the value of the reader at the source position
    of that frame. *)
Lemma TimeAdjust_filled (input output : list float) (numChannels : Z)
    (timeMultiplier : float) :
  1 <= numChannels -> vsize input <= max_size ->
  truncatedLength input numChannels timeMultiplier * numChannels <= max_size ->
  exists out,
    TimeAdjust input output numChannels timeMultiplier = Done out /\
    vsize out = truncatedLength input numChannels timeMultiplier * numChannels /\
    forall k channel,
      0 <= k < truncatedLength input numChannels timeMultiplier ->
      0 <= channel < numChannels ->
      vget out (k * numChannels + channel) =
      SampleChannelFractional input
        (resamplePosition (perChannel input numChannels)
           (truncatedLength input numChannels timeMultiplier) k)
        channel numChannels.
Proof.
  intros channels_pos input_fits output_fits. unfold TimeAdjust.
  destruct (numChannels =? 0) eqn:E; [apply Z.eqb_eq in E; lia |].
  fold (perChannel input numChannels).
  fold (truncatedLength input numChannels timeMultiplier).
  set (numSrcSamples := perChannel input numChannels).
  assert (Hzero : input = [] ->
            truncatedLength input numChannels timeMultiplier = 0).
  { intros ->. unfold truncatedLength, perChannel.
    change (vsize (@nil float)) with 0.
    now rewrite Zdiv_0_l, F32Facts.to_size_mul_zero. }
  set (numOutSamples := truncatedLength input numChannels timeMultiplier) in *.
  assert (Hno : 0 <= numOutSamples) by apply F32Facts.to_size_nonneg.
  pose proof output_fits as Hfit. rewrite max_size_eq in Hfit.
  rewrite (wrap_small (numOutSamples * numChannels)) by (rewrite size_mod_eq; nia).
  set (out0 := resize _ _ _).
  assert (Hlen : vsize out0 = numOutSamples * numChannels).
  { unfold out0, vsize. rewrite length_resize. nia. }
  assert (Hne : 0 < numOutSamples -> input <> []).
  { intros Hpos Hnil. apply Hzero in Hnil. lia. }
  set (pos := resamplePosition numSrcSamples numOutSamples).
  set (filled := fun (o : list float) k channel =>
         vget o (k * numChannels + channel) =
         SampleChannelFractional input (pos k) channel numChannels).
  destruct (for_range_inv
              (fun j o => vsize o = numOutSamples * numChannels /\
                 forall k channel, 0 <= k < j -> 0 <= channel < numChannels ->
                                   filled o k channel)
              (fun outSample o =>
                 for_range (Z.to_nat numChannels) 0 (fun channel o =>
                   x ← SampleChannelFractional input (pos outSample)
                         channel numChannels;
                   vset o (wrap (wrap (outSample * numChannels) + channel)) x) o)
              (Z.to_nat numOutSamples) 0 out0) as (out & Hrun & Hsz & Hall).
  - split; [exact Hlen | intros; lia].
  - intros j o Hj [Ho Hprev].
    destruct (for_range_inv
                (fun c o => vsize o = numOutSamples * numChannels /\
                   (forall k channel, 0 <= k < j -> 0 <= channel < numChannels ->
                                      filled o k channel) /\
                   forall channel, 0 <= channel < c -> filled o j channel)
                (fun channel o =>
                   x ← SampleChannelFractional input (pos j) channel numChannels;
                   vset o (wrap (wrap (j * numChannels) + channel)) x)
                (Z.to_nat numChannels) 0 o) as (o' & Ho' & Hsz' & Hprev' & Hcur).
    + split; [exact Ho |]. split; [exact Hprev | intros; lia].
    + intros c t Hc (Ht & Htprev & Htcur).
      destruct (SampleChannelFractional_defined input (pos j) c numChannels)
        as (x & Hx); [apply Hne; lia | exact input_fits |].
      rewrite Hx. simpl.
      assert (Hidx : wrap (wrap (j * numChannels) + c) = j * numChannels + c).
      { rewrite (wrap_small (j * numChannels)) by (rewrite size_mod_eq; nia).
        apply wrap_small. rewrite size_mod_eq. nia. }
      rewrite Hidx, vset_in_range by nia.
      eexists. split; [reflexivity |].
      split; [now rewrite vsize_insert |]. split.
      * intros k channel Hk Hch. unfold filled.
        rewrite vget_insert_ne by nia. now apply Htprev.
      * intros channel Hch. unfold filled.
        destruct (Z.eq_dec channel c) as [->|Hneq].
        -- rewrite vget_insert_eq by nia. now rewrite Hx.
        -- rewrite vget_insert_ne by nia. apply Htcur. lia.
    + exists o'. split; [exact Ho' |]. split; [exact Hsz' |].
      intros k channel Hk Hch.
      destruct (Z.eq_dec k j) as [->|Hneq].
      * apply Hcur. lia.
      * apply Hprev'; lia.
  - exists out. split; [exact Hrun |]. split; [exact Hsz |].
    intros k channel Hk Hch. apply Hall; lia.
Qed.

(** A rounded result has the sign it was given. *)
Lemma round_sign (s : bool) (m e : Z) (l : location) :
  match binary_round_aux F32.prec F32.emax s m e l with
  | S754_zero s' | S754_infinity s' | S754_finite s' _ _ => s' = s
  | S754_nan => True
  end.
Proof.
  unfold binary_round_aux.
  destruct (shr_fexp F32.prec F32.emax m e l) as [mrs e'].
  destruct (shr_fexp F32.prec F32.emax _ e' loc_Exact) as [mrs' e''].
  destruct (shr_m mrs') as [|q|q]; [reflexivity | | exact I].
  destruct (e'' <=? F32.emax - F32.prec); reflexivity.
Qed.

Lemma of_size_sign (n : Z) :
  0 <= n ->
  match F32.of_size n with
  | S754_zero s | S754_infinity s | S754_finite s _ _ => s = false
  | S754_nan => True
  end.
Proof.
  intros Hn. destruct n as [|q|q]; [reflexivity | | lia].
  unfold F32.of_size, binary_normalize, binary_round.
  destruct (shl_align q 0 _) as [mz ez].
  apply round_sign.
Qed.

(** On a value that is not negative and is below [2^64] the conversion
    to [size_t] is the integer part. *)
Lemma to_size_trunc (m : positive) (e : Z) :
  below 64 (S754_finite false m e) ->
  F32.to_size (S754_finite false m e) = F64.trunc (S754_finite false m e).
Proof.
  cbn [below]. intros Hb. unfold F32.to_size, F64.trunc, F32.signed.
  pose proof (F32Facts.digits2_pos_bounds m) as [_ Hm].
  set (d := Z.pos (digits2_pos m)) in *.
  assert (Hd : 0 < d) by (unfold d; lia).
  destruct (0 <=? e) eqn:E.
  - apply Z.leb_le in E. apply wrap_small. rewrite size_mod_eq.
    assert (P : 0 < 2 ^ e) by (apply Z.pow_pos_nonneg; lia).
    split; [lia |].
    apply Z.lt_le_trans with (2 ^ d * 2 ^ e); [nia |].
    rewrite <- Z.pow_add_r by lia.
    change 18446744073709551616 with (2 ^ 64).
    apply Z.pow_le_mono_r; lia.
  - apply Z.leb_gt in E. apply wrap_small. rewrite size_mod_eq.
    assert (P : 0 < 2 ^ (- e)) by (apply Z.pow_pos_nonneg; lia).
    rewrite Z.quot_div_nonneg by lia.
    split; [apply Z.div_pos; lia |].
    destruct (Z.le_gt_cases 0 (d + e)) as [Hge | Hlt].
    + apply Z.div_lt_upper_bound; [lia |].
      apply Z.lt_le_trans with (2 ^ d); [exact Hm |].
      replace d with (- e + (d + e)) at 1 by lia.
      rewrite Z.pow_add_r by lia.
      apply Z.mul_le_mono_nonneg_l; [lia |].
      change 18446744073709551616 with (2 ^ 64).
      apply Z.pow_le_mono_r; lia.
    + rewrite Z.div_small; [lia |]. split; [lia |].
      apply Z.lt_le_trans with (2 ^ d); [exact Hm |].
      apply Z.pow_le_mono_r; lia.
Qed.

(** The product of an unsigned length and a multiplier above zero: when
    it is below [2^64], its conversion to [size_t] is defined and is its
    integer part. *)
Lemma to_size_product (n : Z) (t : float) :
  0 <= n -> F32.ltb F32.zero t = true ->
  below 64 (F32.of_size n * t)%f32 ->
  F32.to_size (F32.of_size n * t)%f32 = F64.trunc (F32.of_size n * t)%f32.
Proof.
  intros Hn Ht. pose proof (of_size_sign n Hn) as Hs.
  destruct (F32.of_size n) as [s|s| |s m e]; try subst s.
  - destruct t as [s'|s'| |s' m' e']; intros Hb; try contradiction; reflexivity.
  - destruct t as [s'|s'| |s' m' e']; intros Hb; contradiction.
  - intros Hb; contradiction.
  - destruct t as [[|]|[|]| |[|] m' e']; try discriminate;
      intros Hb; try contradiction.
    unfold F32.mul, SFmul in *. cbn [xorb] in *.
    pose proof (round_sign false (Z.pos (m * m')) (e + e') loc_Exact) as Hr.
    destruct (binary_round_aux F32.prec F32.emax false (Z.pos (m * m'))
                (e + e') loc_Exact) as [s|s| |s m'' e''];
      try contradiction; [reflexivity |].
    subst s. now apply to_size_trunc.
Qed.

(** C2 (as amended): for a time multiplier above zero whose product
    with the per-channel input length is below [2^64], so that its
    conversion to [size_t] is defined, the per-channel length of the
    resampled buffer is that product, computed in binary32 and
    truncated toward zero. *)
Theorem TimeAdjust_length_truncates (input output : list float)
    (numChannels : Z) (timeMultiplier : float) :
  1 <= numChannels -> vsize input <= max_size ->
  F32.ltb F32.zero timeMultiplier = true ->
  below 64 (F32.of_size (perChannel input numChannels) * timeMultiplier)%f32 ->
  truncatedLength input numChannels timeMultiplier * numChannels <= max_size ->
  exists out,
    TimeAdjust input output numChannels timeMultiplier = Done out /\
    perChannel out numChannels = truncatedLength input numChannels timeMultiplier /\
    truncatedLength input numChannels timeMultiplier
    = F64.trunc (F32.of_size (perChannel input numChannels) * timeMultiplier)%f32.
Proof.
  intros Hc Hin Hpos Hfits Hout.
  destruct (TimeAdjust_filled input output numChannels timeMultiplier Hc Hin Hout)
    as (out & Hrun & Hlen & _).
  exists out. split; [exact Hrun |]. split.
  - unfold perChannel. rewrite Hlen. apply Z.div_mul. lia.
  - unfold truncatedLength. apply to_size_product; [| exact Hpos | exact Hfits].
    unfold perChannel. apply Z.div_pos; [apply vsize_nonneg | lia].
Qed.

Lemma TimeAdjust_length_truncates_witness :
  exists out,
    TimeAdjust (replicate 5 F32.one) [] 1 threeQuarters = Done out /\
    perChannel out 1 = 3 /\
    3 = F64.trunc (F32.of_size 5 * threeQuarters)%f32.
Proof.
  apply (TimeAdjust_length_truncates (replicate 5 F32.one) [] 1 threeQuarters).
  - lia.
  - vm_compute. discriminate.
  - reflexivity.
  - vm_compute. discriminate.
  - vm_compute. discriminate.
Defined.

(** C2 as stated fails: five samples resampled by 0.75 give three
    samples, and the nearest integer to 3.75 is four. *)
Lemma TimeAdjust_length_not_rounded :
  ~ (forall out,
       TimeAdjust (replicate 5 F32.one) [] 1 threeQuarters = Done out ->
       perChannel out 1 = roundedLength (replicate 5 F32.one) 1 threeQuarters).
Proof.
  intros H.
  specialize (H (replicate 3 F32.one) ltac:(vm_compute; reflexivity)).
  vm_compute in H. discriminate.
Qed.

(** C3 (as amended): with the multiplier 1.0 and an input of [N] frames,
    [2 <= N < 2^24], whose length is a multiple of the channel count,
    the resampled buffer has the length of the input, and its frame [k]
    holds for each channel the value of the reader at the source
    position [N * (k / (N - 1))], computed in binary32. *)
Theorem TimeAdjust_unit_multiplier (input output : list float)
    (numChannels : Z) :
  1 <= numChannels -> vsize input <= max_size ->
  vsize input mod numChannels = 0 ->
  2 <= perChannel input numChannels < 2 ^ 24 ->
  exists out,
    TimeAdjust input output numChannels F32.one = Done out /\
    vsize out = vsize input /\
    forall k channel,
      0 <= k < perChannel input numChannels -> 0 <= channel < numChannels ->
      vget out (k * numChannels + channel) =
      SampleChannelFractional input
        (F32.of_size (perChannel input numChannels)
         * (F32.of_size k / F32.of_size (perChannel input numChannels - 1)))%f32
        channel numChannels.
Proof.
  intros Hc Hin Hmod HN.
  assert (Hlen : truncatedLength input numChannels F32.one
                 = perChannel input numChannels).
  { unfold truncatedLength. apply F32Facts.to_size_of_size_mul_one. lia. }
  assert (Hexact : perChannel input numChannels * numChannels = vsize input).
  { unfold perChannel. rewrite Z.mul_comm. symmetry.
    apply Z.div_exact; lia. }
  destruct (TimeAdjust_filled input output numChannels F32.one Hc Hin)
    as (out & Hrun & Hsz & Hall).
  { rewrite Hlen, Hexact. exact Hin. }
  rewrite Hlen in Hsz, Hall.
  exists out. split; [exact Hrun |]. split; [lia |].
  intros k channel Hk Hch. rewrite (Hall k channel Hk Hch).
  unfold resamplePosition.
  rewrite (wrap_small (perChannel input numChannels - 1))
    by (rewrite size_mod_eq; simpl in HN; lia).
  reflexivity.
Qed.

Lemma TimeAdjust_unit_multiplier_witness :
  exists out,
    TimeAdjust spike [] 1 F32.one = Done out /\ vsize out = 3 /\
    vget out 1 = SampleChannelFractional spike onePointFive 0 1.
Proof.
  destruct (TimeAdjust_unit_multiplier spike [] 1) as (out & Hrun & Hsz & Hall).
  - lia.
  - vm_compute. discriminate.
  - reflexivity.
  - vm_compute. split; [discriminate | reflexivity].
  - exists out. split; [exact Hrun |]. split; [exact Hsz |].
    exact (Hall 1 0 ltac:(vm_compute; split; [discriminate | reflexivity])
             ltac:(lia)).
Defined.

(** The bound [2^24] on the frames is needed: a longer input whose
    frame count binary32 does not represent comes out shorter. *)
Lemma TimeAdjust_long_input :
  truncatedLength (replicate (Z.to_nat (2 ^ 24 + 1)) F32.zero) 1 F32.one
  = 2 ^ 24.
Proof.
  unfold truncatedLength, perChannel, vsize.
  rewrite length_replicate, Z2Nat.id by lia.
  vm_compute. reflexivity.
Qed.

(** C3 as stated fails: the middle frame of [spike] is read at position
    1.5 and comes out as 0.5625, not as the stored 1.0. *)
Lemma TimeAdjust_unit_multiplier_not_identity :
  vsize spike mod 1 = 0 /\ 2 <= perChannel spike 1 /\
  resamplePosition 3 3 1 = onePointFive /\
  ~ resample_identity spike 1.
Proof.
  split; [reflexivity |].
  split; [vm_compute; discriminate |].
  split; [vm_compute; reflexivity |].
  intros (out & Hrun & Hnear).
  assert (E : TimeAdjust spike [] 1 F32.one
              = Done [F32.zero; S754_finite false 9437184 (-24); F32.zero])
    by (vm_compute; reflexivity).
  rewrite E in Hrun. injection Hrun as <-.
  inversion Hnear as [|x y l l' _ Htail]; subst.
  inversion Htail as [|x' y' l2 l2' Hmid _]; subst.
  vm_compute in Hmid. discriminate.
Qed.

(** ** The grain writer *)

(** *** The writes stay inside the output *)

Section SplatBounds.

Variable input : list float.
Variable numChannels : Z.
Hypothesis input_nonempty : input <> [].
Hypothesis input_fits : vsize input <= max_size.
Hypothesis channels_range : 1 <= numChannels < 65536.

(** The inner loop over the channels of one frame. *)
Lemma frame_write (out : list float) (outputIndex : Z) (pos envelope : float) :
  vsize out <= max_size -> 0 <= outputIndex ->
  outputIndex + numChannels <= vsize out ->
  exists out',
    for_range (Z.to_nat numChannels) 0 (fun channel output =>
      x ← SampleChannelFractional input pos channel numChannels;
      old ← vget output (wrap (outputIndex + channel));
      vset output (wrap (outputIndex + channel)) (old + x * envelope)%f32) out
    = Done out' /\ length out' = length out.
Proof.
  intros Hfit Hidx Hroom.
  destruct (for_range_inv (fun _ o => length o = length out)
              (fun channel output =>
                 x ← SampleChannelFractional input pos channel numChannels;
                 old ← vget output (wrap (outputIndex + channel));
                 vset output (wrap (outputIndex + channel)) (old + x * envelope)%f32)
              (Z.to_nat numChannels) 0 out eq_refl) as (out' & Hrun & Hlen).
  - intros ch o Hch Ho.
    destruct (SampleChannelFractional_defined input pos ch numChannels
                input_nonempty input_fits) as (x & ->).
    simpl. rewrite max_size_eq in Hfit.
    assert (Hin : 0 <= outputIndex + ch < vsize o).
    { unfold vsize in *. rewrite Ho. lia. }
    rewrite (wrap_small (outputIndex + ch))
      by (unfold vsize in *; rewrite size_mod_eq; lia).
    destruct (vget_in_range o _ Hin) as (old & _ & ->). simpl.
    rewrite vset_in_range by exact Hin.
    eexists. split; [reflexivity |]. now rewrite length_insert.
  - eauto.
Qed.

Lemma SplatLoop_bounds grainStart grainSize crossFade crossFadeSize
    pitchMultiplier (outputSampleIndex : Z) :
  0 <= outputSampleIndex ->
  forall fuel out outputIndex sample numSamplesWritten,
    vsize out <= max_size -> 0 <= numSamplesWritten ->
    outputIndex = (outputSampleIndex + numSamplesWritten) * numChannels ->
    outputIndex <= vsize out ->
    vsize out < outputIndex + (Z.of_nat fuel + 1) * numChannels ->
    exists out' n,
      SplatLoop fuel input numChannels grainStart grainSize crossFade
        crossFadeSize pitchMultiplier out outputIndex sample numSamplesWritten
      = Done (out', n) /\
      length out' = length out /\ numSamplesWritten <= n /\
      (outputSampleIndex + n) * numChannels <= vsize out.
Proof.
  intros Hoff fuel.
  induction fuel as [|fuel IH];
    intros out outputIndex sample n Hfit Hn Hidx Hle Hfuel;
    pose proof Hfit as Hfit'; rewrite max_size_eq in Hfit'; simpl.
  - destruct (negb _); [exists out, n; subst; auto with lia |].
    destruct (vsize out <? wrap (outputIndex + numChannels)) eqn:E;
      [exists out, n; subst; auto with lia |].
    apply Z.ltb_ge in E. revert E. unwrap. lia.
  - destruct (negb _); [exists out, n; subst; auto with lia |].
    destruct (vsize out <? wrap (outputIndex + numChannels)) eqn:E;
      [exists out, n; subst; auto with lia |].
    apply Z.ltb_ge in E. revert E. unwrap. intros E.
    destruct (vsize input <? _); [exists out, n; subst; auto with lia |].
    destruct (frame_write out outputIndex
                (F32.of_size grainStart + sample)%f32
                (grainEnvelope crossFade crossFadeSize sample)
                Hfit ltac:(nia) E) as (out1 & -> & Hlen1).
    simpl.
    assert (Hsz : vsize out1 = vsize out) by (unfold vsize; now rewrite Hlen1).
    destruct (IH out1 (outputIndex + numChannels)
                (sample + pitchMultiplier)%f32 (n + 1)) as (out' & n' & Hrun & H1 & H2 & H3);
      try (rewrite ?Hsz; lia).
    rewrite Hrun.
    exists out', n'. rewrite Hsz in H3. rewrite Hlen1 in H1. auto with lia.
Qed.

End SplatBounds.

(** C4: a call of the grain writer on a non-empty input, at an output
    offset that does not exceed the per-channel length of the output,
    is defined (no write falls outside the output), leaves the length
    of the output unchanged, and returns a count with
    [outputSampleIndex + count <= per-channel length], whatever the
    pitch multiplier, the grain and the cross fade are. *)
Theorem SplatGrainToOutput_within_output
    (fuel : nat) (p : Process) (input out : list float) (numChannels : Z)
    (grainStart grainSize outputSampleIndex : Z) (crossFade : ECrossFade)
    (crossFadeSize : Z) (pitchMultiplier : float) (isFinalGrain : bool) :
  input <> [] -> vsize input <= max_size -> vsize out <= max_size ->
  1 <= numChannels < 65536 ->
  0 <= outputSampleIndex <= perChannel out numChannels ->
  (length out <= fuel)%nat ->
  exists p' out' n,
    SplatGrainToOutput fuel p input out numChannels grainStart grainSize
      outputSampleIndex crossFade crossFadeSize pitchMultiplier isFinalGrain
    = Done (p', out', n) /\
    0 <= n /\ outputSampleIndex + n <= perChannel out numChannels /\
    length out' = length out.
Proof.
  intros Hne Hin Hout Hc Hoff Hfuel. unfold perChannel in *.
  assert (Hmul : outputSampleIndex * numChannels <= vsize out).
  { pose proof (Z.mul_div_le (vsize out) numChannels ltac:(lia)). nia. }
  pose proof Hout as Hout'. rewrite max_size_eq in Hout'.
  unfold SplatGrainToOutput. unwrap.
  destruct (SplatLoop_bounds input numChannels Hne Hin Hc grainStart grainSize
              crossFade crossFadeSize pitchMultiplier outputSampleIndex
              ltac:(lia) fuel out (outputSampleIndex * numChannels) F32.zero 0)
    as (out' & n & -> & Hlen & Hn & Hle); try lia.
  { unfold vsize in *. nia. }
  simpl. eexists _, out', n. split; [reflexivity |].
  repeat split; try lia.
  apply Z.div_le_lower_bound; lia.
Qed.

Lemma SplatGrainToOutput_within_output_witness :
  exists p' out' n,
    SplatGrainToOutput 3 startup (replicate 8 F32.one) (replicate 3 F32.zero) 1
      0 8 1 CrossFadeNone 0 half false = Done (p', out', n) /\
    0 <= n /\ 1 + n <= 3 /\ length out' = 3%nat.
Proof.
  apply (SplatGrainToOutput_within_output 3 startup (replicate 8 F32.one)
           (replicate 3 F32.zero) 1 0 8 1 CrossFadeNone 0 half false).
  - discriminate.
  - vm_compute. discriminate.
  - vm_compute. discriminate.
  - lia.
  - vm_compute. split; discriminate.
  - simpl. lia.
Defined.

(** *** The cross fade report *)

Lemma reportCrossFade_spec p isFinalGrain crossFadeSize n :
  let hit := negb isFinalGrain && (n <? crossFadeSize) in
  reportedError (reportCrossFade p isFinalGrain crossFadeSize n)
    = reportedError p || hit /\
  stdout (reportCrossFade p isFinalGrain crossFadeSize n)
    = stdout p ++ (if negb (reportedError p) && hit then [crossFadeMessage] else []).
Proof.
  unfold reportCrossFade.
  destruct (negb isFinalGrain && (n <? crossFadeSize)), (reportedError p) eqn:E;
    simpl; rewrite ?E, ?app_nil_r; auto.
Qed.

Lemma doCall_inv fuel p c p' out n :
  doCall fuel p c = Done (p', out, n) ->
  p' = reportCrossFade p (call_isFinalGrain c) (call_crossFadeSize c) n /\
  forall q, doCall fuel q c =
            Done (reportCrossFade q (call_isFinalGrain c) (call_crossFadeSize c) n,
                  out, n).
Proof.
  unfold doCall, SplatGrainToOutput.
  destruct (SplatLoop _ _ _ _ _ _ _ _ _ _ _ _) as [[o m]| |]; simpl; try discriminate.
  intros [= <- <- <-]. auto.
Qed.

Lemma runCalls_report fuel calls : forall p p' ns,
  runCalls fuel p calls = Done (p', ns) ->
  length ns = length calls /\
  reportedError p' = reportedError p || anyOffending calls ns /\
  stdout p' = stdout p ++
    (if negb (reportedError p) && anyOffending calls ns
     then [crossFadeMessage] else []) /\
  forall q, exists q', runCalls fuel q calls = Done (q', ns).
Proof.
  induction calls as [|c calls IH]; intros p p' ns; simpl.
  - intros [= <- <-]. rewrite orb_false_r, andb_false_r, app_nil_r. eauto.
  - destruct (doCall fuel p c) as [[[p1 o1] n1]| |] eqn:E1; simpl; try discriminate.
    destruct (runCalls fuel p1 calls) as [[p2 ns2]| |] eqn:E2; simpl; try discriminate.
    intros [= <- <-].
    destruct (doCall_inv _ _ _ _ _ _ E1) as (-> & Hq).
    destruct (IH _ _ _ E2) as (Hlen & Hflag & Hout & Hany).
    destruct (reportCrossFade_spec p (call_isFinalGrain c) (call_crossFadeSize c) n1)
      as (Hf1 & Ho1).
    fold (offending c n1) in Hf1, Ho1.
    repeat split.
    + simpl. now rewrite Hlen.
    + rewrite Hflag, Hf1. now rewrite orb_assoc.
    + rewrite Hout, Ho1, Hf1, <- app_assoc. f_equal.
      destruct (reportedError p), (offending c n1), (anyOffending calls ns2);
        reflexivity.
    + intros q. rewrite Hq. simpl.
      destruct (Hany (reportCrossFade q (call_isFinalGrain c) (call_crossFadeSize c) n1))
        as (q' & ->).
      simpl. eauto.
Qed.

(** C7: in a process that runs any sequence of grain writer calls to
    completion, the cross fade report is printed once if some call was
    for a grain that is not final and wrote fewer samples than the cross
    fade size, and is not printed otherwise, so it is printed at most
    once; and the samples written by the calls do not depend on whether
    the report has been made. *)
Theorem crossFade_report_at_most_once (fuel : nat) (calls : list SplatCall)
    (p : Process) (ns : list Z) :
  runCalls fuel startup calls = Done (p, ns) ->
  (length (stdout p) <= 1)%nat /\
  stdout p = (if anyOffending calls ns then [crossFadeMessage] else []) /\
  forall q, exists q', runCalls fuel q calls = Done (q', ns).
Proof.
  intros H. destruct (runCalls_report _ _ _ _ _ H) as (_ & _ & Hout & Hany).
  simpl in Hout. repeat split; [| exact Hout | exact Hany].
  rewrite Hout. destruct (anyOffending calls ns); simpl; lia.
Qed.

Lemma crossFade_report_at_most_once_witness :
  exists p,
    runCalls 4 startup [shortGrain false; shortGrain false; shortGrain true]
      = Done (p, [2; 2; 2]) /\
    stdout p = [crossFadeMessage].
Proof.
  eexists. split; [vm_compute; reflexivity |].
  apply (crossFade_report_at_most_once 4
           [shortGrain false; shortGrain false; shortGrain true] _ [2; 2; 2]).
  vm_compute. reflexivity.
Defined.

(** ** The engines *)

(** *** The splice *)




(** *** Fuel *)

Lemma fuel_mono_const {A} (r : outcome A) : fuel_mono (fun _ => r).
Proof. intros f f' _ _. reflexivity. Qed.

Lemma fuel_mono_bind {A B} (F : nat -> outcome A) (K : nat -> A -> outcome B) :
  fuel_mono F -> (forall a, fuel_mono (fun f => K f a)) ->
  fuel_mono (fun f => F f ≫= K f).
Proof.
  intros HF HK f f' Hle H.
  destruct (F f) as [a| |] eqn:E; simpl in H; try congruence.
  - rewrite (HF f f' Hle) by congruence. rewrite E. simpl. now apply HK.
  - rewrite (HF f f' Hle) by congruence. now rewrite E.
Qed.

Lemma fuel_mono_for_range {St} (body : nat -> Z -> St -> outcome St) :
  (forall i s, fuel_mono (fun f => body f i s)) ->
  forall count i s, fuel_mono (fun f => for_range count i (body f) s).
Proof.
  intros Hbody. induction count as [|count IH]; intros i s; simpl.
  - apply fuel_mono_const.
  - apply (fuel_mono_bind (fun f => body f i s)
             (fun f s' => for_range count (i + 1) (body f) s')); auto.
Qed.

Lemma fuel_mono_SplatLoop input numChannels grainStart grainSize crossFade
    crossFadeSize pitchMultiplier : forall out outputIndex sample n,
  fuel_mono (fun f => SplatLoop f input numChannels grainStart grainSize
                        crossFade crossFadeSize pitchMultiplier out outputIndex
                        sample n).
Proof.
  intros out outputIndex sample n f. revert out outputIndex sample n.
  induction f as [|f IH]; intros out outputIndex sample n f' Hle H.
  - destruct f'; [reflexivity |]. simpl in *.
    repeat (destruct (_ : bool); [reflexivity |]). congruence.
  - destruct f' as [|f']; [lia |]. simpl in *.
    repeat (destruct (_ : bool); [reflexivity |]).
    destruct (for_range _ _ _ _); simpl in *; try reflexivity.
    apply IH; [lia | exact H].
Qed.

Lemma fuel_mono_SplatGrainToOutput p input out numChannels grainStart grainSize
    outputSampleIndex crossFade crossFadeSize pitchMultiplier isFinalGrain :
  fuel_mono (fun f => SplatGrainToOutput f p input out numChannels grainStart
                        grainSize outputSampleIndex crossFade crossFadeSize
                        pitchMultiplier isFinalGrain).
Proof.
  unfold SplatGrainToOutput.
  apply (fuel_mono_bind
           (fun f => SplatLoop f input numChannels grainStart grainSize crossFade
                       crossFadeSize pitchMultiplier out
                       (wrap (outputSampleIndex * numChannels)) F32.zero 0)
           (fun _ r => let '(output', n) := r in
                       Done (reportCrossFade p isFinalGrain crossFadeSize n, output', n))).
  - apply fuel_mono_SplatLoop.
  - intros a. apply fuel_mono_const.
Qed.

Lemma fuel_mono_GrainStep input numChannels grainSizeSamples crossFadeSizeSamples
    numGrains pitchMultiplier grain s :
  fuel_mono (fun f => GrainStep f input numChannels grainSizeSamples
                        crossFadeSizeSamples numGrains pitchMultiplier grain s).
Proof.
  unfold GrainStep. destruct (_ || _).
  - apply (fuel_mono_bind (fun f => SplatGrainToOutput f _ _ _ _ _ _ _ _ _ _ _)
             (fun _ r => let '(p, out, n) := r in Done _)).
    + apply fuel_mono_SplatGrainToOutput.
    + intros a. apply fuel_mono_const.
  - apply (fuel_mono_bind (fun f => SplatGrainToOutput f _ _ _ _ _ _ _ _ _ _ _)
             (fun f r => let '(p1, out1, _) := r in
                         SplatGrainToOutput f p1 input out1 _ _ _ _ _ _ _ _ ≫= _)).
    + apply fuel_mono_SplatGrainToOutput.
    + intros [[p1 out1] n1].
      apply (fuel_mono_bind (fun f => SplatGrainToOutput f _ _ _ _ _ _ _ _ _ _ _)
               (fun _ r => let '(p, out, n) := r in Done _)).
      * apply fuel_mono_SplatGrainToOutput.
      * intros a. apply fuel_mono_const.
Qed.

Lemma fuel_mono_GrainWhile (step : nat -> Engine -> outcome Engine) windowEnd :
  (forall s, fuel_mono (fun f => step f s)) ->
  forall f1 f1' f2 f2' s, (f1 <= f1')%nat -> (f2 <= f2')%nat ->
    GrainWhile f1 (step f2) windowEnd s <> OutOfFuel ->
    GrainWhile f1' (step f2') windowEnd s = GrainWhile f1 (step f2) windowEnd s.
Proof.
  intros Hstep. induction f1 as [|f1 IH]; intros f1' f2 f2' s H1 H2 H.
  - destruct f1'; [simpl in *; now destruct (_ <? _) |].
    simpl in *. destruct (_ <? _); [congruence | reflexivity].
  - destruct f1' as [|f1']; [lia |]. simpl in *.
    destruct (_ <? _); [| reflexivity].
    destruct (step f2 s) as [s'| |] eqn:E; simpl in H; try congruence.
    + rewrite (Hstep s f2 f2' H2) by congruence. rewrite E. simpl.
      apply IH; [lia | lia | exact H].
    + rewrite (Hstep s f2 f2' H2) by congruence. now rewrite E.
Qed.

Lemma fuel_mono_GrainWindow input numChannels grainSizeSamples
    crossFadeSizeSamples numGrains timeMultiplier pitchMultiplier grain s :
  fuel_mono (fun f => GrainWindow f input numChannels grainSizeSamples
                        crossFadeSizeSamples numGrains timeMultiplier
                        pitchMultiplier grain s).
Proof.
  intros f f' Hle H. unfold GrainWindow in *.
  apply (fuel_mono_GrainWhile
           (fun f => GrainStep f input numChannels grainSizeSamples
                       crossFadeSizeSamples numGrains pitchMultiplier grain));
    auto.
  intros s'. apply fuel_mono_GrainStep.
Qed.

Lemma fuel_mono_GranularTimePitchAdjust p input numChannels sampleRate
    timeMultiplier pitchMultiplier grainSizeSeconds crossFadeSeconds :
  fuel_mono (fun f => GranularTimePitchAdjust f p input numChannels sampleRate
                        timeMultiplier pitchMultiplier grainSizeSeconds
                        crossFadeSeconds).
Proof.
  unfold GranularTimePitchAdjust.
  destruct (numChannels =? 0); [apply fuel_mono_const |].
  destruct (_ =? 0); [apply fuel_mono_const |].
  apply (fuel_mono_bind (fun f => for_range _ 0 (GrainWindow f _ _ _ _ _ _ _) _)
           (fun _ s => Done (proc s, output s))).
  - apply (fuel_mono_for_range (fun f => GrainWindow f _ _ _ _ _ _ _)).
    intros i s. apply fuel_mono_GrainWindow.
  - intros a. apply fuel_mono_const.
Qed.

(** A state that the loop body maps to itself keeps the loop running. *)
Lemma GrainWhile_stuck (step : Engine -> outcome Engine) windowEnd s :
  step s = Done s -> outputSampleIndex s < windowEnd ->
  forall fuel, GrainWhile fuel step windowEnd s = OutOfFuel.
Proof.
  intros Hstep Hlt. apply Z.ltb_lt in Hlt.
  induction fuel as [|fuel IH]; simpl; rewrite Hlt; [reflexivity |].
  rewrite Hstep. simpl. exact IH.
Qed.

(** *** A run of the engine that does not terminate *)

Lemma short_setup fuel :
  GranularTimePitchAdjust fuel startup shortInput 1 10
    F32.one F32.one F32.one fifth =
  (s ← (s0 ← GrainWindow fuel shortInput 1 10 2 2 F32.one F32.one 0 shortStart;
        GrainWindow fuel shortInput 1 10 2 2 F32.one F32.one 1 s0);
   Done (proc s, output s)).
Proof.
  unfold GranularTimePitchAdjust.
  replace (F32.to_size (F32.of_size 10 * F32.one)%f32) with 10
    by (vm_compute; reflexivity).
  replace (F32.to_size (F32.of_size 10 * fifth)%f32) with 2
    by (vm_compute; reflexivity).
  replace (vsize shortInput / 1) with 15 by (vm_compute; reflexivity).
  replace (F32.to_size (F32.of_size 15 * F32.one)%f32) with 15
    by (vm_compute; reflexivity).
  change (grainCount 15 10) with 2.
  change (wrap (15 * 1)) with 15.
  simpl.
  destruct (GrainWindow fuel _ _ _ _ _ _ _ 0 _) as [s0| |]; try reflexivity.
  simpl. change (0 + 1) with 1.
  destruct (GrainWindow fuel _ _ _ _ _ _ _ 1 s0); reflexivity.
Qed.

Lemma short_grain0 fuel :
  (16 <= fuel)%nat ->
  GrainWindow fuel shortInput 1 10 2 2 F32.one F32.one 0 shortStart
  = Done shortAfterGrain0.
Proof.
  intros H.
  rewrite (fuel_mono_GrainWindow shortInput 1 10 2 2 F32.one F32.one 0 shortStart
             16%nat fuel H); vm_compute; [reflexivity | discriminate].
Qed.

Lemma short_grain1_first fuel :
  (16 <= fuel)%nat ->
  GrainStep fuel shortInput 1 10 2 2 F32.one 1 shortAfterGrain0 = Done shortFull.
Proof.
  intros H.
  rewrite (fuel_mono_GrainStep shortInput 1 10 2 2 F32.one 1 shortAfterGrain0
             16%nat fuel H); vm_compute; [reflexivity | discriminate].
Qed.

Lemma short_grain1_stuck fuel :
  GrainStep fuel shortInput 1 10 2 2 F32.one 1 shortFull = Done shortFull.
Proof.
  rewrite (fuel_mono_GrainStep shortInput 1 10 2 2 F32.one 1 shortFull
             0%nat fuel ltac:(lia)); vm_compute; [reflexivity | discriminate].
Qed.

Lemma short_grain1 fuel :
  (16 <= fuel)%nat ->
  GrainWindow fuel shortInput 1 10 2 2 F32.one F32.one 1 shortAfterGrain0
  = OutOfFuel.
Proof.
  intros H. unfold GrainWindow.
  replace (F32.to_size (F32.of_size (wrap (wrap (1 * 10) + 10)) * F32.one)%f32)
    with 20 by (vm_compute; reflexivity).
  destruct fuel as [|fuel']; [lia |].
  change (GrainWhile (S fuel') ?step 20 shortAfterGrain0)
    with (s' ← step shortAfterGrain0; GrainWhile fuel' step 20 s').
  rewrite short_grain1_first by exact H. simpl mbind.
  apply GrainWhile_stuck; [apply short_grain1_stuck | reflexivity].
Qed.

(** C1 fails on this input: whatever the fuel, the run is still inside
    the [while] loop of the last grain when the fuel is exhausted.  The
    window of the last grain ends at sample 20, the output has 15
    samples, and once it is full every write returns zero. *)
Theorem GranularTimePitchAdjust_diverges :
  forall fuel,
    GranularTimePitchAdjust fuel startup shortInput 1 10
      F32.one F32.one F32.one fifth = OutOfFuel.
Proof.
  assert (Hbig : forall fuel, (16 <= fuel)%nat ->
            GranularTimePitchAdjust fuel startup shortInput 1 10
              F32.one F32.one F32.one fifth = OutOfFuel).
  { intros fuel H. rewrite short_setup, short_grain0 by exact H.
    simpl. now rewrite short_grain1. }
  intros fuel.
  destruct (GranularTimePitchAdjust fuel startup shortInput 1 10
              F32.one F32.one F32.one fifth) as [r| |] eqn:E; [| | reflexivity].
  - pose proof (fuel_mono_GranularTimePitchAdjust startup shortInput 1 10
                  F32.one F32.one F32.one fifth fuel (fuel + 16)%nat
                  ltac:(lia)) as H.
    simpl in H. rewrite E, Hbig in H by lia. discriminate H. discriminate.
  - pose proof (fuel_mono_GranularTimePitchAdjust startup shortInput 1 10
                  F32.one F32.one F32.one fifth fuel (fuel + 16)%nat
                  ltac:(lia)) as H.
    simpl in H. rewrite E, Hbig in H by lia. discriminate H. discriminate.
Qed.

(** *** Length of the output of the dynamic engine *)

(** C9 at a stereo input of 15 frames with grains of 10 frames: the
    first pass clamps the end of the final grain against the interleaved
    length 30, not against the 15 frames of a channel, so the final
    grain counts 10 frames and 20 frames are allocated; the tiling of
    the specification gives 10 + 5. *)
Theorem dynamic_length_stereo :
  DynamicOutputSamples 30 10 (grainCount 15 10) unitSettings = Done 20 /\
  tiledOutputSamples 15 10 (grainCount 15 10) unitSettings = 15 /\
  exists p out,
    GranularTimePitchAdjustDynamic 16 startup (replicate 30 F32.one) 2 10
      F32.one fifth unitSettings = Done (p, out) /\
    perChannel out 2 = 20.
Proof.
  split; [vm_compute; reflexivity |].
  split; [vm_compute; reflexivity |].
  eexists _, _. split; vm_compute; reflexivity.
Qed.


(** For a mono input the first pass of the dynamic engine computes the
    sum of the specification, reduced to [size_t]: the clamp of the
    final grain against [input.size()] is then a clamp against the
    per-channel length. *)

Lemma for_range_ext {St : Type} (body body' : Z -> St -> outcome St) count :
  forall i s,
    (forall j t, i <= j < i + Z.of_nat count -> body j t = body' j t) ->
    for_range count i body s = for_range count i body' s.
Proof.
  induction count as [|count IH]; intros i s H; simpl; [reflexivity |].
  rewrite (H i s) by lia. destruct (body' i s); simpl; try reflexivity.
  apply IH. intros j t Hj. apply H. lia.
Qed.

Lemma wrap_add_l a b : wrap (wrap a + b) = wrap (a + b).
Proof. unfold wrap. apply Zplus_mod_idemp_l. Qed.

Lemma for_range_sum (f : Z -> Z) count : forall i a,
  for_range count i (fun j acc => Done (wrap (acc + f j))) a =
  Done (match count with
        | O => a
        | S _ => wrap (a + foldr (fun j s => f j + s) 0 (seqZ i (Z.of_nat count)))
        end).
Proof.
  induction count as [|count IH]; intros i a; [reflexivity |].
  change (for_range (S count) i (fun j acc => Done (wrap (acc + f j))) a)
    with (for_range count (i + 1) (fun j acc => Done (wrap (acc + f j)))
            (wrap (a + f i))).
  rewrite IH, (seqZ_cons i (Z.of_nat (S count))) by lia.
  replace (Z.pred (Z.of_nat (S count))) with (Z.of_nat count) by lia.
  replace (Z.succ i) with (i + 1) by lia. simpl foldr.
  destruct count as [|count]; f_equal.
  - simpl. f_equal. lia.
  - rewrite wrap_add_l. f_equal. lia.
Qed.

Lemma mono_grain_size (numInputSamples grainSizeSamples i : Z) :
  0 < grainSizeSamples < size_mod -> 0 <= numInputSamples <= max_size ->
  0 <= i < grainCount numInputSamples grainSizeSamples ->
  wrap (Z.min (wrap (wrap (i * grainSizeSamples) + grainSizeSamples))
          numInputSamples
        - wrap (i * grainSizeSamples))
  = tiledGrainSize numInputSamples grainSizeSamples
      (grainCount numInputSamples grainSizeSamples) i.
Proof.
  intros HG HN Hi. rewrite max_size_eq in HN. rewrite size_mod_eq in HG.
  pose proof (Z.div_mod numInputSamples grainSizeSamples ltac:(lia)) as Hdm.
  pose proof (Z.mod_pos_bound numInputSamples grainSizeSamples ltac:(lia)) as Hm.
  assert (Hq : 0 <= numInputSamples / grainSizeSamples <= numInputSamples).
  { split; [apply Z.div_pos; lia |]. apply Z.div_le_upper_bound; nia. }
  unfold tiledGrainSize, grainCount in *.
  set (q := numInputSamples / grainSizeSamples) in *.
  set (r := numInputSamples mod grainSizeSamples) in *.
  assert (Hstart : 0 <= i * grainSizeSamples <= numInputSamples).
  { destruct (r =? 0); [nia |].
    rewrite (wrap_small (q + 1)) in Hi by (rewrite size_mod_eq; lia). nia. }
  assert (Hend : 0 <= i * grainSizeSamples + grainSizeSamples < size_mod).
  { rewrite size_mod_eq. destruct (Z.eq_dec i 0) as [->|Hnz]; [lia |].
    assert (grainSizeSamples <= i * grainSizeSamples) by nia. lia. }
  rewrite (wrap_small (i * grainSizeSamples)) by (rewrite size_mod_eq; lia).
  rewrite (wrap_small (i * grainSizeSamples + grainSizeSamples)) by exact Hend.
  assert (Hsize : forall z, 0 <= z <= numInputSamples -> wrap z = z).
  { intros z Hz. apply wrap_small. rewrite size_mod_eq. lia. }
  destruct (r =? 0) eqn:Er.
  - apply Z.eqb_eq in Er. rewrite andb_false_r.
    assert (i * grainSizeSamples + grainSizeSamples <= numInputSamples) by nia.
    rewrite Z.min_l by lia. rewrite Hsize by lia. lia.
  - apply Z.eqb_neq in Er.
    rewrite (wrap_small (q + 1)) in * by (rewrite size_mod_eq; lia).
    rewrite andb_true_r.
    destruct (i =? q + 1 - 1) eqn:Ei.
    + apply Z.eqb_eq in Ei.
      assert (numInputSamples < i * grainSizeSamples + grainSizeSamples) by nia.
      rewrite Z.min_r by lia. rewrite Hsize by lia. reflexivity.
    + apply Z.eqb_neq in Ei.
      assert (i * grainSizeSamples + grainSizeSamples <= numInputSamples) by nia.
      rewrite Z.min_l by lia. rewrite Hsize by lia. lia.
Qed.

Lemma DynamicOutputSamples_mono (numInputSamples grainSizeSamples : Z)
    (settingsCallback : SettingsCallback) :
  0 < grainSizeSamples < size_mod -> 0 <= numInputSamples <= max_size ->
  DynamicOutputSamples numInputSamples grainSizeSamples
    (grainCount numInputSamples grainSizeSamples) settingsCallback
  = Done (wrap (tiledOutputSamples numInputSamples grainSizeSamples
                  (grainCount numInputSamples grainSizeSamples) settingsCallback)).
Proof.
  intros HG HN.
  assert (Hcount : 0 <= grainCount numInputSamples grainSizeSamples).
  { unfold grainCount. destruct (_ =? 0); [| apply wrap_range].
    apply Z.div_pos; lia. }
  unfold DynamicOutputSamples, tiledOutputSamples.
  set (numGrains := grainCount numInputSamples grainSizeSamples) in *.
  rewrite (for_range_ext _
             (fun j acc =>
                Done (wrap (acc + scaledGrainSize numInputSamples grainSizeSamples
                                    numGrains settingsCallback j)))).
  - rewrite for_range_sum. rewrite Z2Nat.id by lia.
    destruct (Z.to_nat numGrains) eqn:E; [| reflexivity].
    replace numGrains with 0 by lia. reflexivity.
  - intros j acc Hj. unfold scaledGrainSize.
    rewrite mono_grain_size by (fold numGrains; lia).
    fold numGrains. now destruct (settingsCallback _ _).
Qed.

(** ** Bytes *)

Lemma byte_to_Z_range b : 0 <= byte_to_Z b < 256.
Proof. unfold byte_to_Z. pose proof (Byte.to_N_bounded b). lia. Qed.

Lemma byte_of_to_Z b : byte_of_Z (byte_to_Z b) = b.
Proof.
  pose proof (byte_to_Z_range b) as H. unfold byte_of_Z.
  rewrite Z.mod_small by exact H. unfold byte_to_Z.
  now rewrite N2Z.id, Byte.of_to_N.
Qed.

Lemma byte_to_of_Z z : byte_to_Z (byte_of_Z z) = z mod 256.
Proof.
  pose proof (Z.mod_pos_bound z 256 ltac:(lia)) as H.
  unfold byte_of_Z, byte_to_Z.
  destruct (Byte.of_N (Z.to_N (z mod 256))) as [b|] eqn:E.
  - apply Byte.to_of_N in E. rewrite E. lia.
  - apply Byte.of_N_None_iff in E. lia.
Qed.

Lemma byte_of_Z_mod z : byte_of_Z (z mod 256) = byte_of_Z z.
Proof. unfold byte_of_Z. now rewrite Z.mod_mod by lia. Qed.

Lemma byte_of_Z_land z : byte_of_Z (Z.land z 255) = byte_of_Z z.
Proof. change 255 with (Z.ones 8). rewrite Z.land_ones by lia. apply byte_of_Z_mod. Qed.

Lemma bget_app (pre post : list byte) k :
  0 <= k -> bget (pre ++ post) (vsize pre + k) = bget post k.
Proof.
  intros Hk. unfold bget, vsize.
  replace (Z.to_nat (Z.of_nat (length pre) + k)) with (length pre + Z.to_nat k)%nat by lia.
  now rewrite lookup_app_r, Nat.add_comm, Nat.add_sub by lia.
Qed.

Lemma bset_app (pre post : list byte) k x :
  0 <= k ->
  bset (pre ++ post) (vsize pre + k) x = (post' ← bset post k x; Done (pre ++ post')).
Proof.
  intros Hk. unfold bset, vsize.
  replace (Z.to_nat (Z.of_nat (length pre) + k)) with (length pre + Z.to_nat k)%nat by lia.
  rewrite lookup_app_r, Nat.add_comm, Nat.add_sub by lia.
  destruct (post !! Z.to_nat k); [|reflexivity]. simpl.
  now rewrite Nat.add_comm, insert_app_r.
Qed.

Lemma bget_app0 (pre post : list byte) : bget (pre ++ post) (vsize pre) = bget post 0.
Proof. rewrite <- (Z.add_0_r (vsize pre)) at 1. now apply bget_app. Qed.

Lemma bset_app0 (pre post : list byte) x :
  bset (pre ++ post) (vsize pre) x = (post' ← bset post 0 x; Done (pre ++ post')).
Proof. rewrite <- (Z.add_0_r (vsize pre)) at 1. now apply bset_app. Qed.

(** ** PCM samples *)

Lemma exact_length {A} (l : list A) (n : nat) :
  length l = S n -> exists a l', l = a :: l' /\ length l' = n.
Proof. destruct l as [|a l']; simpl; [discriminate |]. intros [= H]. eauto. Qed.

Ltac bytes_of old H :=
  repeat (let a := fresh "o" in let l := fresh "old" in let E := fresh "E" in
          apply exact_length in H as (a & l & E & H); subst old; rename l into old);
  apply nil_length_inv in H; subst old.

(** [FloatToPCM] overwrites the [numBytes] bytes at [PCM] with the code
    of the sample and nothing else. *)
Lemma FloatToPCM_splice (pre old post : list byte) (x : float) (numBytes : Z) :
  1 <= numBytes <= 4 -> vsize old = numBytes ->
  vsize pre + numBytes < size_mod ->
  FloatToPCM (pre ++ old ++ post) (vsize pre) x numBytes
  = Done (pre ++ encodeSample numBytes x ++ post) /\
  vsize (encodeSample numBytes x) = numBytes.
Proof.
  intros Hn Hold Hfit. rewrite size_mod_eq in Hfit.
  pose proof (vsize_nonneg pre) as Hpre.
  assert (Hcase : numBytes = 1 \/ numBytes = 2 \/ numBytes = 3 \/ numBytes = 4) by lia.
  unfold encodeSample, FloatToPCM.
  set (d := if F32.ltb x F32.zero then _ else _). clearbody d.
  generalize (float_to_uchar ((x * zeroPointFive + zeroPointFive) * twoFiveFive)%f32).
  generalize (byte_of_Z (Z.land (Z.shiftr d 24) 255)).
  generalize (byte_of_Z (Z.land (Z.shiftr d 16) 255)).
  generalize (byte_of_Z (Z.land (Z.shiftr d 8) 255)).
  generalize (byte_of_Z (Z.land d 255)).
  intros c0 c8 c16 c24 c.
  unfold vsize in Hold.
  destruct Hcase as [-> | [-> | [-> | ->]]].
  all: match goal with
       | H : Z.of_nat (length ?o) = ?n |- _ =>
           assert (Hlen : length o = Z.to_nat n) by lia; clear H;
           simpl in Hlen; bytes_of o Hlen
       end.
  all: rewrite ?(wrap_small (vsize pre + _)) by (rewrite size_mod_eq; lia).
  all: rewrite ?(wrap_small (0 + _)) by (rewrite size_mod_eq; lia).
  all: simpl.
  all: repeat (rewrite ?bset_app, ?bset_app0 by lia; simpl).
  all: split; reflexivity.
Qed.

Lemma bget_0 (b : byte) l : bget (b :: l) 0 = Done b.
Proof. reflexivity. Qed.

Lemma bget_1 (b0 b1 : byte) l : bget (b0 :: b1 :: l) 1 = Done b1.
Proof. reflexivity. Qed.

Lemma bget_2 (b0 b1 b2 : byte) l : bget (b0 :: b1 :: b2 :: l) 2 = Done b2.
Proof. reflexivity. Qed.

Lemma bget_3 (b0 b1 b2 b3 : byte) l : bget (b0 :: b1 :: b2 :: b3 :: l) 3 = Done b3.
Proof. reflexivity. Qed.

(** [PCMToFloat] depends on the [numBytes] bytes at [PCM] only. *)
Lemma PCMToFloat_at (pre bytes post : list byte) (numBytes : Z) :
  1 <= numBytes <= 4 -> vsize bytes = numBytes ->
  vsize pre + numBytes < size_mod ->
  PCMToFloat (pre ++ bytes ++ post) (vsize pre) numBytes
  = Done (decodeSample numBytes bytes).
Proof.
  intros Hn Hlen Hfit. rewrite size_mod_eq in Hfit.
  pose proof (vsize_nonneg pre) as Hpre.
  assert (Hcase : numBytes = 1 \/ numBytes = 2 \/ numBytes = 3 \/ numBytes = 4) by lia.
  unfold decodeSample, PCMToFloat. unfold vsize in Hlen.
  destruct Hcase as [-> | [-> | [-> | ->]]].
  all: match goal with
       | H : Z.of_nat (length ?o) = ?n |- _ =>
           assert (Hlen' : length o = Z.to_nat n) by lia; clear H;
           simpl in Hlen'; bytes_of o Hlen'
       end.
  all: rewrite ?(wrap_small (vsize pre + _)) by (rewrite size_mod_eq; lia).
  all: rewrite ?(wrap_small (0 + _)) by (rewrite size_mod_eq; lia).
  all: cbn [Z.eqb Pos.eqb app Z.add Pos.add Pos.succ].
  all: rewrite ?bget_app, ?bget_app0 by lia.
  all: rewrite ?bget_0, ?bget_1, ?bget_2, ?bget_3.
  all: cbn [mbind outcome_bind].
  all: try reflexivity.
  all: match goal with |- context [Z.testbit ?d 31] => destruct (Z.testbit d 31) end;
    reflexivity.
Qed.

(** ** Integer fields *)

Lemma le16_value z :
  byte_to_Z (byte_of_Z z) + 2 ^ 8 * byte_to_Z (byte_of_Z (Z.shiftr z 8)) = uint16 z.
Proof.
  rewrite !byte_to_of_Z, Z.shiftr_div_pow2 by lia. unfold uint16.
  change (2 ^ 8) with 256. change (2 ^ 16) with 65536.
  Z.div_mod_to_equations. lia.
Qed.

Lemma le32_value z :
  byte_to_Z (byte_of_Z z) + 2 ^ 8 * byte_to_Z (byte_of_Z (Z.shiftr z 8))
  + 2 ^ 16 * byte_to_Z (byte_of_Z (Z.shiftr z 16))
  + 2 ^ 24 * byte_to_Z (byte_of_Z (Z.shiftr z 24)) = uint32 z.
Proof.
  rewrite !byte_to_of_Z, !Z.shiftr_div_pow2 by lia. unfold uint32.
  change (2 ^ 8) with 256. change (2 ^ 16) with 65536.
  change (2 ^ 24) with 16777216. change (2 ^ 32) with 4294967296.
  Z.div_mod_to_equations. lia.
Qed.

Lemma split_at (v : list byte) (i : Z) (rest : list byte) :
  0 <= i -> drop (Z.to_nat i) v = rest -> rest <> [] ->
  v = take (Z.to_nat i) v ++ rest /\ vsize (take (Z.to_nat i) v) = i.
Proof.
  intros Hi Hd Hne. split; [now rewrite <- Hd, take_drop |].
  unfold vsize. rewrite length_take.
  assert (Z.to_nat i < length v)%nat; [| lia].
  destruct (decide (Z.to_nat i < length v)%nat) as [|Hge]; [assumption |].
  rewrite drop_ge in Hd by lia. congruence.
Qed.

Lemma rd16_le16 (v : list byte) (i z : Z) (rest : list byte) :
  0 <= i -> i + 2 <= size_mod ->
  drop (Z.to_nat i) v = le16 z ++ rest -> rd16 v i = Done (uint16 z).
Proof.
  intros Hi Hfit Hd. rewrite size_mod_eq in Hfit.
  destruct (split_at v i _ Hi Hd ltac:(discriminate)) as (Hv & Hlen).
  revert Hv Hlen. generalize (take (Z.to_nat i) v). intros pre -> <-.
  pose proof (vsize_nonneg pre).
  unfold rd16. rewrite (wrap_small (vsize pre + 1)) by (rewrite size_mod_eq; lia).
  rewrite bget_app0, bget_app by lia.
  unfold le16. cbn [app]. rewrite bget_0, bget_1. cbn [mbind outcome_bind].
  now rewrite le16_value.
Qed.

Lemma rd32_le32 (v : list byte) (i z : Z) (rest : list byte) :
  0 <= i -> i + 4 <= size_mod ->
  drop (Z.to_nat i) v = le32 z ++ rest -> rd32 v i = Done (uint32 z).
Proof.
  intros Hi Hfit Hd. rewrite size_mod_eq in Hfit.
  destruct (split_at v i _ Hi Hd ltac:(discriminate)) as (Hv & Hlen).
  revert Hv Hlen. generalize (take (Z.to_nat i) v). intros pre -> <-.
  pose proof (vsize_nonneg pre).
  unfold rd32. rewrite !(wrap_small (vsize pre + _)) by (rewrite size_mod_eq; lia).
  rewrite bget_app0, !bget_app by lia.
  unfold le32. cbn [app]. rewrite bget_0, bget_1, bget_2, bget_3.
  cbn [mbind outcome_bind]. now rewrite le32_value.
Qed.

(** ** The sample loops of the writer and of the reader *)

Lemma pcmBytes_size numBytes dataFloat :
  1 <= numBytes <= 4 ->
  vsize (pcmBytes numBytes dataFloat) = vsize dataFloat * numBytes.
Proof.
  intros Hn. unfold pcmBytes, vsize.
  induction dataFloat as [|x l IH]; simpl; [lia |].
  rewrite length_app.
  pose proof (proj2 (FloatToPCM_splice [] (replicate (Z.to_nat numBytes) Byte.x00)
                       [] x numBytes Hn
                       ltac:(unfold vsize; rewrite length_replicate; lia)
                       ltac:(rewrite size_mod_eq; change (vsize (@nil byte)) with 0; lia))) as Hx.
  unfold vsize in Hx. lia.
Qed.

Lemma encodeSamples_loop (dataFloat : list float) (numBytes : Z) :
  1 <= numBytes <= 4 -> vsize dataFloat * numBytes < size_mod ->
  forall count i pre,
    Z.of_nat count + i = vsize dataFloat -> 0 <= i ->
    vsize pre = i * numBytes ->
    for_range count i (fun i data =>
      _ ← bget data (wrap (i * numBytes));
      x ← vget dataFloat i;
      FloatToPCM data (wrap (i * numBytes)) x numBytes)
      (pre ++ replicate (count * Z.to_nat numBytes) Byte.x00)
    = Done (pre ++ pcmBytes numBytes (drop (Z.to_nat i) dataFloat)).
Proof.
  intros Hn Hfit. rewrite size_mod_eq in Hfit.
  induction count as [|count IH]; intros i pre Hcount Hi Hpre.
  - simpl. rewrite drop_ge by (unfold vsize in *; lia). reflexivity.
  - assert (Hin : (Z.to_nat i < length dataFloat)%nat) by (unfold vsize in *; lia).
    destruct (lookup_lt_is_Some_2 _ _ Hin) as (x & Hx).
    assert (Hv : vget dataFloat i = Done x) by (unfold vget; now rewrite Hx).
    rewrite (drop_S _ _ _ Hx).
    change (S count * Z.to_nat numBytes)%nat
      with (Z.to_nat numBytes + count * Z.to_nat numBytes)%nat.
    rewrite replicate_add.
    cbn [for_range].
    rewrite (wrap_small (i * numBytes)) by (rewrite size_mod_eq; unfold vsize in *; nia).
    rewrite <- Hpre. rewrite bget_app0.
    assert (Hb : forall post, bget (replicate (Z.to_nat numBytes) Byte.x00 ++ post) 0
                              = Done Byte.x00).
    { intros post. destruct (Z.to_nat numBytes) eqn:E; [lia | reflexivity]. }
    rewrite Hb, Hv. cbn [mbind outcome_bind].
    destruct (FloatToPCM_splice pre (replicate (Z.to_nat numBytes) Byte.x00)
                (replicate (count * Z.to_nat numBytes) Byte.x00) x numBytes Hn)
      as (-> & Hlen).
    + unfold vsize. rewrite length_replicate. lia.
    + rewrite size_mod_eq. unfold vsize in *. nia.
    + cbn [mbind outcome_bind]. rewrite app_assoc.
      rewrite (IH (i + 1) (pre ++ encodeSample numBytes x)).
      * unfold pcmBytes. cbn [map concat].
        replace (Z.to_nat (i + 1)) with (S (Z.to_nat i)) by lia.
        now rewrite <- !app_assoc.
      * lia.
      * lia.
      * unfold vsize in *. rewrite length_app. lia.
Qed.

Lemma vset_app0 (done todo : list float) (t x : float) :
  vset (done ++ t :: todo) (vsize done) x = Done (done ++ x :: todo).
Proof.
  unfold vset, vsize. rewrite Nat2Z.id.
  rewrite (lookup_app_r done) by lia. rewrite Nat.sub_diag. simpl.
  rewrite (insert_app_r_alt done) by lia. now rewrite Nat.sub_diag.
Qed.

Lemma encodeSample_size numBytes x :
  1 <= numBytes <= 4 -> vsize (encodeSample numBytes x) = numBytes.
Proof.
  intros Hn.
  apply (FloatToPCM_splice [] (replicate (Z.to_nat numBytes) Byte.x00) [] x numBytes Hn).
  - unfold vsize. rewrite length_replicate. lia.
  - rewrite size_mod_eq. change (vsize (@nil byte)) with 0. lia.
Qed.

Lemma decodeSamples_loop (numBytes : Z) (fileData : list byte) :
  1 <= numBytes <= 4 -> vsize fileData < size_mod ->
  forall chunks nIndex pre post done todo,
    Forall (fun chunk => vsize chunk = numBytes) chunks ->
    fileData = pre ++ concat chunks ++ post ->
    vsize done = nIndex -> length todo = length chunks ->
    for_range (St := list float * Z) (length chunks) nIndex
      (fun nIndex '(data, fileIndex) =>
         _ ← bget fileData fileIndex;
         x ← PCMToFloat fileData fileIndex numBytes;
         data ← vset data nIndex x;
         Done (data, wrap (fileIndex + numBytes)))
      (done ++ todo, vsize pre)
    = Done (done ++ map (decodeSample numBytes) chunks,
            vsize pre + vsize chunks * numBytes).
Proof.
  intros Hn Hfit. rewrite size_mod_eq in Hfit.
  induction chunks as [|chunk chunks IH];
    intros nIndex pre post done todo Hall Hfile Hdone Htodo.
  - destruct todo; [| discriminate]. simpl. do 2 f_equal.
    change (vsize (@nil (list byte))) with 0. lia.
  - destruct todo as [|t todo]; [discriminate |]. injection Htodo as Htodo.
    apply Forall_cons in Hall as (Hx & Hall).
    cbn [concat] in Hfile. rewrite <- app_assoc in Hfile.
    pose proof (vsize_nonneg pre) as Hpre.
    assert (Hroom : vsize pre + numBytes <= vsize fileData).
    { rewrite Hfile. unfold vsize in *. rewrite !length_app. lia. }
    cbn [for_range length].
    assert (Hb : exists b, bget fileData (vsize pre) = Done b).
    { rewrite Hfile, bget_app0.
      destruct chunk as [|b l]; [change (vsize (@nil byte)) with 0 in Hx; lia |].
      exists b. reflexivity. }
    destruct Hb as (b & ->). cbn [mbind outcome_bind].
    rewrite Hfile at 1.
    rewrite (PCMToFloat_at pre chunk _ numBytes Hn Hx)
      by (rewrite size_mod_eq; lia).
    cbn [mbind outcome_bind]. rewrite <- Hdone, vset_app0.
    cbn [mbind outcome_bind].
    rewrite (wrap_small (vsize pre + numBytes)) by (rewrite size_mod_eq; lia).
    replace (vsize pre + numBytes) with (vsize (pre ++ chunk))
      by (unfold vsize in *; rewrite length_app; lia).
    change (done ++ decodeSample numBytes chunk :: todo)
      with (done ++ [decodeSample numBytes chunk] ++ todo).
    rewrite app_assoc.
    rewrite (IH (vsize done + 1) (pre ++ chunk) post
               (done ++ [decodeSample numBytes chunk]) todo).
    + rewrite <- app_assoc. do 2 f_equal.
      unfold vsize in *. rewrite length_app. cbn [length]. lia.
    + exact Hall.
    + now rewrite <- app_assoc.
    + unfold vsize. rewrite length_app. simpl. lia.
    + exact Htodo.
Qed.

(** ** Reading back what the writer wrote *)

Lemma findChunks_found fuel fileData fileIndex chunkPosFmt chunkPosData :
  chunkPosFmt <> SIZE_MAX -> chunkPosData <> SIZE_MAX ->
  findChunks fuel fileData fileIndex chunkPosFmt chunkPosData
  = Done (Some (chunkPosFmt, chunkPosData)).
Proof.
  intros Hf Hd. apply Z.eqb_neq in Hf, Hd.
  destruct fuel; simpl; now rewrite Hf, Hd.
Qed.

Section Minimal.

Variables chunkSize numChannels sampleRate byteRate blockAlign bitsPerSample
  dataSize : Z.
Variable payload : list byte.

Local Abbreviation image :=
  (minimalFile chunkSize numChannels sampleRate byteRate blockAlign
     bitsPerSample dataSize payload).

Lemma image_size : vsize image = 44 + vsize payload.
Proof. unfold minimalFile, vsize. rewrite length_app. simpl length. lia. Qed.

Lemma image_chunks (fuel : nat) :
  (2 <= fuel)%nat ->
  findChunks fuel image 12 SIZE_MAX SIZE_MAX = Done (Some (12, 36)).
Proof.
  intros Hfuel. pose proof image_size as Hsize.
  pose proof (vsize_nonneg payload) as Hp.
  destruct fuel as [|[|fuel]]; try lia.
  cbn [findChunks]. 
  change (SIZE_MAX =? SIZE_MAX) with true. cbn [orb].
  change (wrap (12 + 8)) with 20.
  rewrite (proj2 (Z.ltb_ge _ _)) by lia.
  change (bget image 12) with (Done (A := byte) "f"%byte).
  cbn [mbind outcome_bind].
  change (wrap (12 + 4)) with 16.
  rewrite (rd32_le32 image 16 16 (drop 20 image)) by (rewrite ?size_mod_eq; first [lia | reflexivity]).
  cbn [mbind outcome_bind].
  change (tagAt image 12 "fmt ") with true. cbn iota.
  change (wrap (wrap (16 + 4) + uint32 16)) with 36.
  change (wrap (wrap (16 + 4) - 8)) with 12.
  cbn [findChunks].
  change (12 =? SIZE_MAX) with false. change (SIZE_MAX =? SIZE_MAX) with true. cbn [orb].
  change (wrap (36 + 8)) with 44.
  rewrite (proj2 (Z.ltb_ge _ _)) by lia.
  change (bget image 36) with (Done (A := byte) "d"%byte).
  cbn [mbind outcome_bind].
  change (wrap (36 + 4)) with 40.
  rewrite (rd32_le32 image 40 dataSize payload) by (rewrite ?size_mod_eq; first [lia | reflexivity]).
  cbn [mbind outcome_bind].
  change (tagAt image 36 "fmt ") with false. 
  change (tagAt image 36 "data") with true. cbn iota.
  change (wrap (wrap (40 + 4) - 8)) with 36.
  apply findChunks_found; discriminate.
Qed.

Lemma concat_size (chunks : list (list byte)) (n : Z) :
  Forall (fun chunk => vsize chunk = n) chunks ->
  vsize (concat chunks) = vsize chunks * n.
Proof.
  unfold vsize. induction 1 as [|c l Hc _ IH]; simpl; [lia |].
  rewrite length_app. lia.
Qed.

Lemma parse_minimal (fuel : nat) (p : Process) (fileName : string)
    (out : WaveData) (chunks : list (list byte)) (post : list byte) :
  (2 <= fuel)%nat -> 1 <= numChannels <= 2 -> 0 <= sampleRate < 2 ^ 32 ->
  0 <= blockAlign <= 8 -> 0 <= bitsPerSample <= 32 -> bitsPerSample mod 8 = 0 ->
  0 <= dataSize < 2 ^ 32 -> 1 <= blockAlign / numChannels <= 4 ->
  Forall (fun chunk => vsize chunk = blockAlign / numChannels) chunks ->
  vsize chunks = (dataSize / (blockAlign / numChannels))%Z ->
  payload = concat chunks ++ post -> vsize payload < 2 ^ 63 ->
  parseWaveFile fuel p fileName image out
  = Done (print p (fileName +:+ " loaded." +:+ newline),
          {| wave_data := map (decodeSample (blockAlign / numChannels)) chunks;
             wave_numChannels := numChannels;
             wave_sampleRate := sampleRate;
             wave_numBytes := bitsPerSample / 8 |},
          true).
Proof.
  intros Hfuel Hnc Hsr Hba Hbps Hmod Hds Hbytes Hall Hlen Hpay Hfit.
  pose proof image_size as Hsize. pose proof (vsize_nonneg payload) as Hp.
  unfold parseWaveFile.
  rewrite (proj2 (Z.ltb_ge _ 4)) by lia.
  change (tagAt image 0 "RIFF") with true. cbn [negb orb].
  rewrite (proj2 (Z.ltb_ge _ 8)) by lia.
  rewrite (rd32_le32 image 4 chunkSize (drop 8 image))
    by (rewrite ?size_mod_eq; first [lia | reflexivity]).
  cbn [mbind outcome_bind].
  rewrite (proj2 (Z.ltb_ge _ 12)) by lia.
  change (tagAt image 8 "WAVE") with true. cbn [negb orb].
  rewrite (image_chunks fuel Hfuel). cbn [mbind outcome_bind].
  change (wrap (12 + 24)) with 36. change (wrap (12 + 8)) with 20.
  change (wrap (12 + 10)) with 22. change (wrap (12 + 12)) with 24.
  change (wrap (12 + 20)) with 32. change (wrap (12 + 22)) with 34.
  change (wrap (36 + 8)) with 44. change (wrap (36 + 4)) with 40.
  rewrite (proj2 (Z.ltb_ge _ 36)) by lia.
  rewrite (rd16_le16 image 20 1 (drop 22 image))
    by (rewrite ?size_mod_eq; first [lia | reflexivity]).
  rewrite (rd16_le16 image 22 numChannels (drop 24 image))
    by (rewrite ?size_mod_eq; first [lia | reflexivity]).
  rewrite (rd32_le32 image 24 sampleRate (drop 28 image))
    by (rewrite ?size_mod_eq; first [lia | reflexivity]).
  rewrite (rd16_le16 image 32 blockAlign (drop 34 image))
    by (rewrite ?size_mod_eq; first [lia | reflexivity]).
  rewrite (rd16_le16 image 34 bitsPerSample (drop 36 image))
    by (rewrite ?size_mod_eq; first [lia | reflexivity]).
  cbn [mbind outcome_bind].
  rewrite (proj2 (Z.ltb_ge _ 44)) by lia.
  rewrite (rd32_le32 image 40 dataSize payload)
    by (rewrite ?size_mod_eq; first [lia | reflexivity]).
  cbn [mbind outcome_bind].
  change (uint16 1 =? 1) with true.
  unfold uint16, uint32.
  rewrite (Z.mod_small numChannels), (Z.mod_small blockAlign),
    (Z.mod_small bitsPerSample), (Z.mod_small sampleRate),
    (Z.mod_small dataSize) by lia.
  set (bytesPerSample := blockAlign / numChannels) in *.
  rewrite (proj2 (Z.ltb_ge numChannels 1)), (proj2 (Z.ltb_ge 2 numChannels)),
    (proj2 (Z.ltb_ge 32 bitsPerSample)), (proj2 (Z.ltb_ge 8 blockAlign)),
    (proj2 (Z.eqb_eq (bitsPerSample mod 8) 0)) by lia.
  cbn [negb orb].
  rewrite (proj2 (Z.eqb_neq bytesPerSample 0)) by lia.
  rewrite <- Hlen.
  pose proof (concat_size chunks bytesPerSample Hall) as Hcat.
  assert (Hroom : vsize chunks * bytesPerSample <= vsize payload).
  { rewrite Hpay. unfold vsize in *. rewrite length_app. lia. }
  pose proof (vsize_nonneg chunks) as Hchunks.
  rewrite (wrap_small (vsize chunks * bytesPerSample))
    by (rewrite size_mod_eq; nia).
  rewrite (wrap_small (44 + _)) by (rewrite size_mod_eq; nia).
  rewrite (proj2 (Z.ltb_ge _ _)) by lia.
  replace (Z.to_nat (vsize chunks)) with (length chunks) by (unfold vsize; lia).
  revert Hsize. unfold minimalFile. set (hdr := headerBytes _). intros Hsize.
  pose proof (decodeSamples_loop bytesPerSample (hdr ++ payload) Hbytes
                ltac:(rewrite size_mod_eq; lia) chunks 0 hdr post []
                (resize (length chunks) F32.zero (wave_data out)) Hall
                ltac:(now rewrite Hpay) eq_refl
                ltac:(now rewrite length_resize)) as Hloop.
  change (vsize hdr) with 44 in Hloop. cbn [app] in Hloop.
  rewrite Hloop. reflexivity.
Qed.

Lemma parse_minimal_zero (fuel : nat) (p : Process) (fileName : string)
    (out : WaveData) :
  (2 <= fuel)%nat -> 1 <= numChannels <= 2 -> 0 <= blockAlign < numChannels ->
  0 <= bitsPerSample <= 32 -> bitsPerSample mod 8 = 0 ->
  vsize payload < 2 ^ 63 ->
  parseWaveFile fuel p fileName image out = Undefined.
Proof.
  intros Hfuel Hnc Hba Hbps Hmod Hfit.
  pose proof image_size as Hsize. pose proof (vsize_nonneg payload) as Hp.
  unfold parseWaveFile.
  rewrite (proj2 (Z.ltb_ge _ 4)) by lia.
  change (tagAt image 0 "RIFF") with true. cbn [negb orb].
  rewrite (proj2 (Z.ltb_ge _ 8)) by lia.
  rewrite (rd32_le32 image 4 chunkSize (drop 8 image))
    by (rewrite ?size_mod_eq; first [lia | reflexivity]).
  cbn [mbind outcome_bind].
  rewrite (proj2 (Z.ltb_ge _ 12)) by lia.
  change (tagAt image 8 "WAVE") with true. cbn [negb orb].
  rewrite (image_chunks fuel Hfuel). cbn [mbind outcome_bind].
  change (wrap (12 + 24)) with 36. change (wrap (12 + 8)) with 20.
  change (wrap (12 + 10)) with 22. change (wrap (12 + 12)) with 24.
  change (wrap (12 + 20)) with 32. change (wrap (12 + 22)) with 34.
  change (wrap (36 + 8)) with 44. change (wrap (36 + 4)) with 40.
  rewrite (proj2 (Z.ltb_ge _ 36)) by lia.
  rewrite (rd16_le16 image 20 1 (drop 22 image))
    by (rewrite ?size_mod_eq; first [lia | reflexivity]).
  rewrite (rd16_le16 image 22 numChannels (drop 24 image))
    by (rewrite ?size_mod_eq; first [lia | reflexivity]).
  rewrite (rd32_le32 image 24 sampleRate (drop 28 image))
    by (rewrite ?size_mod_eq; first [lia | reflexivity]).
  rewrite (rd16_le16 image 32 blockAlign (drop 34 image))
    by (rewrite ?size_mod_eq; first [lia | reflexivity]).
  rewrite (rd16_le16 image 34 bitsPerSample (drop 36 image))
    by (rewrite ?size_mod_eq; first [lia | reflexivity]).
  cbn [mbind outcome_bind].
  rewrite (proj2 (Z.ltb_ge _ 44)) by lia.
  rewrite (rd32_le32 image 40 dataSize payload)
    by (rewrite ?size_mod_eq; first [lia | reflexivity]).
  cbn [mbind outcome_bind].
  change (uint16 1 =? 1) with true.
  unfold uint16.
  rewrite (Z.mod_small numChannels), (Z.mod_small blockAlign),
    (Z.mod_small bitsPerSample) by lia.
  rewrite (proj2 (Z.ltb_ge numChannels 1)), (proj2 (Z.ltb_ge 2 numChannels)),
    (proj2 (Z.ltb_ge 32 bitsPerSample)), (proj2 (Z.ltb_ge 8 blockAlign)),
    (proj2 (Z.eqb_eq (bitsPerSample mod 8) 0)) by lia.
  cbn [negb orb].
  now rewrite Z.div_small by lia.
Qed.

End Minimal.


(** What the writer stores under [fileName]. *)
Lemma WriteWaveFile_image (p : Process) (fs : FileSystem) (fileName : string)
    (dataFloat : list float) (numChannels sampleRate numBytes : Z) :
  dataFloat <> [] -> fileName ∉ readOnly fs -> 1 <= numBytes <= 4 ->
  0 <= numChannels -> numChannels * numBytes < 2 ^ 16 ->
  vsize dataFloat * numBytes < 2 ^ 32 ->
  WriteWaveFile p fs fileName dataFloat numChannels sampleRate numBytes
  = Done (print p (fileName +:+ " saved." +:+ newline),
          {| files :=
               <[fileName :=
                   minimalFile
                     (uint32 (vsize dataFloat * numBytes + 36))
                     numChannels sampleRate
                     (uint32 (uint32 (sampleRate * numChannels)
                              * (numBytes * 8)) / 8)
                     (numChannels * numBytes) (numBytes * 8)
                     (vsize dataFloat * numBytes)
                     (pcmBytes numBytes dataFloat)]> (files fs);
             readOnly := readOnly fs |},
          true).
Proof.
  intros Hne Hw Hn Hnc Hba Hfit.
  pose proof (vsize_pos dataFloat Hne) as Hpos.
  unfold WriteWaveFile.
  rewrite (wrap_small (vsize dataFloat * numBytes)) by (rewrite size_mod_eq; nia).
  unfold encodeSamples.
  replace (Z.to_nat (vsize dataFloat * numBytes))
    with (length dataFloat * Z.to_nat numBytes)%nat by (unfold vsize; nia).
  pose proof (encodeSamples_loop dataFloat numBytes Hn
                ltac:(rewrite size_mod_eq; nia) (length dataFloat) 0 []
                ltac:(unfold vsize; lia) ltac:(lia) eq_refl) as Hloop.
  cbn [app] in Hloop. change (Z.to_nat 0) with 0%nat in Hloop.
  rewrite drop_0 in Hloop. rewrite Hloop. cbn [mbind outcome_bind].
  pose proof (pcmBytes_size numBytes dataFloat Hn) as Hsize. rewrite Hsize.
  rewrite (bool_decide_eq_false_2 _ Hw).
  assert (E1 : uint32 (vsize dataFloat * numBytes) = vsize dataFloat * numBytes)
    by (unfold uint32; rewrite Z.mod_small; lia).
  assert (E2 : uint16 (numBytes * 8) = numBytes * 8)
    by (unfold uint16; rewrite Z.mod_small; lia).
  assert (E3 : uint16 (numChannels * (numBytes * 8) / 8) = numChannels * numBytes).
  { rewrite Z.mul_assoc, Z.div_mul by lia. unfold uint16. rewrite Z.mod_small; nia. }
  rewrite E1, E2, E3.
  rewrite (proj2 (Z.leb_gt _ _)) by nia.
  destruct (pcmBytes numBytes dataFloat) as [|b data] eqn:Edata.
  { exfalso. unfold vsize in *. simpl in Hsize. nia. }
  rewrite bget_0. cbn [mbind outcome_bind]. rewrite <- Edata.
  rewrite <- Edata in Hsize.
  rewrite take_ge by (unfold vsize in *; lia).
  reflexivity.
Qed.

Lemma ReadFileIntoMemory_found (p : Process) (fs : FileSystem)
    (fileName : string) (contents : list byte) :
  files fs !! fileName = Some contents -> contents <> [] ->
  ReadFileIntoMemory p fs fileName [] = Done (p, contents, true).
Proof.
  intros Hfile Hne. unfold ReadFileIntoMemory. rewrite Hfile.
  destruct contents as [|b l]; [congruence |]. reflexivity.
Qed.

Lemma read_minimal (fuel : nat) (p : Process) (fs : FileSystem)
    (fileName : string) (out : WaveData)
    (chunkSize numChannels sampleRate byteRate blockAlign bitsPerSample
       dataSize : Z) (chunks : list (list byte)) (post : list byte) :
  (2 <= fuel)%nat -> 1 <= numChannels <= 2 -> 0 <= sampleRate < 2 ^ 32 ->
  0 <= blockAlign <= 8 -> 0 <= bitsPerSample <= 32 -> bitsPerSample mod 8 = 0 ->
  0 <= dataSize < 2 ^ 32 -> 1 <= blockAlign / numChannels <= 4 ->
  Forall (fun chunk => vsize chunk = blockAlign / numChannels) chunks ->
  vsize chunks = (dataSize / (blockAlign / numChannels))%Z ->
  vsize post < 2 ^ 62 ->
  files fs !! fileName
  = Some (minimalFile chunkSize numChannels sampleRate byteRate blockAlign
            bitsPerSample dataSize (concat chunks ++ post)) ->
  ReadWaveFile fuel p fs fileName out
  = Done (print p (fileName +:+ " loaded." +:+ newline),
          {| wave_data := map (decodeSample (blockAlign / numChannels)) chunks;
             wave_numChannels := numChannels;
             wave_sampleRate := sampleRate;
             wave_numBytes := bitsPerSample / 8 |},
          true).
Proof.
  intros Hfuel Hnc Hsr Hba Hbps Hmod Hds Hbytes Hall Hlen Hpost Hfile.
  unfold ReadWaveFile.
  rewrite (ReadFileIntoMemory_found p fs fileName _ Hfile) by discriminate.
  cbn [mbind outcome_bind].
  apply (parse_minimal chunkSize numChannels sampleRate byteRate blockAlign
           bitsPerSample dataSize (concat chunks ++ post) fuel p fileName out
           chunks post); try assumption; try reflexivity.
  pose proof (concat_size chunks _ Hall) as Hcat.
  pose proof (Z.div_le_upper_bound dataSize (blockAlign / numChannels)
                dataSize ltac:(lia) ltac:(nia)) as Hdiv.
  unfold vsize in *. rewrite length_app. nia.
Qed.

(** X1: the reader on a file made of the 44-byte header and the data.
    With a header that passes the checks and a data chunk that holds
    [dataSize / bytesPerSample] samples of
    [bytesPerSample = blockAlign / numChannels] bytes (1 to 4), the call
    succeeds, prints one line, and returns the channel count and the
    sample rate of the header, [bitsPerSample / 8] as the byte count,
    and one decoded sample per group of [bytesPerSample] bytes; what
    [data] held before, the chunk size, the byte rate and the bytes
    that follow the samples play no role. *)
Theorem ReadWaveFile_minimal (fuel : nat) (p : Process) (fs : FileSystem)
    (fileName : string) (out : WaveData)
    (chunkSize numChannels sampleRate byteRate blockAlign bitsPerSample
       dataSize : Z) (chunks : list (list byte)) (post : list byte) :
  (2 <= fuel)%nat -> 1 <= numChannels <= 2 -> 0 <= sampleRate < 2 ^ 32 ->
  0 <= blockAlign <= 8 -> 0 <= bitsPerSample <= 32 -> bitsPerSample mod 8 = 0 ->
  0 <= dataSize < 2 ^ 32 -> 1 <= blockAlign / numChannels <= 4 ->
  Forall (fun chunk => vsize chunk = blockAlign / numChannels) chunks ->
  vsize chunks = (dataSize / (blockAlign / numChannels))%Z ->
  vsize post < 2 ^ 62 ->
  files fs !! fileName
  = Some (minimalFile chunkSize numChannels sampleRate byteRate blockAlign
            bitsPerSample dataSize (concat chunks ++ post)) ->
  ReadWaveFile fuel p fs fileName out
  = Done (print p (fileName +:+ " loaded." +:+ newline),
          {| wave_data := map (decodeSample (blockAlign / numChannels)) chunks;
             wave_numChannels := numChannels;
             wave_sampleRate := sampleRate;
             wave_numBytes := bitsPerSample / 8 |},
          true).
Proof.
  apply read_minimal.
Qed.

Lemma ReadWaveFile_minimal_witness :
  ReadWaveFile 2 startup (oneFileDisk "a.wav" monoFile) "a.wav" noWave
  = Done (print startup ("a.wav" +:+ " loaded." +:+ newline),
          {| wave_data :=
               map (decodeSample (2 / 1))
                 [[Byte.x00; Byte.x40]; [Byte.xff; Byte.x7f]];
             wave_numChannels := 1;
             wave_sampleRate := 8000;
             wave_numBytes := 16 / 8 |},
          true).
Proof.
  apply (ReadWaveFile_minimal 2 startup (oneFileDisk "a.wav" monoFile) "a.wav"
           noWave 40 1 8000 16000 2 16 4
           [[Byte.x00; Byte.x40]; [Byte.xff; Byte.x7f]] []);
    try lia; try reflexivity.
  - vm_compute. split; discriminate.
  - repeat constructor.
Defined.

(** X2: a buffer that is written and read back.  For a non-empty buffer,
    one or two channels, 1 to 4 bytes per sample and less than [2^32]
    bytes of data, [WriteWaveFile] succeeds on a writable name and a
    later [ReadWaveFile] of that name succeeds: it returns the channel
    count, the sample rate and the byte count that were written, and
    the buffer in which every sample went through [FloatToPCM] and
    [PCMToFloat]. *)
Theorem WriteWaveFile_ReadWaveFile (fuel : nat) (p p' : Process)
    (fs : FileSystem) (fileName : string) (dataFloat : list float)
    (numChannels sampleRate numBytes : Z) (out : WaveData) :
  (2 <= fuel)%nat -> dataFloat <> [] -> fileName ∉ readOnly fs ->
  1 <= numChannels <= 2 -> 0 <= sampleRate < 2 ^ 32 -> 1 <= numBytes <= 4 ->
  vsize dataFloat * numBytes < 2 ^ 32 ->
  exists fs',
    WriteWaveFile p fs fileName dataFloat numChannels sampleRate numBytes
    = Done (print p (fileName +:+ " saved." +:+ newline), fs', true) /\
    ReadWaveFile fuel p' fs' fileName out
    = Done (print p' (fileName +:+ " loaded." +:+ newline),
            {| wave_data := map (quantize numBytes) dataFloat;
               wave_numChannels := numChannels;
               wave_sampleRate := sampleRate;
               wave_numBytes := numBytes |},
            true).
Proof.
  intros Hfuel Hne Hw Hnc Hsr Hn Hfit.
  rewrite (WriteWaveFile_image p fs fileName dataFloat numChannels sampleRate
             numBytes Hne Hw Hn) by (first [assumption | nia]).
  eexists. split; [reflexivity |].
  assert (Hbps : numChannels * numBytes / numChannels = numBytes)
    by (rewrite Z.mul_comm, Z.div_mul; lia).
  pose proof (vsize_nonneg dataFloat) as Hpos.
  rewrite (read_minimal fuel p' _ fileName out
             (uint32 (vsize dataFloat * numBytes + 36)) numChannels sampleRate
             (uint32 (uint32 (sampleRate * numChannels) * (numBytes * 8)) / 8)
             (numChannels * numBytes) (numBytes * 8) (vsize dataFloat * numBytes)
             (map (encodeSample numBytes) dataFloat) []).
  all: rewrite ?Hbps, ?Z.div_mul by lia.
  all: try (change (vsize (@nil byte)) with 0).
  all: try first [assumption | lia | nia].
  - unfold quantize. now rewrite map_map.
  - apply Z.mod_mul. lia.
  - apply Forall_map, Forall_forall. intros x _. now apply encodeSample_size.
  - unfold vsize. now rewrite length_map.
  - cbn [files]. rewrite lookup_insert_eq, app_nil_r. reflexivity.
Qed.

Lemma WriteWaveFile_ReadWaveFile_witness :
  exists fs',
    WriteWaveFile startup emptyDisk "a.wav" twoFrames 2 44100 2
    = Done (print startup ("a.wav" +:+ " saved." +:+ newline), fs', true) /\
    ReadWaveFile 2 startup fs' "a.wav" noWave
    = Done (print startup ("a.wav" +:+ " loaded." +:+ newline),
            {| wave_data := map (quantize 2) twoFrames;
               wave_numChannels := 2;
               wave_sampleRate := 44100;
               wave_numBytes := 2 |},
            true).
Proof.
  apply (WriteWaveFile_ReadWaveFile 2 startup startup emptyDisk "a.wav"
           twoFrames 2 44100 2 noWave); try lia; try reflexivity.
  - discriminate.
  - apply not_elem_of_empty.
Defined.

(** X3: a header that passes every check of the reader but whose block
    align is smaller than its channel count (0, or 1 with two channels)
    gives zero bytes per sample, and the reader divides the size of the
    data by it. *)
Theorem ReadWaveFile_zero_block_align (fuel : nat) (p : Process)
    (fs : FileSystem) (fileName : string) (out : WaveData)
    (chunkSize numChannels sampleRate byteRate blockAlign bitsPerSample
       dataSize : Z) (payload : list byte) :
  (2 <= fuel)%nat -> 1 <= numChannels <= 2 -> 0 <= blockAlign < numChannels ->
  0 <= bitsPerSample <= 32 -> bitsPerSample mod 8 = 0 ->
  vsize payload < 2 ^ 63 ->
  files fs !! fileName
  = Some (minimalFile chunkSize numChannels sampleRate byteRate blockAlign
            bitsPerSample dataSize payload) ->
  ReadWaveFile fuel p fs fileName out = Undefined.
Proof.
  intros Hfuel Hnc Hba Hbps Hmod Hfit Hfile. unfold ReadWaveFile.
  rewrite (ReadFileIntoMemory_found p fs fileName _ Hfile) by discriminate.
  cbn [mbind outcome_bind]. now apply parse_minimal_zero.
Qed.

Lemma ReadWaveFile_zero_block_align_witness :
  ReadWaveFile 2 startup (oneFileDisk "a.wav" zeroAlignFile) "a.wav" noWave
  = Undefined.
Proof.
  apply (ReadWaveFile_zero_block_align 2 startup
           (oneFileDisk "a.wav" zeroAlignFile) "a.wav" noWave
           40 1 8000 16000 0 16 4 [Byte.x00; Byte.x40; Byte.xff; Byte.x7f]);
    try lia; try reflexivity.
Defined.

(** ** The reader on an arbitrary file *)

Lemma bget_defined (v : list byte) (i : Z) :
  0 <= i < vsize v -> exists b, bget v i = Done b.
Proof.
  intros H. unfold bget.
  destruct (v !! Z.to_nat i) as [b|] eqn:E; [eauto |].
  apply lookup_ge_None in E. unfold vsize in H. lia.
Qed.

Lemma rd16_defined (v : list byte) (i : Z) :
  0 <= i -> i + 2 <= vsize v -> vsize v < 2 ^ 63 ->
  exists z, rd16 v i = Done z /\ 0 <= z < 2 ^ 16.
Proof.
  intros Hi Hroom Hfit. unfold rd16.
  rewrite (wrap_small (i + 1)) by (rewrite size_mod_eq; lia).
  destruct (bget_defined v i ltac:(lia)) as (b0 & ->).
  destruct (bget_defined v (i + 1) ltac:(lia)) as (b1 & ->).
  cbn [mbind outcome_bind]. eexists. split; [reflexivity |].
  pose proof (byte_to_Z_range b0). pose proof (byte_to_Z_range b1). lia.
Qed.

Lemma rd32_defined (v : list byte) (i : Z) :
  0 <= i -> i + 4 <= vsize v -> vsize v < 2 ^ 63 ->
  exists z, rd32 v i = Done z /\ 0 <= z < 2 ^ 32.
Proof.
  intros Hi Hroom Hfit. unfold rd32.
  rewrite !(wrap_small (i + _)) by (rewrite size_mod_eq; lia).
  destruct (bget_defined v i ltac:(lia)) as (b0 & ->).
  destruct (bget_defined v (i + 1) ltac:(lia)) as (b1 & ->).
  destruct (bget_defined v (i + 2) ltac:(lia)) as (b2 & ->).
  destruct (bget_defined v (i + 3) ltac:(lia)) as (b3 & ->).
  cbn [mbind outcome_bind]. eexists. split; [reflexivity |].
  pose proof (byte_to_Z_range b0). pose proof (byte_to_Z_range b1).
  pose proof (byte_to_Z_range b2). pose proof (byte_to_Z_range b3). lia.
Qed.

(** The chunk scan ends: every trip moves at least eight bytes forward. *)
Lemma findChunks_ends (fileData : list byte) :
  vsize fileData < 2 ^ 63 ->
  forall fuel fileIndex chunkPosFmt chunkPosData,
    (1 <= fuel)%nat -> 0 <= fileIndex <= vsize fileData + 2 ^ 32 ->
    vsize fileData + 8 <= 8 * Z.of_nat fuel + fileIndex ->
    chunkPosFmt = SIZE_MAX \/ chunkPos fileData chunkPosFmt ->
    chunkPosData = SIZE_MAX \/ chunkPos fileData chunkPosData ->
    findChunks fuel fileData fileIndex chunkPosFmt chunkPosData = Done None \/
    exists fmt data,
      findChunks fuel fileData fileIndex chunkPosFmt chunkPosData
      = Done (Some (fmt, data)) /\
      chunkPos fileData fmt /\ chunkPos fileData data.
Proof.
  intros Hfit. unfold chunkPos.
  induction fuel as [|fuel IH]; intros i fmt dat Hfuel Hi Hmeasure Hfmt Hdat;
    [lia |].
  cbn [findChunks].
  destruct ((fmt =? SIZE_MAX) || (dat =? SIZE_MAX)) eqn:Econd.
  - rewrite (wrap_small (i + 8)) by (rewrite size_mod_eq; lia).
    destruct (Z.ltb_spec (vsize fileData) (i + 8)) as [Hlt | Hroom];
      [now left |].
    destruct (bget_defined fileData i ltac:(lia)) as (b & ->).
    cbn [mbind outcome_bind].
    rewrite (wrap_small (i + 4)) by (rewrite size_mod_eq; lia).
    destruct (rd32_defined fileData (i + 4) ltac:(lia) ltac:(lia) Hfit)
      as (chunkSize & -> & Hsize).
    cbn [mbind outcome_bind].
    rewrite (wrap_small (i + 4 + 4)) by (rewrite size_mod_eq; lia).
    rewrite (wrap_small (i + 4 + 4 - 8)) by (rewrite size_mod_eq; lia).
    rewrite (wrap_small (i + 4 + 4 + chunkSize)) by (rewrite size_mod_eq; lia).
    replace (i + 4 + 4 - 8) with i by lia.
    assert (Hhere : chunkPos fileData i) by (unfold chunkPos; lia).
    destruct (tagAt fileData i "fmt "); [| destruct (tagAt fileData i "data")];
      apply IH; auto; lia.
  - right. exists fmt, dat. split; [reflexivity |].
    apply orb_false_iff in Econd as (E1 & E2).
    apply Z.eqb_neq in E1, E2. intuition.
Qed.

Lemma PCMToFloat_defined (fileData : list byte) (PCM numBytes : Z) :
  0 <= PCM -> 0 <= numBytes -> PCM + numBytes <= vsize fileData ->
  vsize fileData < 2 ^ 63 ->
  exists x, PCMToFloat fileData PCM numBytes = Done x.
Proof.
  intros HPCM Hn Hroom Hfit. unfold PCMToFloat.
  destruct (Z.eqb_spec numBytes 1) as [-> | _].
  { destruct (bget_defined fileData PCM ltac:(lia)) as (b0 & ->).
    cbn [mbind outcome_bind]. eauto. }
  assert (Hdata : exists data,
    (if numBytes =? 4 then
       b3 ← bget fileData (wrap (PCM + 3));
       b2 ← bget fileData (wrap (PCM + 2));
       b1 ← bget fileData (wrap (PCM + 1));
       b0 ← bget fileData PCM;
       Done (Z.lor (Z.lor (Z.lor (uint32 (Z.shiftl (byte_to_Z b3) 24))
                                 (uint32 (Z.shiftl (byte_to_Z b2) 16)))
                          (uint32 (Z.shiftl (byte_to_Z b1) 8)))
                   (byte_to_Z b0))
     else if numBytes =? 3 then
       b2 ← bget fileData (wrap (PCM + 2));
       b1 ← bget fileData (wrap (PCM + 1));
       b0 ← bget fileData PCM;
       Done (Z.lor (Z.lor (uint32 (Z.shiftl (byte_to_Z b2) 24))
                          (uint32 (Z.shiftl (byte_to_Z b1) 16)))
                   (uint32 (Z.shiftl (byte_to_Z b0) 8)))
     else if numBytes =? 2 then
       b1 ← bget fileData (wrap (PCM + 1));
       b0 ← bget fileData PCM;
       Done (Z.lor (uint32 (Z.shiftl (byte_to_Z b1) 24))
                   (uint32 (Z.shiftl (byte_to_Z b0) 16)))
     else Done 0) = Done data).
  { rewrite !(wrap_small (PCM + _)) by (rewrite size_mod_eq; lia).
    destruct (Z.eqb_spec numBytes 4) as [-> | _];
      [| destruct (Z.eqb_spec numBytes 3) as [-> | _];
         [| destruct (Z.eqb_spec numBytes 2) as [-> | _]]].
    - destruct (bget_defined fileData (PCM + 3) ltac:(lia)) as (b3 & ->).
      destruct (bget_defined fileData (PCM + 2) ltac:(lia)) as (b2 & ->).
      destruct (bget_defined fileData (PCM + 1) ltac:(lia)) as (b1 & ->).
      destruct (bget_defined fileData PCM ltac:(lia)) as (b0 & ->).
      cbn [mbind outcome_bind]. eauto.
    - destruct (bget_defined fileData (PCM + 2) ltac:(lia)) as (b2 & ->).
      destruct (bget_defined fileData (PCM + 1) ltac:(lia)) as (b1 & ->).
      destruct (bget_defined fileData PCM ltac:(lia)) as (b0 & ->).
      cbn [mbind outcome_bind]. eauto.
    - destruct (bget_defined fileData (PCM + 1) ltac:(lia)) as (b1 & ->).
      destruct (bget_defined fileData PCM ltac:(lia)) as (b0 & ->).
      cbn [mbind outcome_bind]. eauto.
    - eauto. }
  destruct Hdata as (data & ->). cbn [mbind outcome_bind].
  destruct (Z.testbit data 31); eauto.
Qed.

Lemma readSamples_defined (fileData : list byte) (bytesPerSample : Z)
    (count : nat) (data : list float) (fileIndex : Z) :
  1 <= bytesPerSample -> vsize fileData < 2 ^ 63 -> 0 <= fileIndex ->
  fileIndex + Z.of_nat count * bytesPerSample <= vsize fileData ->
  length data = count ->
  exists data' fileIndex',
    for_range (St := list float * Z) count 0
      (fun nIndex '(data, fileIndex) =>
         _ ← bget fileData fileIndex;
         x ← PCMToFloat fileData fileIndex bytesPerSample;
         data ← vset data nIndex x;
         Done (data, wrap (fileIndex + bytesPerSample)))
      (data, fileIndex) = Done (data', fileIndex') /\
    length data' = count.
Proof.
  intros Hb Hfit Hi Hroom Hlen.
  destruct (for_range_inv (St := list float * Z)
              (fun k '(d, idx) =>
                 length d = count /\ idx = fileIndex + k * bytesPerSample)
              (fun nIndex '(data, fileIndex) =>
                 _ ← bget fileData fileIndex;
                 x ← PCMToFloat fileData fileIndex bytesPerSample;
                 data ← vset data nIndex x;
                 Done (data, wrap (fileIndex + bytesPerSample)))
              count 0 (data, fileIndex)) as ([data' idx'] & Hrun & Hlen' & _).
  - split; [exact Hlen | lia].
  - intros k [d idx] Hk (Hd & ->).
    destruct (bget_defined fileData (fileIndex + k * bytesPerSample)
                ltac:(nia)) as (b & ->).
    cbn [mbind outcome_bind].
    destruct (PCMToFloat_defined fileData (fileIndex + k * bytesPerSample)
                bytesPerSample ltac:(nia) ltac:(lia) ltac:(nia) Hfit) as (x & ->).
    cbn [mbind outcome_bind].
    rewrite vset_in_range by (unfold vsize; lia).
    cbn [mbind outcome_bind].
    eexists. split; [reflexivity |]. split.
    + now rewrite length_insert.
    + rewrite wrap_small by (rewrite size_mod_eq; nia). lia.
  - eauto.
Qed.

(** Every way [ReadWaveFile] can end once the file is in memory. *)
Lemma parseWaveFile_cases (fuel : nat) (p : Process) (fileName : string)
    (fileData : list byte) (out : WaveData) :
  vsize fileData < 2 ^ 63 -> (1 <= fuel)%nat -> vsize fileData <= Z.of_nat fuel ->
  (exists code,
     parseWaveFile fuel p fileName fileData out
     = Done (invalidInputFile p fileName code, out, false)) \/
  (exists n,
     parseWaveFile fuel p fileName fileData out
     = Done (invalidInputFile p fileName "8",
             {| wave_data := resize n F32.zero (wave_data out);
                wave_numChannels := wave_numChannels out;
                wave_sampleRate := wave_sampleRate out;
                wave_numBytes := wave_numBytes out |},
             false)) \/
  (parseWaveFile fuel p fileName fileData out = Undefined /\
   exists fmt data numChannels blockAlign,
     findChunks fuel fileData 12 SIZE_MAX SIZE_MAX = Done (Some (fmt, data)) /\
     rd16 fileData (wrap (fmt + 10)) = Done numChannels /\
     rd16 fileData (wrap (fmt + 20)) = Done blockAlign /\
     1 <= numChannels <= 2 /\ 0 <= blockAlign < numChannels) \/
  (exists data numChannels sampleRate bitsPerSample,
     parseWaveFile fuel p fileName fileData out
     = Done (print p (fileName +:+ " loaded." +:+ newline),
             {| wave_data := data;
                wave_numChannels := numChannels;
                wave_sampleRate := sampleRate;
                wave_numBytes := bitsPerSample / 8 |},
             true) /\
     1 <= numChannels <= 2 /\ 0 <= sampleRate < 2 ^ 32 /\
     0 <= bitsPerSample <= 32 /\ bitsPerSample mod 8 = 0 /\
     vsize data < 2 ^ 32).
Proof.
  intros Hfit Hfuel Hlen. unfold parseWaveFile.
  destruct ((vsize fileData <? 4) || negb (tagAt fileData 0 "RIFF")) eqn:E1;
    [left; eauto |].
  apply orb_false_iff in E1 as (E1 & _). apply Z.ltb_ge in E1.
  destruct (Z.ltb_spec (vsize fileData) 8) as [| E2]; [left; eauto |].
  destruct (rd32_defined fileData 4 ltac:(lia) ltac:(lia) Hfit) as (cs & -> & _).
  cbn [mbind outcome_bind].
  destruct ((vsize fileData <? 12) || negb (tagAt fileData 8 "WAVE")) eqn:E3;
    [left; eauto |].
  apply orb_false_iff in E3 as (E3 & _). apply Z.ltb_ge in E3.
  destruct (findChunks_ends fileData Hfit fuel 12 SIZE_MAX SIZE_MAX Hfuel
              ltac:(lia) ltac:(lia) ltac:(now left) ltac:(now left))
    as [-> | (fmt & dat & Hfind & (Hf0 & Hf8) & (Hd0 & Hd8))];
    [left; eauto |].
  rewrite Hfind. cbn [mbind outcome_bind].
  rewrite !(wrap_small (fmt + _)), !(wrap_small (dat + _))
    by (rewrite size_mod_eq; lia).
  destruct (Z.ltb_spec (vsize fileData) (fmt + 24)) as [| E5]; [left; eauto |].
  destruct (rd16_defined fileData (fmt + 8) ltac:(lia) ltac:(lia) Hfit)
    as (audioFormat & Haf & _).
  destruct (rd16_defined fileData (fmt + 10) ltac:(lia) ltac:(lia) Hfit)
    as (numChannels & Hnc & Hnc_range).
  destruct (rd32_defined fileData (fmt + 12) ltac:(lia) ltac:(lia) Hfit)
    as (sampleRate & Hsr & Hsr_range).
  destruct (rd16_defined fileData (fmt + 20) ltac:(lia) ltac:(lia) Hfit)
    as (blockAlign & Hba & Hba_range).
  destruct (rd16_defined fileData (fmt + 22) ltac:(lia) ltac:(lia) Hfit)
    as (bitsPerSample & Hbps & Hbps_range).
  rewrite Haf, Hnc, Hsr, Hba, Hbps. cbn [mbind outcome_bind].
  destruct (Z.ltb_spec (vsize fileData) (dat + 8)) as [| E6]; [left; eauto |].
  destruct (rd32_defined fileData (dat + 4) ltac:(lia) ltac:(lia) Hfit)
    as (subChunk2Size & -> & Hds).
  cbn [mbind outcome_bind].
  destruct (negb (audioFormat =? 1) || (numChannels <? 1) || (2 <? numChannels)
            || (32 <? bitsPerSample) || negb (bitsPerSample mod 8 =? 0)
            || (8 <? blockAlign)) eqn:E7; [left; eauto |].
  repeat (apply orb_false_iff in E7 as (E7 & ?)).
  repeat match goal with
         | H : (_ <? _) = false |- _ => apply Z.ltb_ge in H
         | H : negb _ = false |- _ => apply negb_false_iff in H
         | H : (_ =? _) = true |- _ => apply Z.eqb_eq in H
         end.
  destruct (Z.eqb_spec (blockAlign / numChannels) 0) as [Ezero | Enz].
  { right. right. left. split; [reflexivity |].
    exists fmt, dat, numChannels, blockAlign.
    rewrite !(wrap_small (fmt + _)) by (rewrite size_mod_eq; lia).
    repeat split; try assumption; try lia.
    apply Z.div_small_iff in Ezero; lia. }
  assert (Hbytes : 1 <= blockAlign / numChannels <= 8).
  { pose proof (Z.div_pos blockAlign numChannels ltac:(lia) ltac:(lia)).
    pose proof (Z.div_le_upper_bound blockAlign numChannels 8 ltac:(lia) ltac:(nia)).
    lia. }
  set (bytesPerSample := blockAlign / numChannels) in *.
  set (numSourceSamples := subChunk2Size / bytesPerSample).
  assert (Hn : 0 <= numSourceSamples <= subChunk2Size).
  { unfold numSourceSamples. split; [apply Z.div_pos; lia |].
    apply Z.div_le_upper_bound; nia. }
  assert (Hprod : 0 <= numSourceSamples * bytesPerSample <= subChunk2Size).
  { unfold numSourceSamples.
    pose proof (Z.mul_div_le subChunk2Size bytesPerSample ltac:(lia)). nia. }
  rewrite (wrap_small (numSourceSamples * bytesPerSample))
    by (rewrite size_mod_eq; lia).
  rewrite (wrap_small (dat + 8 + _)) by (rewrite size_mod_eq; lia).
  destruct (Z.ltb_spec (vsize fileData)
              (dat + 8 + numSourceSamples * bytesPerSample)) as [| E8];
    [right; left; eauto |].
  destruct (readSamples_defined fileData bytesPerSample
              (Z.to_nat numSourceSamples)
              (resize (Z.to_nat numSourceSamples) F32.zero (wave_data out))
              (dat + 8) ltac:(lia) Hfit ltac:(lia) ltac:(lia)
              ltac:(apply length_resize)) as (data' & idx' & -> & Hlen').
  cbn [mbind outcome_bind].
  right. right. right. exists data', numChannels, sampleRate, bitsPerSample.
  split; [reflexivity |]. unfold vsize. rewrite Hlen'. repeat split; lia.
Qed.

(** X4: the reader ends and stays inside the file.  On a file that
    exists and is not empty, with fuel for one trip of the chunk scan
    per byte, [ReadWaveFile] returns, or it divides by zero: the only
    undefined run is the one of a header with a block align smaller
    than its channel count. *)
Theorem ReadWaveFile_returns (fuel : nat) (p : Process) (fs : FileSystem)
    (fileName : string) (out : WaveData) (contents : list byte) :
  files fs !! fileName = Some contents -> contents <> [] ->
  vsize contents < 2 ^ 63 -> (length contents <= fuel)%nat ->
  (exists p' out' loaded,
     ReadWaveFile fuel p fs fileName out = Done (p', out', loaded)) \/
  (ReadWaveFile fuel p fs fileName out = Undefined /\
   exists fmt data numChannels blockAlign,
     findChunks fuel contents 12 SIZE_MAX SIZE_MAX = Done (Some (fmt, data)) /\
     rd16 contents (wrap (fmt + 10)) = Done numChannels /\
     rd16 contents (wrap (fmt + 20)) = Done blockAlign /\
     1 <= numChannels <= 2 /\ 0 <= blockAlign < numChannels).
Proof.
  intros Hfile Hne Hfit Hfuel. unfold ReadWaveFile.
  rewrite (ReadFileIntoMemory_found p fs fileName _ Hfile Hne).
  cbn [mbind outcome_bind].
  pose proof (vsize_pos contents Hne) as Hpos.
  destruct (parseWaveFile_cases fuel p fileName contents out Hfit
              ltac:(unfold vsize in *; lia) ltac:(unfold vsize; lia))
    as [(code & ->) | [(n & ->) | [(-> & H) | (d & nc & sr & bps & -> & _)]]];
    eauto 10.
Qed.

Lemma ReadWaveFile_returns_witness :
  (exists p' out' loaded,
     ReadWaveFile 48 startup (oneFileDisk "a.wav" monoFile) "a.wav" noWave
     = Done (p', out', loaded)) \/
  (ReadWaveFile 48 startup (oneFileDisk "a.wav" monoFile) "a.wav" noWave
   = Undefined /\
   exists fmt data numChannels blockAlign,
     findChunks 48 monoFile 12 SIZE_MAX SIZE_MAX = Done (Some (fmt, data)) /\
     rd16 monoFile (wrap (fmt + 10)) = Done numChannels /\
     rd16 monoFile (wrap (fmt + 20)) = Done blockAlign /\
     1 <= numChannels <= 2 /\ 0 <= blockAlign < numChannels).
Proof.
  apply (ReadWaveFile_returns 48 startup (oneFileDisk "a.wav" monoFile) "a.wav"
           noWave monoFile).
  - reflexivity.
  - discriminate.
  - reflexivity.
  - vm_compute. lia.
Defined.

(** X5: a read that fails.  When [ReadWaveFile] returns [false] it has
    printed exactly one line, the channel count, the sample rate and
    the byte count of the caller are untouched, and the sample buffer
    of the caller is untouched or, for error (8), resized with zeros. *)
Theorem ReadWaveFile_failure (fuel : nat) (p p' : Process) (fs : FileSystem)
    (fileName : string) (out out' : WaveData) :
  (forall contents, files fs !! fileName = Some contents ->
     vsize contents < 2 ^ 63 /\ (length contents <= fuel)%nat) ->
  ReadWaveFile fuel p fs fileName out = Done (p', out', false) ->
  (exists line, stdout p' = stdout p ++ [line]) /\
  reportedError p' = reportedError p /\
  wave_numChannels out' = wave_numChannels out /\
  wave_sampleRate out' = wave_sampleRate out /\
  wave_numBytes out' = wave_numBytes out /\
  exists n, wave_data out' = resize n F32.zero (wave_data out).
Proof.
  intros Hfs. unfold ReadWaveFile, ReadFileIntoMemory.
  destruct (files fs !! fileName) as [contents|] eqn:Hfile.
  - destruct (Hfs contents eq_refl) as (Hfit & Hfuel).
    destruct contents as [|b l] eqn:Econtents; [discriminate |].
    rewrite <- Econtents in *.
    assert (Hne : contents <> []) by (subst; discriminate).
    pose proof (vsize_pos contents Hne) as Hpos.
    replace (bget (resize (length contents) Byte.x00 []) 0)
      with (Done (A := byte) Byte.x00)
      by (rewrite Econtents; reflexivity).
    cbn [mbind outcome_bind].
    destruct (parseWaveFile_cases fuel p fileName contents out Hfit
                ltac:(unfold vsize in *; lia) ltac:(unfold vsize; lia))
      as [(code & ->) | [(n & ->) | [(-> & H) | (d & nc & sr & bps & -> & _)]]];
      intros [= <- <-] || intros [=].
    + repeat split; eauto.
      exists (length (wave_data out)). now rewrite resize_all.
    + repeat split; eauto.
  - cbn [mbind outcome_bind]. intros [= <- <-].
    repeat split; eauto.
    exists (length (wave_data out)). now rewrite resize_all.
Qed.

Lemma ReadWaveFile_failure_witness :
  (exists line, stdout (invalidInputFile startup "a.wav" "1")
                = stdout startup ++ [line]) /\
  reportedError (invalidInputFile startup "a.wav" "1") = reportedError startup /\
  wave_numChannels noWave = wave_numChannels noWave /\
  wave_sampleRate noWave = wave_sampleRate noWave /\
  wave_numBytes noWave = wave_numBytes noWave /\
  exists n, wave_data noWave = resize n F32.zero (wave_data noWave).
Proof.
  apply (ReadWaveFile_failure 4 startup (invalidInputFile startup "a.wav" "1")
           (oneFileDisk "a.wav" (tag "RIFX")) "a.wav" noWave noWave).
  - intros contents H. vm_compute in H. injection H as <-.
    split; [reflexivity | vm_compute; lia].
  - vm_compute. reflexivity.
Defined.

(** X6: a read that succeeds.  When [ReadWaveFile] returns [true] it has
    printed the line of the loaded file and nothing else, and it
    returns one or two channels, a 32-bit sample rate, a byte count of
    0 to 4 and fewer than [2^32] samples. *)
Theorem ReadWaveFile_success (fuel : nat) (p p' : Process) (fs : FileSystem)
    (fileName : string) (out out' : WaveData) :
  (forall contents, files fs !! fileName = Some contents ->
     vsize contents < 2 ^ 63 /\ (length contents <= fuel)%nat) ->
  ReadWaveFile fuel p fs fileName out = Done (p', out', true) ->
  p' = print p (fileName +:+ " loaded." +:+ newline) /\
  1 <= wave_numChannels out' <= 2 /\
  0 <= wave_sampleRate out' < 2 ^ 32 /\
  0 <= wave_numBytes out' <= 4 /\
  vsize (wave_data out') < 2 ^ 32.
Proof.
  intros Hfs. unfold ReadWaveFile, ReadFileIntoMemory.
  destruct (files fs !! fileName) as [contents|] eqn:Hfile.
  - destruct (Hfs contents eq_refl) as (Hfit & Hfuel).
    destruct contents as [|b l] eqn:Econtents; [discriminate |].
    rewrite <- Econtents in *.
    assert (Hne : contents <> []) by (subst; discriminate).
    pose proof (vsize_pos contents Hne) as Hpos.
    replace (bget (resize (length contents) Byte.x00 []) 0)
      with (Done (A := byte) Byte.x00)
      by (rewrite Econtents; reflexivity).
    cbn [mbind outcome_bind].
    destruct (parseWaveFile_cases fuel p fileName contents out Hfit
                ltac:(unfold vsize in *; lia) ltac:(unfold vsize; lia))
      as [(code & ->) | [(n & ->) | [(-> & H)
          | (d & nc & sr & bps & -> & Hnc & Hsr & Hbps & Hmod & Hd)]]];
      intros [= <- <-] || intros [=].
    cbn [wave_numChannels wave_sampleRate wave_numBytes wave_data].
    repeat split; try lia.
    + apply Z.div_pos; lia.
    + apply Z.div_le_upper_bound; lia.
  - cbn [mbind outcome_bind]. intros [=].
Qed.

Lemma ReadWaveFile_success_witness :
  print startup ("a.wav" +:+ " loaded." +:+ newline)
  = print startup ("a.wav" +:+ " loaded." +:+ newline) /\
  1 <= 1 <= 2 /\ 0 <= 8000 < 2 ^ 32 /\ 0 <= 2 <= 4 /\
  vsize (map (decodeSample 2) [[Byte.x00; Byte.x40]; [Byte.xff; Byte.x7f]])
  < 2 ^ 32.
Proof.
  apply (ReadWaveFile_success 48 startup
           (print startup ("a.wav" +:+ " loaded." +:+ newline))
           (oneFileDisk "a.wav" monoFile) "a.wav" noWave
           {| wave_data :=
                map (decodeSample 2) [[Byte.x00; Byte.x40]; [Byte.xff; Byte.x7f]];
              wave_numChannels := 1;
              wave_sampleRate := 8000;
              wave_numBytes := 2 |}).
  - intros contents H. vm_compute in H. injection H as <-.
    split; [reflexivity | vm_compute; lia].
  - vm_compute. reflexivity.
Defined.

(** ** The writer *)

(** X7: what a call of the writer may change.  Whatever the arguments
    are, a call that returns leaves every other file and the set of
    unwritable names as they were; it returns [false] exactly when the
    name is unwritable, and then the files are untouched and one line
    is printed; when it returns [true] the file holds at least the 44
    bytes of the header. *)
Theorem WriteWaveFile_frame (p p' : Process) (fs fs' : FileSystem)
    (fileName : string) (dataFloat : list float)
    (numChannels sampleRate numBytes : Z) (saved : bool) :
  WriteWaveFile p fs fileName dataFloat numChannels sampleRate numBytes
  = Done (p', fs', saved) ->
  readOnly fs' = readOnly fs /\
  (forall other, other <> fileName -> files fs' !! other = files fs !! other) /\
  (exists line, stdout p' = stdout p ++ [line]) /\
  (saved = false <-> fileName ∈ readOnly fs) /\
  (saved = false -> fs' = fs) /\
  (saved = true ->
   exists image, files fs' !! fileName = Some image /\ 44 <= vsize image).
Proof.
  unfold WriteWaveFile.
  destruct (encodeSamples _ _ _) as [data | |]; cbn [mbind outcome_bind];
    try discriminate.
  destruct (bool_decide (fileName ∈ readOnly fs)) eqn:Ew.
  - apply bool_decide_eq_true_1 in Ew. intros [= <- <- <-].
    repeat split; eauto; discriminate.
  - apply bool_decide_eq_false_1 in Ew.
    destruct (2 ^ 31 <=? _); [discriminate |].
    destruct (bget data 0); cbn [mbind outcome_bind]; try discriminate.
    intros [= <- <- <-]. cbn [files readOnly stdout print].
    repeat split; eauto; try discriminate; try contradiction.
    + intros other Hother. now rewrite lookup_insert_ne.
    + intros _. eexists. rewrite lookup_insert_eq. split; [reflexivity |].
      unfold vsize. cbn [length]. lia.
Qed.

Lemma WriteWaveFile_frame_witness :
  readOnly lockedDisk = readOnly lockedDisk /\
  (forall other, other <> "locked.wav"%string ->
                 files lockedDisk !! other = files lockedDisk !! other) /\
  (exists line,
     stdout (print startup ("[-----ERROR-----] Could not open " +:+ "locked.wav"
                            +:+ " for writing." +:+ newline))
     = stdout startup ++ [line]) /\
  (false = false <-> "locked.wav"%string ∈ readOnly lockedDisk) /\
  (false = false -> lockedDisk = lockedDisk) /\
  (false = true ->
   exists image,
     files lockedDisk !! "locked.wav"%string = Some image /\ 44 <= vsize image).
Proof.
  apply (WriteWaveFile_frame startup
           (print startup ("[-----ERROR-----] Could not open " +:+ "locked.wav"
                           +:+ " for writing." +:+ newline))
           lockedDisk lockedDisk "locked.wav" twoFrames 2 44100 2 false).
  vm_compute. reflexivity.
Defined.

(** X8: the header the writer produces.  For a non-empty buffer, 1 to 4
    bytes per sample and sizes that fit their fields, the file is 44
    bytes longer than the data, its RIFF size field is the length of
    the file less 8, its data size field the length less 44, its block
    align [numChannels * numBytes], its bits per sample [8 * numBytes]
    and its format tag 1 (PCM). *)
Theorem WriteWaveFile_header (p : Process) (fs : FileSystem)
    (fileName : string) (dataFloat : list float)
    (numChannels sampleRate numBytes : Z) :
  dataFloat <> [] -> fileName ∉ readOnly fs -> 1 <= numBytes <= 4 ->
  0 <= numChannels -> numChannels * numBytes < 2 ^ 16 ->
  0 <= sampleRate < 2 ^ 32 ->
  vsize dataFloat * numBytes + 36 < 2 ^ 32 ->
  exists p' fs' image,
    WriteWaveFile p fs fileName dataFloat numChannels sampleRate numBytes
    = Done (p', fs', true) /\
    files fs' !! fileName = Some image /\
    vsize image = 44 + vsize dataFloat * numBytes /\
    rd32 image 4 = Done (vsize image - 8) /\
    rd16 image 20 = Done 1 /\
    rd16 image 22 = Done numChannels /\
    rd32 image 24 = Done sampleRate /\
    rd16 image 32 = Done (numChannels * numBytes) /\
    rd16 image 34 = Done (8 * numBytes) /\
    rd32 image 40 = Done (vsize image - 44).
Proof.
  intros Hne Hw Hn Hnc Hba Hsr Hfit.
  pose proof (vsize_nonneg dataFloat) as Hpos.
  rewrite (WriteWaveFile_image p fs fileName dataFloat numChannels sampleRate
             numBytes Hne Hw Hn Hnc Hba) by lia.
  eexists _, _, _. split; [reflexivity |]. cbn [files].
  split; [apply lookup_insert_eq |].
  unfold minimalFile, minimalHeader.
  set (h := Build_SMinimalWaveFileHeader _ _ _ _ _ _ _ _ _ _ _ _ _).
  assert (Hsize : vsize (headerBytes h ++ pcmBytes numBytes dataFloat)
                  = 44 + vsize dataFloat * numBytes).
  { rewrite <- (pcmBytes_size numBytes dataFloat Hn).
    unfold vsize. rewrite length_app. simpl length. lia. }
  rewrite Hsize. split; [reflexivity |].
  assert (U32 : forall z, 0 <= z < 2 ^ 32 -> uint32 z = z)
    by (intros; unfold uint32; now rewrite Z.mod_small).
  assert (U16 : forall z, 0 <= z < 2 ^ 16 -> uint16 z = z)
    by (intros; unfold uint16; now rewrite Z.mod_small).
  repeat split.
  all: first [ erewrite rd32_le32; [| lia | rewrite size_mod_eq; lia | reflexivity]
             | erewrite rd16_le16; [| lia | rewrite size_mod_eq; lia | reflexivity] ].
  all: subst h;
    cbn [m_chunkSize m_audioFormat m_numChannels m_sampleRate m_blockAlign
         m_bitsPerSample m_subChunk2Size].
  all: rewrite ?(U32 (vsize dataFloat * numBytes + 36)) by lia.
  all: rewrite ?U32, ?U16 by nia.
  all: try reflexivity.
  all: f_equal; lia.
Qed.

Lemma WriteWaveFile_header_witness :
  exists p' fs' image,
    WriteWaveFile startup emptyDisk "a.wav" twoFrames 2 44100 2
    = Done (p', fs', true) /\
    files fs' !! "a.wav"%string = Some image /\
    vsize image = 44 + vsize twoFrames * 2 /\
    rd32 image 4 = Done (vsize image - 8) /\
    rd16 image 20 = Done 1 /\
    rd16 image 22 = Done 2 /\
    rd32 image 24 = Done 44100 /\
    rd16 image 32 = Done (2 * 2) /\
    rd16 image 34 = Done (8 * 2) /\
    rd32 image 40 = Done (vsize image - 44).
Proof.
  apply (WriteWaveFile_header startup emptyDisk "a.wav" twoFrames 2 44100 2);
    try lia; try reflexivity.
  - discriminate.
  - apply not_elem_of_empty.
Defined.

(** ** PCM samples in a buffer *)

(** X9: a sample stored in a buffer and loaded again.  With room for
    [numBytes] bytes (1 to 4) at [PCM], [FloatToPCM] is defined, keeps
    the length of the buffer and every byte outside
    [PCM .. PCM + numBytes - 1], and [PCMToFloat] at [PCM] then returns
    the sample after its trip through the code, whatever surrounds it. *)
Theorem FloatToPCM_PCMToFloat (data : list byte) (PCM : Z) (x : float)
    (numBytes : Z) :
  1 <= numBytes <= 4 -> 0 <= PCM -> PCM + numBytes <= vsize data ->
  vsize data < 2 ^ 63 ->
  exists data',
    FloatToPCM data PCM x numBytes = Done data' /\
    length data' = length data /\
    (forall i, 0 <= i -> i < PCM \/ PCM + numBytes <= i ->
               bget data' i = bget data i) /\
    PCMToFloat data' PCM numBytes = Done (quantize numBytes x).
Proof.
  intros Hn HPCM Hroom Hfit.
  set (pre := take (Z.to_nat PCM) data).
  set (old := take (Z.to_nat numBytes) (drop (Z.to_nat PCM) data)).
  set (post := drop (Z.to_nat numBytes) (drop (Z.to_nat PCM) data)).
  assert (Hdata : data = pre ++ old ++ post)
    by (unfold pre, old, post; now rewrite !take_drop).
  assert (Hpre : vsize pre = PCM)
    by (unfold pre, vsize in *; rewrite length_take; lia).
  assert (Hold : vsize old = numBytes)
    by (unfold old, vsize in *; rewrite length_take, length_drop; lia).
  clearbody pre old post. subst data.
  destruct (FloatToPCM_splice pre old post x numBytes Hn Hold
              ltac:(rewrite size_mod_eq; lia)) as (Hwrite & Hsize).
  rewrite Hpre in Hwrite.
  exists (pre ++ encodeSample numBytes x ++ post). split; [exact Hwrite |].
  split; [| split].
  - unfold vsize in *. rewrite !length_app. lia.
  - intros i Hi Hout. unfold bget.
    destruct Hout as [Hlow | Hhigh].
    + rewrite !(lookup_app_l pre) by (unfold vsize in *; lia). reflexivity.
    + unfold vsize in *.
      rewrite !(lookup_app_r pre) by lia.
      rewrite (lookup_app_r (encodeSample numBytes x)) by lia.
      rewrite (lookup_app_r old) by lia.
      replace (length (encodeSample numBytes x)) with (length old) by lia.
      reflexivity.
  - rewrite <- Hpre.
    apply (PCMToFloat_at pre (encodeSample numBytes x) post numBytes Hn Hsize).
    rewrite size_mod_eq. lia.
Qed.

Lemma FloatToPCM_PCMToFloat_witness :
  exists data',
    FloatToPCM (replicate 4 Byte.xff) 1 half 2 = Done data' /\
    length data' = length (replicate 4 Byte.xff) /\
    (forall i, 0 <= i -> i < 1 \/ 1 + 2 <= i ->
               bget data' i = bget (replicate 4 Byte.xff) i) /\
    PCMToFloat data' 1 2 = Done (quantize 2 half).
Proof.
  apply (FloatToPCM_PCMToFloat (replicate 4 Byte.xff) 1 half 2).
  - lia.
  - lia.
  - vm_compute. discriminate.
  - vm_compute. reflexivity.
Defined.

(** X10: the 16-bit and the 24-bit code of a sample are the two and the
    three high bytes of its 32-bit code, and a 16-bit or 24-bit code
    decodes as the 32-bit code with zero low bytes: the narrow formats
    truncate, they do not round. *)
Theorem PCM_narrow_codes (x : float) (b0 b1 b2 : byte) :
  encodeSample 2 x = drop 2 (encodeSample 4 x) /\
  encodeSample 3 x = drop 1 (encodeSample 4 x) /\
  decodeSample 2 [b0; b1] = decodeSample 4 [Byte.x00; Byte.x00; b0; b1] /\
  decodeSample 3 [b0; b1; b2] = decodeSample 4 [Byte.x00; b0; b1; b2].
Proof.
  split; [| split].
  - unfold encodeSample, FloatToPCM.
    set (d := if F32.ltb x F32.zero then _ else _). clearbody d. reflexivity.
  - unfold encodeSample, FloatToPCM.
    set (d := if F32.ltb x F32.zero then _ else _). clearbody d. reflexivity.
  - assert (H0 : forall z, Z.lor z (byte_to_Z Byte.x00) = z)
      by (intros; apply Z.lor_0_r).
    assert (H8 : uint32 (Z.shiftl (byte_to_Z Byte.x00) 8) = 0) by reflexivity.
    unfold decodeSample, PCMToFloat.
    change (wrap (0 + 3)) with 3. change (wrap (0 + 2)) with 2.
    change (wrap (0 + 1)) with 1.
    cbn [Z.eqb Pos.eqb].
    rewrite ?bget_0, ?bget_1, ?bget_2, ?bget_3. cbn [mbind outcome_bind].
    rewrite ?H0, ?H8, ?Z.lor_0_r. split; reflexivity.
Qed.

(** ** Every 8-bit and every 16-bit code *)

Lemma allBytes_complete (b : byte) : In b allBytes.
Proof.
  rewrite <- (byte_of_to_Z b). apply in_map.
  apply list_elem_of_In, elem_of_seqZ.
  pose proof (byte_to_Z_range b). lia.
Qed.

Lemma normalizedb_spec (x : float) : normalizedb x = true -> normalized x.
Proof. unfold normalizedb, normalized. now intros (H1 & H2)%andb_true_iff. Qed.

Lemma all_check8 : forallb check8 allBytes = true.
Proof. vm_compute. reflexivity. Qed.

Lemma all_check16 :
  forallb (fun b1 => forallb (check16 b1) allBytes) allBytes = true.
Proof. vm_compute. reflexivity. Qed.

(** X11: the 8-bit codes.  Each of the 256 codes decodes to a finite
    sample of magnitude at most 1 that is not zero: the 8-bit format of
    this program has no code for silence. *)
Theorem PCM8_decoded (b : byte) :
  normalized (decodeSample 1 [b]) /\
  F32.eqb (decodeSample 1 [b]) F32.zero = false.
Proof.
  pose proof (proj1 (forallb_forall check8 allBytes) all_check8 b
                (allBytes_complete b)) as H.
  unfold check8 in H.
  apply andb_true_iff in H as (H & _). apply andb_true_iff in H as (H1 & H2).
  split; [now apply normalizedb_spec | now apply negb_true_iff].
Qed.

(** X12: an 8-bit code that is decoded and encoded again comes back one
    lower when it is in 1 .. 63, and unchanged otherwise. *)
Theorem PCM8_recoded (b : byte) :
  encodeSample 1 (decodeSample 1 [b]) = [byte_of_Z (recoded8 (byte_to_Z b))].
Proof.
  pose proof (proj1 (forallb_forall check8 allBytes) all_check8 b
                (allBytes_complete b)) as H.
  unfold check8 in H. apply andb_true_iff in H as (_ & H).
  destruct (encodeSample 1 (decodeSample 1 [b])) as [|c [|]]; try discriminate.
  apply Z.eqb_eq in H. now rewrite <- H, byte_of_to_Z.
Qed.

(** X13: the 16-bit codes.  Each of the 65536 codes decodes to a finite
    sample of magnitude at most 1. *)
Theorem PCM16_decoded (b0 b1 : byte) : normalized (decodeSample 2 [b0; b1]).
Proof.
  pose proof (proj1 (forallb_forall _ allBytes) all_check16 b1
                (allBytes_complete b1)) as H. cbv beta in H.
  pose proof (proj1 (forallb_forall _ allBytes) H b0 (allBytes_complete b0)) as H'.
  unfold check16 in H'. apply andb_true_iff in H' as (H' & _).
  now apply normalizedb_spec.
Qed.

(** X14: a 16-bit code that is decoded and encoded again comes back one
    lower when it is positive (1 .. 32767 as an unsigned integer), and
    unchanged when it is zero or negative: a positive sample loses one
    unit in every cycle of reading and writing. *)
Theorem PCM16_recoded (b0 b1 : byte) :
  rd16 (encodeSample 2 (decodeSample 2 [b0; b1])) 0
  = Done (recoded16 (byte_to_Z b0 + 2 ^ 8 * byte_to_Z b1)).
Proof.
  pose proof (proj1 (forallb_forall _ allBytes) all_check16 b1
                (allBytes_complete b1)) as H. cbv beta in H.
  pose proof (proj1 (forallb_forall _ allBytes) H b0 (allBytes_complete b0)) as H'.
  unfold check16 in H'. apply andb_true_iff in H' as (_ & H').
  destruct (rd16 _ 0) as [s | |]; try discriminate.
  apply Z.eqb_eq in H'. now rewrite H'.
Qed.

(** ** Runs that do not go wrong *)

Lemma safe_bind {A B} (P : A -> Prop) (Q : B -> Prop)
    (m : outcome A) (k : A -> outcome B) :
  safe P m -> (forall a, P a -> safe Q (k a)) -> safe Q (m ≫= k).
Proof. destruct m; simpl; auto. Qed.

Lemma safe_weaken {A} (P Q : A -> Prop) (r : outcome A) :
  safe P r -> (forall a, P a -> Q a) -> safe Q r.
Proof. destruct r; simpl; auto. Qed.

Lemma safe_for_range {St : Type} (I : Z -> St -> Prop) body count :
  forall i (s : St),
    I i s ->
    (forall j t, i <= j < i + Z.of_nat count -> I j t ->
                 safe (I (j + 1)) (body j t)) ->
    safe (I (i + Z.of_nat count)) (for_range count i body s).
Proof.
  induction count as [|count IH]; intros i s Hs Hbody.
  - simpl. now rewrite Z.add_0_r.
  - cbn [for_range]. apply (safe_bind (I (i + 1))).
    + apply Hbody; [lia | exact Hs].
    + intros t Ht.
      replace (i + Z.of_nat (S count)) with (i + 1 + Z.of_nat count) by lia.
      apply IH; [exact Ht |]. intros j u Hj. apply Hbody. lia.
Qed.

Lemma reported_refl p : reported p p.
Proof. now left. Qed.

Lemma reported_trans p1 p2 p3 : reported p1 p2 -> reported p2 p3 -> reported p1 p3.
Proof.
  intros [-> | (H1 & ->)] [-> | (H2 & ->)]; unfold reported; auto.
  discriminate.
Qed.

Lemma reported_reportCrossFade p isFinalGrain crossFadeSize n :
  reported p (reportCrossFade p isFinalGrain crossFadeSize n).
Proof.
  unfold reportCrossFade, reported.
  destruct (negb isFinalGrain && (n <? crossFadeSize)); auto.
  destruct (reportedError p); auto.
Qed.

(** ** The grain writer, for any fuel *)

Section SplatSafe.

Variable input : list float.
Variable numChannels : Z.
Hypothesis input_nonempty : input <> [].
Hypothesis input_fits : vsize input <= max_size.
Hypothesis channels_range : 1 <= numChannels < 65536.

Lemma frame_write_frame (out : list float) (outputIndex : Z)
    (pos envelope : float) :
  vsize out <= max_size -> 0 <= outputIndex ->
  outputIndex + numChannels <= vsize out ->
  exists out',
    for_range (Z.to_nat numChannels) 0 (fun channel output =>
      x ← SampleChannelFractional input pos channel numChannels;
      old ← vget output (wrap (outputIndex + channel));
      vset output (wrap (outputIndex + channel)) (old + x * envelope)%f32) out
    = Done out' /\ length out' = length out /\
    forall i : nat,
      Z.of_nat i < outputIndex \/ outputIndex + numChannels <= Z.of_nat i ->
      out' !! i = out !! i.
Proof.
  intros Hfit Hidx Hroom.
  destruct (for_range_inv
              (fun _ o => length o = length out /\
                 forall i : nat,
                   Z.of_nat i < outputIndex \/
                   outputIndex + numChannels <= Z.of_nat i ->
                   o !! i = out !! i)
              (fun channel output =>
                 x ← SampleChannelFractional input pos channel numChannels;
                 old ← vget output (wrap (outputIndex + channel));
                 vset output (wrap (outputIndex + channel)) (old + x * envelope)%f32)
              (Z.to_nat numChannels) 0 out) as (out' & Hrun & Hlen & Hsame).
  - auto.
  - intros ch o Hch (Ho & Hsame).
    destruct (SampleChannelFractional_defined input pos ch numChannels
                input_nonempty input_fits) as (x & ->).
    simpl. rewrite max_size_eq in Hfit.
    assert (Hin : 0 <= outputIndex + ch < vsize o).
    { unfold vsize in *. rewrite Ho. lia. }
    rewrite (wrap_small (outputIndex + ch))
      by (unfold vsize in *; rewrite size_mod_eq; lia).
    destruct (vget_in_range o _ Hin) as (old & _ & ->). simpl.
    rewrite vset_in_range by exact Hin.
    eexists. split; [reflexivity |]. split; [now rewrite length_insert |].
    intros i Hi. rewrite list_lookup_insert_ne by lia. now apply Hsame.
  - eauto.
Qed.

Lemma SplatLoop_safe grainStart grainSize crossFade crossFadeSize
    pitchMultiplier (outputSampleIndex : Z) :
  0 <= outputSampleIndex ->
  forall fuel out outputIndex sample numSamplesWritten,
    vsize out <= max_size -> 0 <= numSamplesWritten ->
    outputIndex = (outputSampleIndex + numSamplesWritten) * numChannels ->
    outputIndex <= vsize out ->
    safe (fun '(out', n) =>
            length out' = length out /\ numSamplesWritten <= n /\
            (outputSampleIndex + n) * numChannels <= vsize out /\
            forall i : nat,
              Z.of_nat i < outputIndex \/
              (outputSampleIndex + n) * numChannels <= Z.of_nat i ->
              out' !! i = out !! i)
      (SplatLoop fuel input numChannels grainStart grainSize crossFade
         crossFadeSize pitchMultiplier out outputIndex sample numSamplesWritten).
Proof.
  intros Hoff fuel.
  induction fuel as [|fuel IH];
    intros out outputIndex sample n Hfit Hn Hidx Hle;
    pose proof Hfit as Hfit'; rewrite max_size_eq in Hfit'; cbn [SplatLoop].
  - destruct (negb _); [simpl; subst; auto with lia |].
    destruct (vsize out <? wrap (outputIndex + numChannels)) eqn:E;
      [simpl; subst; auto with lia |].
    destruct (vsize input <? _); [simpl; subst; auto with lia |].
    exact I.
  - destruct (negb _); [simpl; subst; auto with lia |].
    destruct (vsize out <? wrap (outputIndex + numChannels)) eqn:E;
      [simpl; subst; auto with lia |].
    apply Z.ltb_ge in E. revert E.
    rewrite (wrap_small (outputIndex + numChannels)) by (rewrite size_mod_eq; lia).
    intros E.
    destruct (vsize input <? _); [simpl; subst; auto with lia |].
    destruct (frame_write_frame out outputIndex
                (F32.of_size grainStart + sample)%f32
                (grainEnvelope crossFade crossFadeSize sample)
                Hfit ltac:(nia) E) as (out1 & -> & Hlen1 & Hsame1).
    cbn [mbind outcome_bind].
    assert (Hsz : vsize out1 = vsize out) by (unfold vsize; now rewrite Hlen1).
    rewrite (wrap_small (n + 1)) by (rewrite size_mod_eq; nia).
    eapply safe_weaken.
    + apply (IH out1 (outputIndex + numChannels)
               (sample + pitchMultiplier)%f32 (n + 1)); rewrite ?Hsz; lia.
    + intros [out' n'] (H1 & H2 & H3 & H4). rewrite Hsz in H3.
      repeat split; try lia.
      intros i Hi. rewrite H4 by lia. apply Hsame1. subst outputIndex. nia.
Qed.

(** The call, at an offset inside the output. *)
Lemma SplatGrainToOutput_safe (fuel : nat) (p : Process) (out : list float)
    (grainStart grainSize outputSampleIndex : Z) (crossFade : ECrossFade)
    (crossFadeSize : Z) (pitchMultiplier : float) (isFinalGrain : bool) :
  vsize out <= max_size ->
  0 <= outputSampleIndex <= perChannel out numChannels ->
  safe (fun '(p', out', n) =>
          reported p p' /\ length out' = length out /\ 0 <= n /\
          outputSampleIndex + n <= perChannel out numChannels /\
          forall i : nat,
            ~ inFrames numChannels outputSampleIndex n i ->
            out' !! i = out !! i)
    (SplatGrainToOutput fuel p input out numChannels grainStart grainSize
       outputSampleIndex crossFade crossFadeSize pitchMultiplier isFinalGrain).
Proof.
  intros Hout Hoff. unfold perChannel in *.
  assert (Hmul : outputSampleIndex * numChannels <= vsize out).
  { pose proof (Z.mul_div_le (vsize out) numChannels ltac:(lia)). nia. }
  pose proof Hout as Hout'. rewrite max_size_eq in Hout'.
  unfold SplatGrainToOutput.
  rewrite (wrap_small (outputSampleIndex * numChannels))
    by (rewrite size_mod_eq; nia).
  apply (safe_bind
           (fun '(out', n) =>
              length out' = length out /\ 0 <= n /\
              (outputSampleIndex + n) * numChannels <= vsize out /\
              forall i : nat,
                Z.of_nat i < outputSampleIndex * numChannels \/
                (outputSampleIndex + n) * numChannels <= Z.of_nat i ->
                out' !! i = out !! i)).
  - apply (SplatLoop_safe grainStart grainSize crossFade crossFadeSize
             pitchMultiplier outputSampleIndex ltac:(lia) fuel out
             (outputSampleIndex * numChannels) F32.zero 0); lia.
  - intros [out' n] (Hlen & Hn & Hle & Hsame). simpl.
    split; [apply reported_reportCrossFade |].
    repeat split; try lia.
    + apply Z.div_le_lower_bound; lia.
    + intros i Hi. apply Hsame. unfold inFrames in Hi. lia.
Qed.

End SplatSafe.

(** ** The engines, for any fuel *)

Section EngineSafe.

Variable input : list float.
Variable numChannels : Z.
Hypothesis input_nonempty : input <> [].
Hypothesis input_fits : vsize input <= max_size.
Hypothesis channels_range : 1 <= numChannels < 65536.

Variable size : nat.
Hypothesis output_fits : Z.of_nat size <= max_size.
Variable p0 : Process.

Lemma splat_step (fuel : nat) (s : Engine) (grainStart grainSize : Z)
    (crossFade : ECrossFade) (crossFadeSize : Z) (pitchMultiplier : float)
    (isFinalGrain : bool) :
  engineInv numChannels size p0 s ->
  safe (fun '(p', out', n) =>
          reported p0 p' /\ length out' = size /\ 0 <= n /\
          outputSampleIndex s + n <= Z.of_nat size / numChannels)
    (SplatGrainToOutput fuel (proc s) input (output s) numChannels grainStart
       grainSize (outputSampleIndex s) crossFade crossFadeSize pitchMultiplier
       isFinalGrain).
Proof.
  intros (Hlen & Hidx & Hrep).
  eapply safe_weaken.
  - apply (SplatGrainToOutput_safe input numChannels input_nonempty input_fits
             channels_range fuel (proc s) (output s) grainStart grainSize
             (outputSampleIndex s) crossFade crossFadeSize pitchMultiplier
             isFinalGrain).
    + unfold vsize. rewrite Hlen. exact output_fits.
    + unfold perChannel, vsize. rewrite Hlen. exact Hidx.
  - intros [[p' out'] n] (H1 & H2 & H3 & H4 & _).
    unfold perChannel, vsize in H4. rewrite Hlen in H4, H2.
    repeat split; try assumption. eapply reported_trans; eassumption.
Qed.

Lemma cursor_fits (s : Engine) (n : Z) :
  0 <= outputSampleIndex s -> 0 <= n ->
  outputSampleIndex s + n <= Z.of_nat size / numChannels ->
  wrap (outputSampleIndex s + n) = outputSampleIndex s + n.
Proof.
  intros H0 Hn Hle. apply wrap_small.
  pose proof output_fits as Hfit. rewrite max_size_eq in Hfit.
  pose proof (Z.div_le_upper_bound (Z.of_nat size) numChannels (Z.of_nat size)
                ltac:(lia) ltac:(nia)).
  rewrite size_mod_eq. lia.
Qed.

Lemma GrainStep_safe (fuel : nat)
    (grainSizeSamples crossFadeSizeSamples numGrains : Z)
    (pitchMultiplier : float) (grain : Z) (s : Engine) :
  engineInv numChannels size p0 s ->
  safe (engineInv numChannels size p0)
    (GrainStep fuel input numChannels grainSizeSamples crossFadeSizeSamples
       numGrains pitchMultiplier grain s).
Proof.
  intros Hs. pose proof Hs as (Hlen & Hidx & Hrep). unfold GrainStep.
  destruct ((lastGrainWritten s =? SIZE_MAX)
            || (lastGrainWritten s =? wrap (grain - 1))).
  - eapply safe_bind; [apply (splat_step fuel s); exact Hs |].
    intros [[p' out'] n] (H1 & H2 & H3 & H4). cbn [safe].
    unfold engineInv. cbn [proc output outputSampleIndex engine].
    rewrite cursor_fits by lia. repeat split; assumption || lia.
  - eapply safe_bind; [apply (splat_step fuel s); exact Hs |].
    intros [[p1 out1] n1] (H1 & H2 & H3 & H4).
    eapply safe_bind.
    + apply (splat_step fuel
               {| proc := p1; output := out1;
                  outputSampleIndex := outputSampleIndex s;
                  lastGrainWritten := lastGrainWritten s |}).
      unfold engineInv. cbn [proc output outputSampleIndex].
      repeat split; assumption || lia.
    + intros [[p2 out2] n2] (K1 & K2 & K3 & K4). cbn [safe].
      cbn [proc output outputSampleIndex] in K4.
      unfold engineInv. cbn [proc output outputSampleIndex engine].
      rewrite cursor_fits by lia. repeat split; assumption || lia.
Qed.

Lemma GrainWhile_safe (step : Engine -> outcome Engine) (windowEnd : Z) :
  (forall s, engineInv numChannels size p0 s ->
             safe (engineInv numChannels size p0) (step s)) ->
  forall fuel s,
    engineInv numChannels size p0 s ->
    safe (engineInv numChannels size p0) (GrainWhile fuel step windowEnd s).
Proof.
  intros Hstep. induction fuel as [|fuel IH]; intros s Hs; cbn [GrainWhile];
    destruct (outputSampleIndex s <? windowEnd); try exact Hs; try exact I.
  eapply safe_bind; [apply Hstep; exact Hs | exact IH].
Qed.

Lemma DynGrainStep_safe (fuel : nat)
    (grainSizeSamples crossFadeSizeSamples numGrains : Z)
    (grain : Z) (pitchMultiplier : float) (s : DynEngine) :
  engineInv numChannels size p0 s ->
  safe (fun s' : DynEngine =>
          engineInv numChannels size p0 s' /\
          outputSampleWindowEnd s' = outputSampleWindowEnd s)
    (DynGrainStep fuel input numChannels grainSizeSamples crossFadeSizeSamples
       numGrains grain pitchMultiplier s).
Proof.
  intros Hs. pose proof Hs as (Hlen & Hidx & Hrep). unfold DynGrainStep.
  destruct ((lastGrainWritten s =? SIZE_MAX)
            || (lastGrainWritten s =? wrap (grain - 1))).
  - eapply safe_bind; [apply (splat_step fuel s); exact Hs |].
    intros [[p' out'] n] (H1 & H2 & H3 & H4). cbn [safe].
    unfold engineInv. cbn [proc output outputSampleIndex engine].
    rewrite cursor_fits by lia. repeat split; assumption || lia.
  - eapply safe_bind; [apply (splat_step fuel s); exact Hs |].
    intros [[p1 out1] n1] (H1 & H2 & H3 & H4).
    eapply safe_bind.
    + apply (splat_step fuel
               {| proc := p1; output := out1;
                  outputSampleIndex := outputSampleIndex s;
                  lastGrainWritten := lastGrainWritten s |}).
      unfold engineInv. cbn [proc output outputSampleIndex].
      repeat split; assumption || lia.
    + intros [[p2 out2] n2] (K1 & K2 & K3 & K4). cbn [safe].
      cbn [proc output outputSampleIndex] in K4.
      unfold engineInv. cbn [proc output outputSampleIndex engine].
      rewrite cursor_fits by lia. repeat split; assumption || lia.
Qed.

Lemma DynGrainWhile_safe (step : DynEngine -> outcome DynEngine) :
  (forall s : DynEngine, engineInv numChannels size p0 s ->
     safe (fun s' : DynEngine =>
             engineInv numChannels size p0 s' /\
             outputSampleWindowEnd s' = outputSampleWindowEnd s) (step s)) ->
  forall fuel (s : DynEngine),
    engineInv numChannels size p0 s ->
    safe (fun s' : DynEngine => engineInv numChannels size p0 s')
      (DynGrainWhile fuel step s).
Proof.
  intros Hstep. induction fuel as [|fuel IH]; intros s Hs; cbn [DynGrainWhile];
    destruct (outputSampleIndex s <? outputSampleWindowEnd s);
    try exact Hs; try exact I.
  eapply safe_bind; [apply Hstep; exact Hs |].
  intros s' (Hs' & _). now apply IH.
Qed.

End EngineSafe.

(** X15: what a call of the grain writer leaves alone.  When a call on a
    non-empty input, at an offset inside the output, returns the count
    [n], every slot of the output outside the frames
    [outputSampleIndex .. outputSampleIndex + n - 1] holds what it held
    before, and the process state has changed by the one report at
    most. *)
Theorem SplatGrainToOutput_frame
    (fuel : nat) (p p' : Process) (input out out' : list float)
    (numChannels grainStart grainSize outputSampleIndex : Z)
    (crossFade : ECrossFade) (crossFadeSize : Z) (pitchMultiplier : float)
    (isFinalGrain : bool) (n : Z) :
  input <> [] -> vsize input <= max_size -> vsize out <= max_size ->
  1 <= numChannels < 65536 ->
  0 <= outputSampleIndex <= perChannel out numChannels ->
  SplatGrainToOutput fuel p input out numChannels grainStart grainSize
    outputSampleIndex crossFade crossFadeSize pitchMultiplier isFinalGrain
  = Done (p', out', n) ->
  reported p p' /\
  forall i : nat,
    ~ inFrames numChannels outputSampleIndex n i -> out' !! i = out !! i.
Proof.
  intros Hne Hin Hout Hc Hoff Hrun.
  pose proof (SplatGrainToOutput_safe input numChannels Hne Hin Hc fuel p out
                grainStart grainSize outputSampleIndex crossFade crossFadeSize
                pitchMultiplier isFinalGrain Hout Hoff) as H.
  rewrite Hrun in H. simpl in H. tauto.
Qed.

Lemma SplatGrainToOutput_frame_witness :
  reported startup startup /\
  forall i : nat,
    ~ inFrames 1 1 grainRunCount i ->
    grainRunOutput !! i = replicate 3 F32.zero !! i.
Proof.
  apply (SplatGrainToOutput_frame 3 startup startup (replicate 8 F32.one)
           (replicate 3 F32.zero) grainRunOutput 1 0 8 1 CrossFadeNone 0 half
           false grainRunCount).
  - discriminate.
  - vm_compute. discriminate.
  - vm_compute. discriminate.
  - lia.
  - vm_compute. split; discriminate.
  - vm_compute. reflexivity.
Defined.

Lemma GranularTimePitchAdjust_inv (fuel : nat) (p : Process)
    (input : list float) (numChannels sampleRate : Z)
    (timeMultiplier pitchMultiplier grainSizeSeconds crossFadeSeconds : float) :
  input <> [] -> vsize input <= max_size -> 1 <= numChannels < 65536 ->
  F32.to_size (F32.of_size sampleRate * grainSizeSeconds)%f32 <> 0 ->
  wrap (truncatedLength input numChannels timeMultiplier * numChannels)
    <= max_size ->
  safe (fun '(p', out) =>
          vsize out
          = wrap (truncatedLength input numChannels timeMultiplier * numChannels)
          /\ reported p p')
    (GranularTimePitchAdjust fuel p input numChannels sampleRate timeMultiplier
       pitchMultiplier grainSizeSeconds crossFadeSeconds).
Proof.
  intros Hne Hin Hc Hgrain Hout. unfold GranularTimePitchAdjust.
  rewrite (proj2 (Z.eqb_neq numChannels 0)) by lia.
  rewrite (proj2 (Z.eqb_neq _ 0) Hgrain).
  fold (perChannel input numChannels).
  fold (truncatedLength input numChannels timeMultiplier).
  set (total := wrap (truncatedLength input numChannels timeMultiplier
                      * numChannels)) in *.
  pose proof (wrap_range (truncatedLength input numChannels timeMultiplier
                          * numChannels)) as Htotal. fold total in Htotal.
  set (size := Z.to_nat total).
  assert (Hsize : Z.of_nat size = total) by (unfold size; lia).
  eapply safe_bind.
  - apply (safe_for_range (fun _ s => engineInv numChannels size p s)).
    + unfold engineInv. cbn [proc output outputSampleIndex].
      rewrite length_replicate. repeat split; try reflexivity; try lia.
      * apply Z.div_pos; lia.
      * apply reported_refl.
    + intros grain s _ Hs. unfold GrainWindow.
      apply (GrainWhile_safe numChannels size p); [| exact Hs].
      intros s' Hs'.
      apply (GrainStep_safe input numChannels Hne Hin Hc size
               ltac:(rewrite Hsize; exact Hout)); exact Hs'.
  - intros s (Hlen & _ & Hrep). simpl. split; [| exact Hrep].
    unfold vsize. rewrite Hlen. exact Hsize.
Qed.

(** X16: the engine with fixed parameters does not go wrong.  On a
    non-empty input, with a grain of at least one sample and an output
    that fits in a vector, a run performs no access outside a vector
    and no division by zero, for any multipliers, cross fade and fuel;
    when it returns, the output has the length
    [truncatedLength * numChannels] it was given at the start and the
    cross fade report was printed at most once, and not at all if it
    had been before. *)
Theorem GranularTimePitchAdjust_safe (fuel : nat) (p : Process)
    (input : list float) (numChannels sampleRate : Z)
    (timeMultiplier pitchMultiplier grainSizeSeconds crossFadeSeconds : float) :
  input <> [] -> vsize input <= max_size -> 1 <= numChannels < 65536 ->
  F32.to_size (F32.of_size sampleRate * grainSizeSeconds)%f32 <> 0 ->
  wrap (truncatedLength input numChannels timeMultiplier * numChannels)
    <= max_size ->
  GranularTimePitchAdjust fuel p input numChannels sampleRate timeMultiplier
    pitchMultiplier grainSizeSeconds crossFadeSeconds <> Undefined /\
  forall p' out,
    GranularTimePitchAdjust fuel p input numChannels sampleRate timeMultiplier
      pitchMultiplier grainSizeSeconds crossFadeSeconds = Done (p', out) ->
    vsize out
    = wrap (truncatedLength input numChannels timeMultiplier * numChannels) /\
    reported p p'.
Proof.
  intros Hne Hin Hc Hgrain Hout.
  pose proof (GranularTimePitchAdjust_inv fuel p input numChannels sampleRate
                timeMultiplier pitchMultiplier grainSizeSeconds crossFadeSeconds
                Hne Hin Hc Hgrain Hout) as H.
  split.
  - intros E. now rewrite E in H.
  - intros p' out E. now rewrite E in H.
Qed.

Lemma GranularTimePitchAdjust_safe_witness :
  GranularTimePitchAdjust 5 startup (replicate 4 F32.one) 1 2 F32.one F32.one
    F32.one half <> Undefined /\
  forall p' out,
    GranularTimePitchAdjust 5 startup (replicate 4 F32.one) 1 2 F32.one F32.one
      F32.one half = Done (p', out) ->
    vsize out = wrap (truncatedLength (replicate 4 F32.one) 1 F32.one * 1) /\
    reported startup p'.
Proof.
  apply (GranularTimePitchAdjust_safe 5 startup (replicate 4 F32.one) 1 2
           F32.one F32.one F32.one half).
  - discriminate.
  - vm_compute. discriminate.
  - lia.
  - vm_compute. discriminate.
  - vm_compute. discriminate.
Defined.

(** X17: the engine with per-grain parameters does not go wrong.  Under
    the same conditions, for any callback, a run performs no access
    outside a vector and no division by zero; when it returns, the
    output has the length the sizing pass computed, times the channel
    count, and the report was printed at most once. *)
Theorem GranularTimePitchAdjustDynamic_safe (fuel : nat) (p : Process)
    (input : list float) (numChannels sampleRate : Z)
    (grainSizeSeconds crossFadeSeconds : float)
    (settingsCallback : SettingsCallback) (numOutputSamples : Z) :
  input <> [] -> vsize input <= max_size -> 1 <= numChannels < 65536 ->
  F32.to_size (F32.of_size sampleRate * grainSizeSeconds)%f32 <> 0 ->
  DynamicOutputSamples (vsize input)
    (F32.to_size (F32.of_size sampleRate * grainSizeSeconds)%f32)
    (grainCount (vsize input / numChannels)
       (F32.to_size (F32.of_size sampleRate * grainSizeSeconds)%f32))
    settingsCallback = Done numOutputSamples ->
  wrap (numOutputSamples * numChannels) <= max_size ->
  GranularTimePitchAdjustDynamic fuel p input numChannels sampleRate
    grainSizeSeconds crossFadeSeconds settingsCallback <> Undefined /\
  forall p' out,
    GranularTimePitchAdjustDynamic fuel p input numChannels sampleRate
      grainSizeSeconds crossFadeSeconds settingsCallback = Done (p', out) ->
    vsize out = wrap (numOutputSamples * numChannels) /\ reported p p'.
Proof.
  intros Hne Hin Hc Hgrain Hsizing Hout.
  assert (H : safe (fun '(p', out) =>
                      vsize out = wrap (numOutputSamples * numChannels) /\
                      reported p p')
                (GranularTimePitchAdjustDynamic fuel p input numChannels
                   sampleRate grainSizeSeconds crossFadeSeconds
                   settingsCallback)).
  { unfold GranularTimePitchAdjustDynamic.
    rewrite (proj2 (Z.eqb_neq numChannels 0)) by lia.
    rewrite (proj2 (Z.eqb_neq _ 0) Hgrain).
    cbv zeta. rewrite Hsizing. cbn [mbind outcome_bind].
    set (total := wrap (numOutputSamples * numChannels)) in *.
    pose proof (wrap_range (numOutputSamples * numChannels)) as Htotal.
    fold total in Htotal.
    set (size := Z.to_nat total).
    assert (Hsize : Z.of_nat size = total) by (unfold size; lia).
    eapply safe_bind.
    - apply (safe_for_range (St := DynEngine)
               (fun _ s => engineInv numChannels size p s)).
      + unfold engineInv. cbn [engine proc output outputSampleIndex].
        rewrite length_replicate. repeat split; try reflexivity; try lia.
        * apply Z.div_pos; lia.
        * apply reported_refl.
      + intros grain s _ Hs.
        destruct (settingsCallback _ _) as [tm pm].
        apply (DynGrainWhile_safe numChannels size p); [| exact Hs].
        intros s' Hs'.
        apply (DynGrainStep_safe input numChannels Hne Hin Hc size
                 ltac:(rewrite Hsize; exact Hout)); exact Hs'.
    - intros s (Hlen & _ & Hrep). simpl. split; [| exact Hrep].
      unfold vsize. rewrite Hlen. exact Hsize. }
  split.
  - intros E. now rewrite E in H.
  - intros p' out E. now rewrite E in H.
Qed.

Lemma GranularTimePitchAdjustDynamic_safe_witness :
  GranularTimePitchAdjustDynamic 5 startup (replicate 4 F32.one) 1 2 F32.one
    half unitSettings <> Undefined /\
  forall p' out,
    GranularTimePitchAdjustDynamic 5 startup (replicate 4 F32.one) 1 2 F32.one
      half unitSettings = Done (p', out) ->
    vsize out = wrap (4 * 1) /\ reported startup p'.
Proof.
  apply (GranularTimePitchAdjustDynamic_safe 5 startup (replicate 4 F32.one) 1 2
           F32.one half unitSettings 4).
  - discriminate.
  - vm_compute. discriminate.
  - lia.
  - vm_compute. discriminate.
  - vm_compute. reflexivity.
  - vm_compute. discriminate.
Defined.

(** ** Edge cases of the resampler and of the engines *)

(** X18: [TimeAdjust] overwrites its output.  The buffer it returns does
    not depend on what the output vector held, or how long it was,
    before the call. *)
Theorem TimeAdjust_overwrites (input output1 output2 : list float)
    (numChannels : Z) (timeMultiplier : float) :
  1 <= numChannels -> vsize input <= max_size ->
  truncatedLength input numChannels timeMultiplier * numChannels <= max_size ->
  exists out,
    TimeAdjust input output1 numChannels timeMultiplier = Done out /\
    TimeAdjust input output2 numChannels timeMultiplier = Done out.
Proof.
  intros Hc Hin Hout.
  destruct (TimeAdjust_filled input output1 numChannels timeMultiplier Hc Hin Hout)
    as (o1 & -> & Hlen1 & Hget1).
  destruct (TimeAdjust_filled input output2 numChannels timeMultiplier Hc Hin Hout)
    as (o2 & -> & Hlen2 & Hget2).
  exists o1. split; [reflexivity |]. f_equal. symmetry.
  set (total := truncatedLength input numChannels timeMultiplier) in *.
  apply list_eq. intros i.
  destruct (decide (i < length o1)%nat) as [Hi | Hi].
  - set (k := Z.of_nat i / numChannels). set (ch := Z.of_nat i mod numChannels).
    assert (Hidx : Z.of_nat i = k * numChannels + ch).
    { unfold k, ch. rewrite Z.mul_comm. apply Z.div_mod. lia. }
    assert (Hch : 0 <= ch < numChannels) by (apply Z.mod_pos_bound; lia).
    assert (Hk : 0 <= k < total).
    { split; [apply Z.div_pos; lia |].
      apply Z.div_lt_upper_bound; [lia |]. unfold vsize in *. lia. }
    pose proof (Hget1 k ch Hk Hch) as G1. pose proof (Hget2 k ch Hk Hch) as G2.
    rewrite <- G2 in G1. rewrite <- Hidx in G1. unfold vget in G1.
    rewrite Nat2Z.id in G1.
    destruct (lookup_lt_is_Some_2 o1 i Hi) as (x1 & E1).
    destruct (lookup_lt_is_Some_2 o2 i ltac:(unfold vsize in *; lia)) as (x2 & E2).
    rewrite E1, E2 in *. congruence.
  - rewrite !lookup_ge_None_2; [reflexivity | unfold vsize in *; lia..].
Qed.

Lemma TimeAdjust_overwrites_witness :
  exists out,
    TimeAdjust spike [] 1 F32.two = Done out /\
    TimeAdjust spike (replicate 9 F32.five) 1 F32.two = Done out.
Proof.
  apply (TimeAdjust_overwrites spike [] (replicate 9 F32.five) 1 F32.two).
  - lia.
  - vm_compute. discriminate.
  - vm_compute. discriminate.
Defined.

(** X19: an input shorter than one frame.  With fewer samples than
    channels (an empty input, for instance) the resampler and both
    engines return an empty output: no sample is read, nothing is
    printed, no fuel is used. *)
Theorem short_input_empty_output (fuel : nat) (p : Process)
    (input output : list float) (numChannels sampleRate : Z)
    (timeMultiplier pitchMultiplier grainSizeSeconds crossFadeSeconds : float)
    (settingsCallback : SettingsCallback) :
  1 <= numChannels -> vsize input < numChannels -> finite timeMultiplier ->
  F32.to_size (F32.of_size sampleRate * grainSizeSeconds)%f32 <> 0 ->
  TimeAdjust input output numChannels timeMultiplier = Done [] /\
  GranularTimePitchAdjust fuel p input numChannels sampleRate timeMultiplier
    pitchMultiplier grainSizeSeconds crossFadeSeconds = Done (p, []) /\
  GranularTimePitchAdjustDynamic fuel p input numChannels sampleRate
    grainSizeSeconds crossFadeSeconds settingsCallback = Done (p, []).
Proof.
  intros Hc Hshort Hfin Hgrain.
  assert (Hframes : vsize input / numChannels = 0)
    by (apply Z.div_small; pose proof (vsize_nonneg input); lia).
  assert (Hzero : F32.to_size (F32.of_size 0 * timeMultiplier)%f32 = 0)
    by apply F32Facts.to_size_mul_zero.
  assert (Hgrains : forall g, g <> 0 -> grainCount 0 g = 0).
  { intros g Hg. unfold grainCount. now rewrite Zmod_0_l, Zdiv_0_l. }
  split; [| split].
  - unfold TimeAdjust. rewrite (proj2 (Z.eqb_neq numChannels 0)) by lia.
    rewrite Hframes, Hzero, Z.mul_0_l. change (wrap 0) with 0.
    change (Z.to_nat 0) with 0%nat. rewrite resize_0. reflexivity.
  - unfold GranularTimePitchAdjust.
    rewrite (proj2 (Z.eqb_neq numChannels 0)) by lia.
    rewrite (proj2 (Z.eqb_neq _ 0) Hgrain).
    rewrite Hframes, Hzero, (Hgrains _ Hgrain). reflexivity.
  - unfold GranularTimePitchAdjustDynamic.
    rewrite (proj2 (Z.eqb_neq numChannels 0)) by lia.
    rewrite (proj2 (Z.eqb_neq _ 0) Hgrain).
    rewrite Hframes, (Hgrains _ Hgrain). reflexivity.
Qed.

Lemma short_input_empty_output_witness :
  TimeAdjust [F32.one] (replicate 3 F32.five) 2 F32.two = Done [] /\
  GranularTimePitchAdjust 0 startup [F32.one] 2 2 F32.two F32.one F32.one half
  = Done (startup, []) /\
  GranularTimePitchAdjustDynamic 0 startup [F32.one] 2 2 F32.one half
    unitSettings = Done (startup, []).
Proof.
  apply (short_input_empty_output 0 startup [F32.one] (replicate 3 F32.five) 2 2
           F32.two F32.one F32.one half unitSettings).
  - lia.
  - vm_compute. reflexivity.
  - exact I.
  - vm_compute. discriminate.
Defined.

(** ** A cross fade of no sample *)

Lemma mul_nan (x : float) : (x * S754_nan)%f32 = S754_nan.
Proof. destruct x; reflexivity. Qed.

Lemma add_nan (x : float) : (x + S754_nan)%f32 = S754_nan.
Proof. destruct x; reflexivity. Qed.

Lemma grainEnvelope_zero_size (crossFade : ECrossFade) :
  crossFade <> CrossFadeNone -> grainEnvelope crossFade 0 F32.zero = S754_nan.
Proof. destruct crossFade; [congruence | reflexivity | reflexivity]. Qed.

Lemma positive_size (n : Z) :
  0 < n < 2 ^ 24 -> F32.ltb F32.zero (F32.of_size n) = true.
Proof.
  intros Hn. destruct (F32Facts.of_size_small n Hn) as (m & e & -> & _).
  reflexivity.
Qed.

Lemma first_position (grainStart : Z) :
  0 <= grainStart < 2 ^ 24 ->
  F32.to_size (F32.of_size grainStart + F32.zero)%f32 = grainStart.
Proof.
  intros Hg. destruct (Z.eq_dec grainStart 0) as [-> | Hnz]; [reflexivity |].
  destruct (F32Facts.of_size_small grainStart ltac:(lia)) as (m & e & E & Hd & He & Hv).
  rewrite E. change (S754_finite false m e + F32.zero)%f32 with (S754_finite false m e).
  now apply F32Facts.to_size_small.
Qed.

Section ZeroCrossFade.

Variable input : list float.
Variable numChannels : Z.
Hypothesis input_nonempty : input <> [].
Hypothesis input_fits : vsize input <= max_size.
Hypothesis channels_range : 1 <= numChannels < 65536.

Lemma frame_write_nan (out : list float) (outputIndex : Z) (pos : float) :
  vsize out <= max_size -> 0 <= outputIndex ->
  outputIndex + numChannels <= vsize out ->
  exists out',
    for_range (Z.to_nat numChannels) 0 (fun channel output =>
      x ← SampleChannelFractional input pos channel numChannels;
      old ← vget output (wrap (outputIndex + channel));
      vset output (wrap (outputIndex + channel)) (old + x * S754_nan)%f32) out
    = Done out' /\ length out' = length out /\
    forall channel, 0 <= channel < numChannels ->
      out' !! Z.to_nat (outputIndex + channel) = Some S754_nan.
Proof.
  intros Hfit Hidx Hroom.
  destruct (for_range_inv
              (fun done o => length o = length out /\
                 forall channel, 0 <= channel < done ->
                   o !! Z.to_nat (outputIndex + channel) = Some S754_nan)
              (fun channel output =>
                 x ← SampleChannelFractional input pos channel numChannels;
                 old ← vget output (wrap (outputIndex + channel));
                 vset output (wrap (outputIndex + channel)) (old + x * S754_nan)%f32)
              (Z.to_nat numChannels) 0 out) as (out' & Hrun & Hlen & Hnan).
  - split; [reflexivity | intros; lia].
  - intros ch o Hch (Ho & Hdone).
    destruct (SampleChannelFractional_defined input pos ch numChannels
                input_nonempty input_fits) as (x & ->).
    simpl. rewrite max_size_eq in Hfit.
    assert (Hin : 0 <= outputIndex + ch < vsize o).
    { unfold vsize in *. rewrite Ho. lia. }
    rewrite (wrap_small (outputIndex + ch))
      by (unfold vsize in *; rewrite size_mod_eq; lia).
    destruct (vget_in_range o _ Hin) as (old & _ & ->). simpl.
    rewrite vset_in_range by exact Hin.
    eexists. split; [reflexivity |]. split; [now rewrite length_insert |].
    intros c Hc. rewrite mul_nan, add_nan.
    destruct (Z.eq_dec c ch) as [-> | Hne].
    + apply list_lookup_insert_eq. unfold vsize in Hin.
      apply Nat2Z.inj_lt. rewrite Z2Nat.id; [exact (proj2 Hin) | exact (proj1 Hin)].
    + rewrite list_lookup_insert_ne by lia. apply Hdone. lia.
  - exists out'. rewrite Z.add_0_l, Z2Nat.id in Hnan by lia. auto.
Qed.

End ZeroCrossFade.

(** X20: a cross fade of no sample.  A call of the grain writer with a
    fade in or a fade out and a cross fade size of 0 divides 0 by 0 for
    the envelope of its first sample.  On a non-empty input, with 1 to
    65535 channels and vectors within [max_size], when the output has
    room for one frame at [outputSampleIndex], the first frame of the
    grain lies inside the input ([grainStart] below [2^24] and below
    the per-channel input length) and the grain has 1 to [2^24 - 1]
    samples, a call that returns has written at least one frame, and
    every channel of the frame at [outputSampleIndex] holds a NaN,
    whatever the input and the output held. *)
Theorem SplatGrainToOutput_zero_cross_fade
    (fuel : nat) (p p' : Process) (input out out' : list float)
    (numChannels grainStart grainSize outputSampleIndex : Z)
    (crossFade : ECrossFade) (pitchMultiplier : float) (isFinalGrain : bool)
    (n : Z) :
  input <> [] -> vsize input <= max_size -> vsize out <= max_size ->
  1 <= numChannels < 65536 ->
  0 <= outputSampleIndex ->
  (outputSampleIndex + 1) * numChannels <= vsize out ->
  0 <= grainStart < 2 ^ 24 -> (grainStart + 1) * numChannels <= vsize input ->
  0 < grainSize < 2 ^ 24 ->
  crossFade <> CrossFadeNone ->
  SplatGrainToOutput fuel p input out numChannels grainStart grainSize
    outputSampleIndex crossFade 0 pitchMultiplier isFinalGrain
  = Done (p', out', n) ->
  1 <= n /\
  forall channel, 0 <= channel < numChannels ->
    out' !! Z.to_nat (outputSampleIndex * numChannels + channel)
    = Some S754_nan.
Proof.
  intros Hne Hin Hout Hc Hoff Hroom Hstart Hsrc Hsize Hfade.
  pose proof Hout as Hout'. rewrite max_size_eq in Hout'.
  pose proof Hin as Hin'. rewrite max_size_eq in Hin'.
  unfold SplatGrainToOutput.
  rewrite (wrap_small (outputSampleIndex * numChannels))
    by (rewrite size_mod_eq; nia).
  destruct fuel as [|fuel]; cbn [SplatLoop];
    rewrite (positive_size grainSize Hsize); cbn [negb];
    rewrite (wrap_small (outputSampleIndex * numChannels + numChannels))
      by (rewrite size_mod_eq; nia);
    rewrite (proj2 (Z.ltb_ge _ _)) by nia;
    rewrite (first_position grainStart Hstart);
    rewrite (wrap_small (grainStart * numChannels)) by (rewrite size_mod_eq; nia);
    rewrite (wrap_small (grainStart * numChannels + numChannels))
      by (rewrite size_mod_eq; nia);
    rewrite (proj2 (Z.ltb_ge _ _)) by nia;
    [discriminate |].
  rewrite (grainEnvelope_zero_size crossFade Hfade).
  destruct (frame_write_nan input numChannels Hne Hin Hc out
              (outputSampleIndex * numChannels)
              (F32.of_size grainStart + F32.zero)%f32 Hout ltac:(nia) ltac:(nia))
    as (out1 & -> & Hlen1 & Hnan).
  cbn [mbind outcome_bind].
  change (wrap (0 + 1)) with 1.
  pose proof (SplatLoop_safe input numChannels Hne Hin Hc grainStart grainSize
                crossFade 0 pitchMultiplier outputSampleIndex Hoff fuel out1
                (outputSampleIndex * numChannels + numChannels)
                (F32.zero + pitchMultiplier)%f32 1
                ltac:(unfold vsize in *; rewrite Hlen1; exact Hout) ltac:(lia)
                ltac:(lia) ltac:(unfold vsize in *; rewrite Hlen1; lia)) as Hrest.
  destruct (SplatLoop fuel _ _ _ _ _ _ _ _ _ _ _) as [[out2 n2] | |];
    cbn [mbind outcome_bind]; try discriminate.
  intros [= <- <- <-]. simpl in Hrest.
  destruct Hrest as (_ & Hn & _ & Hsame).
  split; [exact Hn |].
  intros ch Hch. rewrite Hsame by lia. now apply Hnan.
Qed.

Lemma SplatGrainToOutput_zero_cross_fade_witness :
  1 <= fadeRunCount /\
  forall channel, 0 <= channel < 1 ->
    fadeRunOutput !! Z.to_nat (0 * 1 + channel) = Some S754_nan.
Proof.
  apply (SplatGrainToOutput_zero_cross_fade 2 startup startup
           (replicate 4 F32.one) (replicate 2 F32.zero) fadeRunOutput 1 0 2 0
           CrossFadeIn F32.one true fadeRunCount).
  - discriminate.
  - vm_compute. discriminate.
  - vm_compute. discriminate.
  - lia.
  - lia.
  - vm_compute. discriminate.
  - lia.
  - vm_compute. discriminate.
  - lia.
  - discriminate.
  - vm_compute. reflexivity.
Defined.

(** ** Exact binary32 results on small integers *)

Module F32Exact.

Import F32Facts.

Lemma shr_1_exact q :
  0 <= q ->
  shr_1 {| shr_m := 2 * q; shr_r := false; shr_s := false |}
  = {| shr_m := q; shr_r := false; shr_s := false |}.
Proof. destruct q as [|p|p]; try lia; reflexivity. Qed.

Lemma iter_shr_1_exact n : forall q,
  0 <= q ->
  SpecFloat.iter_pos shr_1 n
    {| shr_m := q * 2 ^ Z.pos n; shr_r := false; shr_s := false |}
  = {| shr_m := q; shr_r := false; shr_s := false |}.
Proof.
  induction n as [n IH|n IH|]; intros q Hq.
  - assert (P : 0 < 2 ^ Z.pos n) by (apply Z.pow_pos_nonneg; lia).
    rewrite pow2_xI.
    replace (q * (2 * (2 ^ Z.pos n * 2 ^ Z.pos n)))
      with (2 * (q * 2 ^ Z.pos n * 2 ^ Z.pos n)) by ring.
    change (SpecFloat.iter_pos shr_1 n~1
              {| shr_m := 2 * (q * 2 ^ Z.pos n * 2 ^ Z.pos n);
                 shr_r := false; shr_s := false |})
      with (SpecFloat.iter_pos shr_1 n
              (SpecFloat.iter_pos shr_1 n
                 (shr_1 {| shr_m := 2 * (q * 2 ^ Z.pos n * 2 ^ Z.pos n);
                           shr_r := false; shr_s := false |}))).
    rewrite shr_1_exact by nia. rewrite IH by nia. now apply IH.
  - assert (P : 0 < 2 ^ Z.pos n) by (apply Z.pow_pos_nonneg; lia).
    rewrite pow2_xO, Z.mul_assoc.
    change (SpecFloat.iter_pos shr_1 n~0
              {| shr_m := q * 2 ^ Z.pos n * 2 ^ Z.pos n;
                 shr_r := false; shr_s := false |})
      with (SpecFloat.iter_pos shr_1 n
              (SpecFloat.iter_pos shr_1 n
                 {| shr_m := q * 2 ^ Z.pos n * 2 ^ Z.pos n;
                    shr_r := false; shr_s := false |})).
    rewrite IH by nia. now apply IH.
  - change (2 ^ 1) with 2. rewrite Z.mul_comm.
    change (SpecFloat.iter_pos shr_1 1
              {| shr_m := 2 * q; shr_r := false; shr_s := false |})
      with (shr_1 {| shr_m := 2 * q; shr_r := false; shr_s := false |}).
    now apply shr_1_exact.
Qed.

(** A mantissa that is canonical for its exponent. *)
Lemma canonical_spec m e :
  bounded F32.prec F32.emax m e = true ->
  fexp F32.prec F32.emax (Z.pos (digits2_pos m) + e) = e /\ e <= 104.
Proof.
  unfold bounded, canonical_mantissa. intros (H1 & H2)%andb_true_iff.
  apply Z.eqb_eq in H1. apply Z.leb_le in H2.
  change (F32.emax - F32.prec) with 104 in H2. auto.
Qed.

Lemma digits_shift (m : positive) (t : Z) :
  0 <= t -> Zdigits2 (Z.pos m * 2 ^ t) = Z.pos (digits2_pos m) + t.
Proof.
  intros Ht. pose proof (digits2_pos_bounds m) as B.
  assert (P : 0 < 2 ^ t) by (apply Z.pow_pos_nonneg; lia).
  destruct (Z.pos m * 2 ^ t) as [|p|p] eqn:E; try nia.
  simpl. apply digits2_pos_unique. rewrite <- E.
  replace (Z.pos (digits2_pos m) + t - 1) with (Z.pos (digits2_pos m) - 1 + t) by lia.
  rewrite !Z.pow_add_r by lia. nia.
Qed.

(** Rounding a canonical value written with [t] more low zero bits. *)
Lemma round_exact s m e t :
  bounded F32.prec F32.emax m e = true -> 0 <= t ->
  binary_round_aux F32.prec F32.emax s (Z.pos m * 2 ^ t) (e - t) loc_Exact
  = S754_finite s m e.
Proof.
  intros Hb Ht. destruct (canonical_spec m e Hb) as (Hc & He).
  unfold binary_round_aux.
  assert (E : shr_fexp F32.prec F32.emax (Z.pos m * 2 ^ t) (e - t) loc_Exact
              = ({| shr_m := Z.pos m; shr_r := false; shr_s := false |}, e)).
  { unfold shr_fexp. rewrite digits_shift by exact Ht.
    replace (Z.pos (digits2_pos m) + t + (e - t)) with (Z.pos (digits2_pos m) + e)
      by lia.
    rewrite Hc. replace (e - (e - t)) with t by lia.
    unfold shr. destruct t as [|p|p]; try lia.
    - simpl. rewrite Z.mul_1_r. f_equal. lia.
    - cbn [shr_record_of_loc]. rewrite iter_shr_1_exact by lia. f_equal. lia. }
  rewrite E. cbn [shr_m loc_of_shr_record shr_r shr_s round_nearest_even].
  unfold shr_fexp. simpl Zdigits2. rewrite Hc.
  rewrite Z.sub_diag. simpl.
  change (F32.emax - F32.prec) with 104.
  replace (e <=? 104) with true by (symmetry; apply Z.leb_le; lia).
  reflexivity.
Qed.

Lemma normal_bounded m e :
  Z.pos (digits2_pos m) = 24 -> -149 <= e <= 104 ->
  bounded F32.prec F32.emax m e = true.
Proof.
  intros Hd He. unfold bounded, canonical_mantissa.
  rewrite Hd, fexp_normal by lia. replace (24 + e - 24) with e by lia.
  apply andb_true_iff. split.
  - apply Z.eqb_eq. reflexivity.
  - apply Z.leb_le. change (F32.emax - F32.prec) with 104. lia.
Qed.

(** An integer below [2^24] written with [k] low zero bits converts to
    the same number. *)
Lemma normalize_exact v k :
  0 < v < 2 ^ 24 -> 0 <= k ->
  binary_normalize F32.prec F32.emax (v * 2 ^ k) (- k) false = F32.of_size v.
Proof.
  intros Hv Hk.
  destruct (of_size_small v Hv) as (m & e & -> & Hd & He & Hm).
  assert (P : 0 < 2 ^ k) by (apply Z.pow_pos_nonneg; lia).
  assert (Q : 0 < 2 ^ (- e)) by (apply Z.pow_pos_nonneg; lia).
  pose proof (normal_bounded m e Hd ltac:(lia)) as Hb.
  destruct (v * 2 ^ k) as [|M|M] eqn:EM; try nia.
  unfold binary_normalize, binary_round.
  assert (HdM : Z.pos (digits2_pos M) = 24 + e + k).
  { destruct v as [|pv|pv]; try lia.
    pose proof (digits_shift pv k Hk) as D1. rewrite EM in D1. simpl in D1.
    pose proof (digits_shift pv (- e) ltac:(lia)) as D2.
    rewrite <- Hm in D2. simpl in D2. lia. }
  rewrite HdM. replace (24 + e + k + - k) with (24 + e) by lia.
  rewrite fexp_normal by lia. replace (24 + e - 24) with e by lia.
  unfold shl_align.
  destruct (e - - k) as [|d|d] eqn:Ed.
  - replace (- e) with k in Hm by lia. rewrite EM in Hm.
    replace (- k) with (e - 0) by lia.
    replace (Z.pos M) with (Z.pos m * 2 ^ 0) by (rewrite Hm; simpl; lia).
    now apply round_exact.
  - replace (- k) with (e - Z.pos d) by lia.
    replace (Z.pos M) with (Z.pos m * 2 ^ Z.pos d).
    + now apply round_exact.
    + rewrite Hm, <- EM. rewrite <- Z.mul_assoc, <- Z.pow_add_r by lia.
      f_equal. f_equal. lia.
  - pose proof (round_exact false m e 0 Hb ltac:(lia)) as R.
    rewrite Z.sub_0_r in R. rewrite <- R. f_equal.
    rewrite iter_xO_value, Hm, Z.pow_0_r, Z.mul_1_r.
    rewrite <- EM. rewrite <- Z.mul_assoc, <- Z.pow_add_r by lia.
    f_equal. f_equal. lia.
Qed.

(** The sum of two small integers. *)
Lemma add_of_size a b :
  0 <= a -> 0 <= b -> a + b < 2 ^ 24 ->
  (F32.of_size a + F32.of_size b)%f32 = F32.of_size (a + b).
Proof.
  intros Ha Hb Hab.
  destruct (Z.eq_dec a 0) as [-> | Hna].
  { rewrite Z.add_0_l. change (F32.of_size 0) with F32.zero.
    destruct (Z.eq_dec b 0) as [-> | Hnb]; [reflexivity |].
    destruct (of_size_small b ltac:(lia)) as (m & e & -> & _). reflexivity. }
  destruct (Z.eq_dec b 0) as [-> | Hnb].
  { rewrite Z.add_0_r. change (F32.of_size 0) with F32.zero.
    destruct (of_size_small a ltac:(lia)) as (m & e & -> & _). reflexivity. }
  destruct (of_size_small a ltac:(lia)) as (ma & ea & -> & Hda & Hea & Hma).
  destruct (of_size_small b ltac:(lia)) as (mb & eb & -> & Hdb & Heb & Hmb).
  unfold F32.add, SFadd. cbv zeta. cbn [cond_Zopp].
  set (ez := Z.min ea eb).
  rewrite (shl_align_value ma ea ez), (shl_align_value mb eb ez) by lia.
  replace (Z.pos ma * 2 ^ (ea - ez) + Z.pos mb * 2 ^ (eb - ez))
    with ((a + b) * 2 ^ (- ez)).
  - replace ez with (- - ez) at 2 by lia. apply normalize_exact; lia.
  - rewrite Hma, Hmb, <- !Z.mul_assoc, <- !Z.pow_add_r by lia.
    replace (- ea + (ea - ez)) with (- ez) by lia.
    replace (- eb + (eb - ez)) with (- ez) by lia. ring.
Qed.

(** The order of two small integers. *)
Lemma ltb_of_size a b :
  0 <= a < 2 ^ 24 -> 0 <= b < 2 ^ 24 ->
  F32.ltb (F32.of_size a) (F32.of_size b) = (a <? b).
Proof.
  intros Ha Hb.
  destruct (Z.eq_dec a 0) as [-> | Hna].
  { change (F32.of_size 0) with F32.zero.
    destruct (Z.eq_dec b 0) as [-> | Hnb]; [reflexivity |].
    destruct (of_size_small b ltac:(lia)) as (m & e & -> & _).
    symmetry. apply Z.ltb_lt. lia. }
  destruct (Z.eq_dec b 0) as [-> | Hnb].
  { change (F32.of_size 0) with F32.zero.
    destruct (of_size_small a ltac:(lia)) as (m & e & -> & _).
    symmetry. apply Z.ltb_ge. lia. }
  destruct (of_size_small a ltac:(lia)) as (ma & ea & -> & Hda & Hea & Hma).
  destruct (of_size_small b ltac:(lia)) as (mb & eb & -> & Hdb & Heb & Hmb).
  pose proof (digits2_pos_bounds ma) as Ba. rewrite Hda in Ba.
  pose proof (digits2_pos_bounds mb) as Bb. rewrite Hdb in Bb.
  change (2 ^ (24 - 1)) with 8388608 in *. change (2 ^ 24) with 16777216 in *.
  assert (Pa : 0 < 2 ^ (- ea)) by (apply Z.pow_pos_nonneg; lia).
  assert (Pb : 0 < 2 ^ (- eb)) by (apply Z.pow_pos_nonneg; lia).
  unfold F32.ltb, SFltb, SFcompare.
  destruct (Z.compare_spec ea eb) as [Eq | Hlt | Hgt].
  - subst eb. change (PosDef.Pos.compare_cont Eq ma mb) with (Z.pos ma ?= Z.pos mb).
    destruct (Z.compare_spec (Z.pos ma) (Z.pos mb)) as [E | L | L];
      symmetry; [apply Z.ltb_ge | apply Z.ltb_lt | apply Z.ltb_ge]; nia.
  - symmetry. apply Z.ltb_lt.
    assert (Hp : 2 ^ (- ea) = 2 ^ (- eb) * 2 ^ (eb - ea))
      by (rewrite <- Z.pow_add_r by lia; f_equal; lia).
    assert (H2 : 2 <= 2 ^ (eb - ea))
      by (change 2 with (2 ^ 1) at 1; apply Z.pow_le_mono_r; lia).
    nia.
  - symmetry. apply Z.ltb_ge.
    assert (Hp : 2 ^ (- eb) = 2 ^ (- ea) * 2 ^ (ea - eb))
      by (rewrite <- Z.pow_add_r by lia; f_equal; lia).
    assert (H2 : 2 <= 2 ^ (ea - eb))
      by (change 2 with (2 ^ 1) at 1; apply Z.pow_le_mono_r; lia).
    nia.
Qed.

(** The product of a sample and [1.0f]. *)
Lemma mul_one_valid (x : float) :
  valid_binary F32.prec F32.emax x = true -> finite x -> (x * F32.one)%f32 = x.
Proof.
  intros Hv Hf. destruct x as [s| | |s m e]; try contradiction.
  - destruct s; reflexivity.
  - unfold F32.mul, F32.one, SFmul. rewrite xorb_false_r.
    replace (Z.pos (m * 8388608)) with (Z.pos m * 2 ^ 23) by reflexivity.
    replace (e + -23) with (e - 23) by lia.
    apply round_exact; [exact Hv | lia].
Qed.

End F32Exact.

(** ** The engine with unit multipliers *)

Lemma normalized_finite (x : float) : normalized x -> finite x.
Proof. intros [_ H]. destruct x as [s|[]| |s m e]; try exact I; discriminate. Qed.

Lemma sameSample_settled (r stored : float) :
  normalized stored -> sameSample r stored ->
  sameSample (F32.zero + r * F32.one)%f32 stored.
Proof.
  intros Hn (Heq & Hsame).
  pose proof (normalized_finite stored Hn) as Hfin. destruct Hn as [Hv _].
  destruct stored as [s| | |s m e]; try contradiction.
  - split; [| intros H; now destruct H].
    destruct r as [sr|sr| |sr mr er]; unfold F32.eqb, SFeqb in Heq;
      simpl in Heq; try discriminate; try (destruct sr; discriminate).
    now destruct sr.
  - rewrite Hsame by (intros H; exact H).
    rewrite (F32Exact.mul_one_valid _ Hv I).
    split; [| reflexivity]. now apply F32Facts.eqb_refl.
Qed.

Lemma read_at_frame (input : list float) (frame channel numChannels : Z) :
  Forall normalized input -> vsize input <= max_size ->
  0 <= channel < numChannels -> 0 <= frame < 2 ^ 24 ->
  frame < perChannel input numChannels ->
  exists stored r,
    input !! Z.to_nat (frame * numChannels + channel) = Some stored /\
    SampleChannelFractional input (F32.of_size frame) channel numChannels
    = Done r /\
    sameSample r stored.
Proof.
  intros Hnorm Hmax Hch Hframe Hlt. unfold perChannel in Hlt.
  pose proof (F32Facts.to_size_of_size frame Hframe) as Hpos.
  pose proof (F32Facts.of_size_integral frame Hframe) as Hint.
  assert (Hne : input <> []).
  { intros ->. change (vsize (@nil float)) with 0 in Hlt.
    rewrite Zdiv_0_l in Hlt. lia. }
  destruct (SampleChannelFractional_taps input (F32.of_size frame) channel
              numChannels Hne Hmax) as (A & B & C & D & H).
  destruct (tapIndices_frame (vsize input) (F32.of_size frame) channel
              numChannels Hmax Hch ltac:(now rewrite Hpos))
    as (iN & i1 & i2 & E & _).
  rewrite E, Hpos in H. destruct H as (HA & HB & HC & HD & Hrun).
  assert (Hb : forall i x, input !! i = Some x -> below 64 x).
  { intros i x Hx. apply (F32Facts.below_mono 1); [lia |].
    apply F32Facts.normalized_below.
    exact (Forall_lookup_1 _ _ _ _ Hnorm Hx). }
  rewrite F32Facts.floor_integral, F32Facts.sub_self in Hrun by exact Hint.
  pose proof (F32Facts.CubicHermite_at_zero A B C D
                (Hb _ _ HA) (Hb _ _ HB) (Hb _ _ HC) (Hb _ _ HD)) as Hz.
  exists B, (CubicHermite A B C D F32.zero).
  split; [exact HB |]. split; [exact Hrun |].
  pose proof (Hb _ _ HB) as HbB.
  destruct B as [sB|sB| |sB mB eB]; simpl in HbB; try contradiction.
  - split; [| intros Hnz; now destruct Hnz].
    destruct (CubicHermite A (S754_zero sB) C D F32.zero);
      simpl in Hz; try contradiction. reflexivity.
  - rewrite Hz. split; [now apply F32Facts.eqb_refl | reflexivity].
Qed.

Section UnitMultipliers.

Variable input : list float.
Variables numChannels frames grainSize crossFadeSize : Z.
Hypothesis input_normalized : Forall normalized input.
Hypothesis channels_range : 1 <= numChannels < 65536.
Hypothesis input_frames : vsize input = frames * numChannels.
Hypothesis frames_small : 0 <= frames < 2 ^ 24.
Hypothesis grain_positive : 1 <= grainSize.

Lemma unit_input_fits : vsize input <= max_size.
Proof. rewrite input_frames, max_size_eq. nia. Qed.

Lemma unit_perChannel : perChannel input numChannels = frames.
Proof. unfold perChannel. rewrite input_frames. apply Z.div_mul. lia. Qed.

Lemma slot_copy (frame channel : Z) (out : list float) :
  0 <= frame < frames -> 0 <= channel < numChannels ->
  copied input (frame * numChannels + channel) out ->
  exists out',
    (x ← SampleChannelFractional input (F32.of_size frame) channel numChannels;
     old ← vget out (wrap (frame * numChannels + channel));
     vset out (wrap (frame * numChannels + channel)) (old + x * F32.one)%f32)
    = Done out' /\
    copied input (frame * numChannels + (channel + 1)) out'.
Proof.
  intros Hframe Hch (Hlen & Hslots).
  set (slot := frame * numChannels + channel) in *.
  assert (Hslot : 0 <= slot < vsize input) by (rewrite input_frames; unfold slot; nia).
  destruct (read_at_frame input frame channel numChannels input_normalized
              unit_input_fits Hch ltac:(lia) ltac:(rewrite unit_perChannel; lia))
    as (stored & r & Hstored & -> & Hsame).
  fold slot in Hstored. cbn [mbind outcome_bind].
  rewrite wrap_small by (rewrite size_mod_eq, input_frames in *; nia).
  destruct (Hslots (Z.to_nat slot) ltac:(unfold vsize in Hslot; lia))
    as (x & y & Hx & Hy & Hrel).
  rewrite Z2Nat.id, Z.ltb_irrefl in Hrel by lia. subst y.
  unfold vget, vset. rewrite Hy. cbn [mbind outcome_bind].
  eexists. split; [reflexivity |]. split; [now rewrite length_insert |].
  intros i Hi. destruct (Hslots i Hi) as (x' & y' & Hx' & Hy' & Hrel').
  destruct (decide (i = Z.to_nat slot)) as [-> | Hne].
  - exists stored, (F32.zero + r * F32.one)%f32.
    split; [exact Hstored |].
    split; [apply list_lookup_insert_eq; lia |].
    replace (frame * numChannels + (channel + 1)) with (slot + 1) by (unfold slot; lia).
    rewrite Z2Nat.id by lia. rewrite (proj2 (Z.ltb_lt slot (slot + 1))) by lia.
    apply sameSample_settled; [| exact Hsame].
    exact (Forall_lookup_1 _ _ _ _ input_normalized Hstored).
  - exists x', y'. split; [exact Hx' |].
    split; [rewrite list_lookup_insert_ne by lia; exact Hy' |].
    replace (frame * numChannels + (channel + 1)) with (slot + 1) by (unfold slot; lia).
    destruct (Z.ltb_spec (Z.of_nat i) slot) as [L | L].
    + rewrite (proj2 (Z.ltb_lt _ _)) by lia. exact Hrel'.
    + rewrite (proj2 (Z.ltb_ge _ _)) by lia. exact Hrel'.
Qed.

Lemma frame_copy (frame : Z) (out : list float) :
  0 <= frame < frames ->
  copied input (frame * numChannels) out ->
  exists out',
    for_range (Z.to_nat numChannels) 0 (fun channel output =>
      x ← SampleChannelFractional input (F32.of_size frame) channel numChannels;
      old ← vget output (wrap (frame * numChannels + channel));
      vset output (wrap (frame * numChannels + channel)) (old + x * F32.one)%f32)
      out
    = Done out' /\
    copied input ((frame + 1) * numChannels) out'.
Proof.
  intros Hframe Hout.
  destruct (for_range_inv
              (fun channel o => copied input (frame * numChannels + channel) o)
              (fun channel output =>
                 x ← SampleChannelFractional input (F32.of_size frame) channel
                       numChannels;
                 old ← vget output (wrap (frame * numChannels + channel));
                 vset output (wrap (frame * numChannels + channel))
                   (old + x * F32.one)%f32)
              (Z.to_nat numChannels) 0 out) as (out' & Hrun & Hcopied).
  - now rewrite Z.add_0_r.
  - intros ch o Hch Ho. apply slot_copy; [exact Hframe | lia | exact Ho].
  - exists out'. split; [exact Hrun |].
    replace ((frame + 1) * numChannels)
      with (frame * numChannels + (0 + Z.of_nat (Z.to_nat numChannels))) by lia.
    exact Hcopied.
Qed.

(** The loop of the grain writer on the grain that starts at frame
    [start], written at frame [start] of the output. *)
Lemma grain_copy (start : Z) (crossFade : ECrossFade) :
  crossFade = CrossFadeNone -> 0 <= start -> start + grainSize <= frames ->
  forall (todo : nat) (written : Z) (fuel : nat) (out : list float),
    Z.of_nat todo + written = grainSize -> 0 <= written -> (todo <= fuel)%nat ->
    copied input ((start + written) * numChannels) out ->
    exists out',
      SplatLoop fuel input numChannels start grainSize crossFade crossFadeSize
        F32.one out ((start + written) * numChannels) (F32.of_size written) written
      = Done (out', grainSize) /\
      copied input ((start + grainSize) * numChannels) out'.
Proof.
  intros -> Hstart Hend.
  induction todo as [|todo IH]; intros written fuel out Htodo Hdone Hfuel Hout.
  - replace written with grainSize in * by lia.
    exists out. split; [| exact Hout].
    destruct fuel; cbn [SplatLoop];
      rewrite F32Exact.ltb_of_size, Z.ltb_irrefl by lia; reflexivity.
  - destruct fuel as [|fuel]; [lia |]. cbn [SplatLoop].
    rewrite F32Exact.ltb_of_size by lia.
    rewrite (proj2 (Z.ltb_lt written grainSize)) by lia. cbn [negb].
    pose proof Hout as (Hlen & _).
    assert (Hsize : vsize out = frames * numChannels)
      by (unfold vsize in *; now rewrite Hlen).
    rewrite (wrap_small ((start + written) * numChannels + numChannels))
      by (rewrite size_mod_eq; nia).
    rewrite (proj2 (Z.ltb_ge _ _)) by nia.
    rewrite F32Exact.add_of_size by lia.
    rewrite F32Facts.to_size_of_size by lia.
    rewrite (wrap_small ((start + written) * numChannels)) by (rewrite size_mod_eq; nia).
    rewrite (wrap_small ((start + written) * numChannels + numChannels))
      by (rewrite size_mod_eq; nia).
    rewrite (proj2 (Z.ltb_ge _ _)) by nia.
    cbn [grainEnvelope].
    destruct (frame_copy (start + written) out ltac:(lia) Hout) as (out1 & -> & Hout1).
    cbn [mbind outcome_bind].
    rewrite (wrap_small (written + 1)) by (rewrite size_mod_eq; lia).
    change F32.one with (F32.of_size 1) at 2.
    rewrite F32Exact.add_of_size by lia.
    replace ((start + written) * numChannels + numChannels)
      with ((start + (written + 1)) * numChannels) by lia.
    apply IH; try lia.
    replace (start + (written + 1)) with (start + written + 1) by lia. exact Hout1.
Qed.

Variable p0 : Process.

Lemma window_copy (fuel : nat) (numGrains grain : Z) (s : Engine) :
  (Z.to_nat grainSize <= fuel)%nat ->
  0 <= grain -> (grain + 1) * grainSize <= frames ->
  grainsCopied input numChannels grainSize p0 grain s ->
  exists s',
    GrainWindow fuel input numChannels grainSize crossFadeSize numGrains
      F32.one F32.one grain s = Done s' /\
    grainsCopied input numChannels grainSize p0 (grain + 1) s'.
Proof.
  intros Hfuel Hgrain Hend (Hout & Hidx & Hlast & Hrep).
  unfold GrainWindow.
  rewrite (wrap_small (grain * grainSize)) by (rewrite size_mod_eq; nia).
  rewrite (wrap_small (grain * grainSize + grainSize)) by (rewrite size_mod_eq; nia).
  rewrite F32Facts.to_size_of_size_mul_one by nia.
  destruct fuel as [|fuel]; [lia |]. cbn [GrainWhile].
  rewrite Hidx. rewrite (proj2 (Z.ltb_lt _ _)) by lia.
  unfold GrainStep.
  rewrite (wrap_small (grain * grainSize)) by (rewrite size_mod_eq; nia).
  assert (Hcond : (lastGrainWritten s =? SIZE_MAX)
                  || (lastGrainWritten s =? wrap (grain - 1)) = true).
  { destruct Hlast as [(-> & _) | (-> & Hg)].
    - reflexivity.
    - rewrite (wrap_small (grain - 1)) by (rewrite size_mod_eq; nia).
      rewrite Z.eqb_refl. apply orb_true_r. }
  rewrite Hcond. unfold SplatGrainToOutput. rewrite Hidx.
  rewrite (wrap_small (grain * grainSize * numChannels))
    by (rewrite size_mod_eq; nia).
  destruct (grain_copy (grain * grainSize) CrossFadeNone eq_refl ltac:(nia)
              ltac:(lia) (Z.to_nat grainSize) 0 (S fuel) (output s)
              ltac:(lia) ltac:(lia) Hfuel
              ltac:(now rewrite Z.add_0_r)) as (out' & Hrun & Hout').
  rewrite Z.add_0_r in Hrun. change (F32.of_size 0) with F32.zero in Hrun.
  rewrite Hrun. cbn [mbind outcome_bind].
  rewrite (wrap_small (grain * grainSize + grainSize)) by (rewrite size_mod_eq; nia).
  eexists. split.
  - destruct fuel; cbn [GrainWhile outputSampleIndex];
      rewrite Z.ltb_irrefl; reflexivity.
  - unfold grainsCopied. cbn [output outputSampleIndex lastGrainWritten proc].
    split; [| split; [| split]].
    + replace ((grain + 1) * grainSize) with (grain * grainSize + grainSize) by lia.
      exact Hout'.
    + lia.
    + right. lia.
    + eapply reported_trans; [exact Hrep | apply reported_reportCrossFade].
Qed.

End UnitMultipliers.

(** X21: the engine with both multipliers at [1.0f].  On a buffer of
    normalized samples whose frame count is below [2^24] and a multiple
    of the grain size, and with fuel for one grain, the run returns, and
    the output is the input: every output sample compares equal to the
    input sample of its slot and is that very value unless the input
    sample is a zero (a [-0.0f] comes out as [+0.0f]).  No grain is
    repeated or cross faded, whatever the cross fade size is. *)
Theorem GranularTimePitchAdjust_unit_multipliers (fuel : nat) (p : Process)
    (input : list float) (numChannels sampleRate frames grainSize : Z)
    (grainSizeSeconds crossFadeSeconds : float) :
  Forall normalized input -> 1 <= numChannels < 65536 ->
  vsize input = frames * numChannels -> 0 <= frames < 2 ^ 24 ->
  F32.to_size (F32.of_size sampleRate * grainSizeSeconds)%f32 = grainSize ->
  1 <= grainSize -> frames mod grainSize = 0 ->
  (Z.to_nat grainSize <= fuel)%nat ->
  exists p' out,
    GranularTimePitchAdjust fuel p input numChannels sampleRate F32.one F32.one
      grainSizeSeconds crossFadeSeconds = Done (p', out) /\
    reported p p' /\
    Forall2 sameSample out input.
Proof.
  intros Hnorm Hc Hframes Hsmall HG Hpos Hmod Hfuel.
  unfold GranularTimePitchAdjust.
  rewrite (proj2 (Z.eqb_neq numChannels 0)) by lia.
  rewrite Hframes, Z.div_mul by lia.
  rewrite F32Facts.to_size_of_size_mul_one by exact Hsmall.
  rewrite HG. rewrite (proj2 (Z.eqb_neq grainSize 0)) by lia.
  unfold grainCount. rewrite Hmod, Z.eqb_refl.
  set (numGrains := frames / grainSize).
  assert (Hgrains : frames = numGrains * grainSize).
  { unfold numGrains. rewrite Z.mul_comm. apply Z.div_exact; lia. }
  assert (Hn : 0 <= numGrains) by (apply Z.div_pos; lia).
  rewrite (wrap_small (frames * numChannels)) by (rewrite size_mod_eq; nia).
  set (crossFadeSize := F32.to_size (F32.of_size sampleRate * crossFadeSeconds)%f32).
  destruct (for_range_inv
              (grainsCopied input numChannels grainSize p)
              (GrainWindow fuel input numChannels grainSize crossFadeSize
                 numGrains F32.one F32.one)
              (Z.to_nat numGrains) 0
              {| proc := p;
                 output := replicate (Z.to_nat (frames * numChannels)) F32.zero;
                 outputSampleIndex := 0; lastGrainWritten := SIZE_MAX |})
    as (s & -> & (Hlen & Hslots) & _ & _ & Hrep).
  - unfold grainsCopied. cbn [output outputSampleIndex lastGrainWritten proc].
    split; [| split; [reflexivity | split; [now left | apply reported_refl]]].
    split.
    + rewrite length_replicate. unfold vsize in Hframes. lia.
    + intros i Hi. destruct (lookup_lt_is_Some_2 input i Hi) as (x & Hx).
      exists x, F32.zero. split; [exact Hx |]. split.
      * apply lookup_replicate_2. unfold vsize in Hframes. lia.
      * rewrite (proj2 (Z.ltb_ge _ _)) by lia. reflexivity.
  - intros grain s Hgrain Hs.
    apply (window_copy input numChannels frames grainSize crossFadeSize Hnorm
             Hc Hframes Hsmall Hpos p fuel numGrains grain s Hfuel);
      [lia | nia | exact Hs].
  - cbn [mbind outcome_bind]. eexists _, _. split; [reflexivity |].
    split; [exact Hrep |].
    apply Forall2_same_length_lookup_2; [exact Hlen |].
    intros i y x Hy Hx.
    destruct (Hslots i (lookup_lt_Some _ _ _ Hx)) as (x' & y' & Hx' & Hy' & Hrel).
    rewrite Hx in Hx'. rewrite Hy in Hy'. injection Hx' as <-. injection Hy' as <-.
    rewrite (proj2 (Z.ltb_lt _ _)) in Hrel; [exact Hrel |].
    apply lookup_lt_Some in Hx. unfold vsize in Hframes.
    rewrite Z.add_0_l, Z2Nat.id by lia. nia.
Qed.

Lemma GranularTimePitchAdjust_unit_multipliers_witness :
  exists p' out,
    GranularTimePitchAdjust 2 startup twoFrames 2 2 F32.one F32.one F32.one half
    = Done (p', out) /\
    reported startup p' /\
    Forall2 sameSample out twoFrames.
Proof.
  apply (GranularTimePitchAdjust_unit_multipliers 2 startup twoFrames 2 2 2 2
           F32.one half).
  - repeat (constructor; [split; reflexivity |]). constructor.
  - lia.
  - reflexivity.
  - lia.
  - reflexivity.
  - lia.
  - reflexivity.
  - vm_compute. lia.
Defined.

(** ** The first frame and the single frame of the resampler *)

Lemma nan_mul (x : float) : (S754_nan * x)%f32 = S754_nan.
Proof. reflexivity. Qed.

Lemma nan_add (x : float) : (S754_nan + x)%f32 = S754_nan.
Proof. reflexivity. Qed.

Lemma CubicHermite_nan (A B C D : float) :
  CubicHermite A B C D S754_nan = S754_nan.
Proof. unfold CubicHermite. now rewrite !mul_nan, !add_nan, nan_add. Qed.

(** X22: an output of one frame.  When the length computed for the output
    is one frame, [TimeAdjust] divides 0 by 0 for the position of that
    frame; the reader interpolates its taps at a NaN fraction, and
    every channel of the output is a NaN, whatever the input holds and
    whichever taps the NaN position selects. *)
Theorem TimeAdjust_single_frame (input output : list float) (numChannels : Z)
    (timeMultiplier : float) :
  1 <= numChannels <= max_size -> vsize input <= max_size ->
  truncatedLength input numChannels timeMultiplier = 1 ->
  TimeAdjust input output numChannels timeMultiplier
  = Done (replicate (Z.to_nat numChannels) S754_nan).
Proof.
  intros Hc Hin Hone.
  destruct (TimeAdjust_filled input output numChannels timeMultiplier
              ltac:(lia) Hin ltac:(rewrite Hone; lia))
    as (out & -> & Hlen & Hget).
  rewrite Hone in Hlen, Hget. f_equal.
  assert (Hne : input <> []).
  { intros ->. unfold truncatedLength, perChannel in Hone.
    change (vsize (@nil float)) with 0 in Hone.
    rewrite Zdiv_0_l, F32Facts.to_size_mul_zero in Hone. lia. }
  apply list_eq. intros i.
  destruct (decide (i < Z.to_nat numChannels)%nat) as [Hi | Hi].
  - rewrite lookup_replicate_2 by exact Hi.
    pose proof (Hget 0 (Z.of_nat i) ltac:(lia) ltac:(lia)) as G.
    unfold resamplePosition in G.
    change (F32.of_size 0 / F32.of_size (wrap (1 - 1)))%f32 with S754_nan in G.
    rewrite mul_nan in G.
    destruct (SampleChannelFractional_taps input S754_nan (Z.of_nat i)
                numChannels Hne Hin) as (A & B & C & D & H).
    destruct (tapIndices _ _ _ _) as [[[iN i0] i1] i2].
    destruct H as (_ & _ & _ & _ & H). rewrite H in G.
    change (S754_nan - F32.floor S754_nan)%f32 with S754_nan in G.
    rewrite CubicHermite_nan in G.
    unfold vget in G. rewrite Z.mul_0_l, Z.add_0_l, Nat2Z.id in G.
    destruct (out !! i); [congruence | discriminate].
  - rewrite !lookup_ge_None_2; [reflexivity | | ].
    + rewrite length_replicate. lia.
    + unfold vsize in Hlen. lia.
Qed.

Lemma TimeAdjust_single_frame_witness :
  TimeAdjust spike [] 1 half = Done (replicate (Z.to_nat 1) S754_nan).
Proof.
  apply (TimeAdjust_single_frame spike [] 1 half).
  - vm_compute. split; discriminate.
  - vm_compute. discriminate.
  - reflexivity.
Defined.


(** X23: the first frame.  When the output has at least two frames,
    [TimeAdjust] reads its first frame at position 0: on a buffer of
    normalized samples the first output frame is the first input frame
    (each sample compares equal to the input sample and is that value
    unless it is a zero). *)
Theorem TimeAdjust_first_frame (input output : list float) (numChannels : Z)
    (timeMultiplier : float) (channel : Z) :
  Forall normalized input -> 1 <= numChannels -> vsize input <= max_size ->
  2 <= truncatedLength input numChannels timeMultiplier <= 2 ^ 24 ->
  truncatedLength input numChannels timeMultiplier * numChannels <= max_size ->
  1 <= perChannel input numChannels < 2 ^ 24 ->
  0 <= channel < numChannels ->
  exists out x y,
    TimeAdjust input output numChannels timeMultiplier = Done out /\
    input !! Z.to_nat channel = Some x /\ out !! Z.to_nat channel = Some y /\
    sameSample y x.
Proof.
  intros Hnorm Hc Hin Hlen Hout Hframes Hch.
  destruct (TimeAdjust_filled input output numChannels timeMultiplier
              Hc Hin Hout) as (out & Hrun & _ & Hget).
  pose proof (Hget 0 channel ltac:(lia) Hch) as G.
  unfold resamplePosition in G.
  rewrite (wrap_small (truncatedLength input numChannels timeMultiplier - 1))
    in G by (rewrite size_mod_eq; lia).
  destruct (F32Facts.of_size_small
              (truncatedLength input numChannels timeMultiplier - 1) ltac:(lia))
    as (m & e & E & _).
  destruct (F32Facts.of_size_small (perChannel input numChannels) ltac:(lia))
    as (m' & e' & E' & _).
  rewrite E, E' in G.
  change (S754_finite false m' e' * (F32.of_size 0 / S754_finite false m e))%f32
    with (F32.of_size 0) in G.
  destruct (read_at_frame input 0 channel numChannels Hnorm Hin Hch ltac:(lia)
              ltac:(lia)) as (stored & r & Hstored & Hread & Hsame).
  rewrite Hread in G. rewrite Z.mul_0_l, Z.add_0_l in G, Hstored.
  exists out, stored, r. split; [exact Hrun |]. split; [exact Hstored |].
  split; [| exact Hsame].
  unfold vget in G. destruct (out !! Z.to_nat channel); congruence.
Qed.

Lemma TimeAdjust_first_frame_witness :
  exists out x y,
    TimeAdjust spike [] 1 F32.two = Done out /\
    spike !! Z.to_nat 0 = Some x /\ out !! Z.to_nat 0 = Some y /\
    sameSample y x.
Proof.
  apply (TimeAdjust_first_frame spike [] 1 F32.two 0).
  - repeat (constructor; [split; reflexivity |]). constructor.
  - lia.
  - vm_compute. discriminate.
  - vm_compute. split; discriminate.
  - vm_compute. discriminate.
  - vm_compute. split; [discriminate | reflexivity].
  - lia.
Defined.

(** ** The engine with per-grain parameters and unit multipliers *)

Section DynamicUnitMultipliers.

Variable input : list float.
Variables numChannels frames grainSize crossFadeSize : Z.
Hypothesis input_normalized : Forall normalized input.
Hypothesis channels_range : 1 <= numChannels < 65536.
Hypothesis input_frames : vsize input = frames * numChannels.
Hypothesis frames_small : 0 <= frames < 2 ^ 24.
Hypothesis grain_positive : 1 <= grainSize.

Lemma sizing_unit (numGrains : Z) :
  frames = numGrains * grainSize ->
  DynamicOutputSamples (vsize input) grainSize numGrains unitSettings
  = Done frames.
Proof.
  intros grains_tile.
  assert (Hn : 0 <= numGrains) by nia.
  unfold DynamicOutputSamples.
  match goal with
  | |- context [for_range ?n ?i0 ?body ?s0] =>
      destruct (for_range_inv (fun i acc => acc = i * grainSize) body n i0 s0
                  eq_refl) as (n' & -> & ->)
  end.
  - intros i acc Hi ->. cbv zeta. cbn [unitSettings].
    rewrite (wrap_small (i * grainSize)) by (rewrite size_mod_eq; nia).
    rewrite (wrap_small (i * grainSize + grainSize)) by (rewrite size_mod_eq; nia).
    rewrite Z.min_l by (rewrite input_frames; nia).
    replace (i * grainSize + grainSize - i * grainSize) with grainSize by lia.
    rewrite (wrap_small grainSize) by (rewrite size_mod_eq; nia).
    rewrite F32Facts.to_size_of_size_mul_one by nia.
    rewrite wrap_small by (rewrite size_mod_eq; nia).
    eexists. split; [reflexivity | lia].
  - f_equal. rewrite grains_tile. lia.
Qed.

Lemma dynamic_window_copy (p0 : Process) (fuel : nat) (numGrains grain : Z)
    (s : DynEngine) :
  (Z.to_nat grainSize <= fuel)%nat ->
  0 <= grain -> (grain + 1) * grainSize <= frames ->
  grainsCopied input numChannels grainSize p0 grain s ->
  outputSampleWindowEnd s = (grain + 1) * grainSize ->
  exists s' : DynEngine,
    DynGrainWhile fuel
      (DynGrainStep fuel input numChannels grainSize crossFadeSize numGrains
         grain F32.one) s = Done s' /\
    grainsCopied input numChannels grainSize p0 (grain + 1) s' /\
    outputSampleWindowEnd s' = (grain + 1) * grainSize.
Proof.
  intros Hfuel Hgrain Hfits (Hout & Hidx & Hlast & Hrep) Hend.
  destruct fuel as [|fuel]; [lia |]. cbn [DynGrainWhile].
  rewrite Hidx, Hend. rewrite (proj2 (Z.ltb_lt _ _)) by lia.
  unfold DynGrainStep.
  rewrite (wrap_small (grain * grainSize)) by (rewrite size_mod_eq; nia).
  assert (Hcond : (lastGrainWritten s =? SIZE_MAX)
                  || (lastGrainWritten s =? wrap (grain - 1)) = true).
  { destruct Hlast as [(-> & _) | (-> & Hg)].
    - reflexivity.
    - rewrite (wrap_small (grain - 1)) by (rewrite size_mod_eq; nia).
      rewrite Z.eqb_refl. apply orb_true_r. }
  rewrite Hcond. unfold SplatGrainToOutput. rewrite Hidx.
  rewrite (wrap_small (grain * grainSize * numChannels))
    by (rewrite size_mod_eq; nia).
  destruct (grain_copy input numChannels frames grainSize crossFadeSize
              input_normalized channels_range input_frames frames_small
              grain_positive (grain * grainSize) CrossFadeNone eq_refl
              ltac:(nia) ltac:(nia) (Z.to_nat grainSize) 0 (S fuel) (output s)
              ltac:(lia) ltac:(lia) Hfuel
              ltac:(now rewrite Z.add_0_r)) as (out' & Hrun & Hout').
  rewrite Z.add_0_r in Hrun. change (F32.of_size 0) with F32.zero in Hrun.
  rewrite Hrun. cbn [mbind outcome_bind].
  rewrite (wrap_small (grain * grainSize + grainSize)) by (rewrite size_mod_eq; nia).
  eexists. split; [| split].
  - destruct fuel; cbn [DynGrainWhile outputSampleIndex outputSampleWindowEnd engine];
      rewrite Hend, (proj2 (Z.ltb_ge _ _)) by lia; reflexivity.
  - unfold grainsCopied. cbn [engine output outputSampleIndex lastGrainWritten proc].
    split; [| split; [| split]].
    + replace ((grain + 1) * grainSize) with (grain * grainSize + grainSize) by lia.
      exact Hout'.
    + lia.
    + right. lia.
    + eapply reported_trans; [exact Hrep | apply reported_reportCrossFade].
  - reflexivity.
Qed.

End DynamicUnitMultipliers.

(** X24: the engine with per-grain parameters, with a callback that
    leaves both multipliers at [1.0f].  On a buffer of normalized
    samples whose frame count is below [2^24] and a multiple of the
    grain size, and with fuel for one grain, the run returns and the
    output is the input, up to the sign of a zero; the cross-fade
    report is printed at most once. *)
Theorem GranularTimePitchAdjustDynamic_unit_multipliers (fuel : nat)
    (p : Process) (input : list float)
    (numChannels sampleRate frames grainSize : Z)
    (grainSizeSeconds crossFadeSeconds : float) :
  Forall normalized input -> 1 <= numChannels < 65536 ->
  vsize input = frames * numChannels -> 0 <= frames < 2 ^ 24 ->
  F32.to_size (F32.of_size sampleRate * grainSizeSeconds)%f32 = grainSize ->
  1 <= grainSize -> frames mod grainSize = 0 ->
  (Z.to_nat grainSize <= fuel)%nat ->
  exists p' out,
    GranularTimePitchAdjustDynamic fuel p input numChannels sampleRate
      grainSizeSeconds crossFadeSeconds unitSettings = Done (p', out) /\
    reported p p' /\
    Forall2 sameSample out input.
Proof.
  intros Hnorm Hc Hframes Hsmall HG Hpos Hmod Hfuel.
  unfold GranularTimePitchAdjustDynamic.
  rewrite (proj2 (Z.eqb_neq numChannels 0)) by lia.
  rewrite HG. rewrite (proj2 (Z.eqb_neq grainSize 0)) by lia.
  replace (vsize input / numChannels) with frames
    by (rewrite Hframes, Z.div_mul; lia).
  unfold grainCount. rewrite Hmod, Z.eqb_refl.
  set (numGrains := frames / grainSize).
  assert (Hgrains : frames = numGrains * grainSize).
  { unfold numGrains. rewrite Z.mul_comm. apply Z.div_exact; lia. }
  assert (Hn : 0 <= numGrains) by (apply Z.div_pos; lia).
  rewrite (sizing_unit input numChannels frames grainSize Hc Hframes
             Hsmall Hpos numGrains Hgrains).
  cbn [mbind outcome_bind].
  rewrite (wrap_small (frames * numChannels)) by (rewrite size_mod_eq; nia).
  set (crossFadeSize := F32.to_size (F32.of_size sampleRate * crossFadeSeconds)%f32).
  match goal with
  | |- context [for_range ?n ?i0 ?body ?s0] =>
      destruct (for_range_inv (St := DynEngine)
                  (fun grain s =>
                     grainsCopied input numChannels grainSize p grain s /\
                     outputSampleWindowEnd s = grain * grainSize)
                  body n i0 s0)
        as (s & -> & ((Hlen & Hslots) & _ & _ & Hrep) & _)
  end.
  - split; [| reflexivity].
    unfold grainsCopied. cbn [engine output outputSampleIndex lastGrainWritten proc].
    split; [| split; [reflexivity | split; [now left | apply reported_refl]]].
    split.
    + rewrite length_replicate. unfold vsize in Hframes. lia.
    + intros i Hi. destruct (lookup_lt_is_Some_2 input i Hi) as (x & Hx).
      exists x, F32.zero. split; [exact Hx |]. split.
      * apply lookup_replicate_2. unfold vsize in Hframes. lia.
      * rewrite (proj2 (Z.ltb_ge _ _)) by lia. reflexivity.
  - intros grain s Hgrain (Hs & Hend). cbv zeta. cbn [unitSettings].
    rewrite Hend, F32Facts.to_size_of_size_mul_one by nia.
    rewrite wrap_small by (rewrite size_mod_eq; nia).
    destruct (dynamic_window_copy input numChannels frames grainSize
                crossFadeSize Hnorm Hc Hframes Hsmall Hpos
                p fuel numGrains grain
                {| engine := s;
                   lastGrainPitchMultiplier := lastGrainPitchMultiplier s;
                   outputSampleWindowEnd := grain * grainSize + grainSize |}
                Hfuel ltac:(lia) ltac:(nia) Hs ltac:(cbn; lia)) as (s' & -> & Hs' & Hend').
    exists s'. split; [reflexivity |]. split; [exact Hs' | exact Hend'].
  - cbn [mbind outcome_bind]. eexists _, _. split; [reflexivity |].
    split; [exact Hrep |].
    apply Forall2_same_length_lookup_2; [exact Hlen |].
    intros i y x Hy Hx.
    destruct (Hslots i (lookup_lt_Some _ _ _ Hx)) as (x' & y' & Hx' & Hy' & Hrel).
    rewrite Hx in Hx'. rewrite Hy in Hy'. injection Hx' as <-. injection Hy' as <-.
    rewrite (proj2 (Z.ltb_lt _ _)) in Hrel; [exact Hrel |].
    apply lookup_lt_Some in Hx. unfold vsize in Hframes.
    rewrite Z.add_0_l, Z2Nat.id by lia. nia.
Qed.

Lemma GranularTimePitchAdjustDynamic_unit_multipliers_witness :
  exists p' out,
    GranularTimePitchAdjustDynamic 2 startup twoFrames 2 2 F32.one half
      unitSettings = Done (p', out) /\
    reported startup p' /\
    Forall2 sameSample out twoFrames.
Proof.
  apply (GranularTimePitchAdjustDynamic_unit_multipliers 2 startup twoFrames
           2 2 2 2 F32.one half).
  - repeat (constructor; [split; reflexivity |]). constructor.
  - lia.
  - reflexivity.
  - lia.
  - reflexivity.
  - lia.
  - reflexivity.
  - vm_compute. lia.
Defined.

(** ** The last frame of the resampler *)

Lemma div_self (s : bool) (m : positive) (e : Z) :
  (S754_finite s m e / S754_finite s m e)%f32 = F32.one.
Proof.
  unfold F32.div, SFdiv, SFdiv_core_binary.
  rewrite !Z.sub_diag.
  change (Z.min (fexp F32.prec F32.emax 0) 0) with (-24).
  change (0 - -24) with 24.
  rewrite Z.shiftl_mul_pow2 by lia.
  assert (E : Z.div_eucl (Z.pos m * 2 ^ 24) (Z.pos m) = (2 ^ 24, 0)).
  { pose proof (Z.div_mul (2 ^ 24) (Z.pos m) ltac:(lia)) as Hq.
    pose proof (Z.mod_mul (2 ^ 24) (Z.pos m) ltac:(lia)) as Hr.
    rewrite (Z.mul_comm (Z.pos m)).
    unfold Z.div, Z.modulo in Hq, Hr.
    destruct (Z.div_eucl (2 ^ 24 * Z.pos m) (Z.pos m)) as [q r].
    now subst. }
  rewrite E. rewrite xorb_nilpotent.
  unfold new_location. destruct (Z.even (Z.pos m)); reflexivity.
Qed.

Lemma read_past_end (input : list float) (frames channel numChannels : Z) :
  Forall normalized input -> 1 <= numChannels < 65536 ->
  vsize input = frames * numChannels -> 1 <= frames < 2 ^ 24 ->
  0 <= channel < numChannels ->
  exists stored r,
    input !! (length input - 1)%nat = Some stored /\
    SampleChannelFractional input (F32.of_size frames) channel numChannels
    = Done r /\
    sameSample r stored.
Proof.
  intros Hnorm Hc Hsize Hframes Hch.
  pose proof (F32Facts.to_size_of_size frames ltac:(lia)) as Hpos.
  pose proof (F32Facts.of_size_integral frames ltac:(lia)) as Hint.
  assert (Hmax : vsize input <= max_size)
    by (rewrite Hsize, max_size_eq; nia).
  assert (Hne : input <> []).
  { intros ->. unfold vsize in Hsize. cbn [length] in Hsize. nia. }
  destruct (SampleChannelFractional_taps input (F32.of_size frames) channel
              numChannels Hne Hmax) as (A & B & C & D & H).
  destruct (tapIndices _ _ _ _) as [[[iN i0] i1] i2] eqn:E.
  assert (Hi0 : i0 = vsize input - 1).
  { unfold tapIndices in E. rewrite Hpos in E. injection E as _ <- _ _.
    rewrite (wrap_small (frames * numChannels)) by (rewrite size_mod_eq; nia).
    rewrite (wrap_small (frames * numChannels + channel))
      by (rewrite size_mod_eq; nia).
    rewrite (wrap_small (vsize input - 1)) by (rewrite size_mod_eq; nia).
    lia. }
  destruct H as (HA & HB & HC & HD & Hrun).
  assert (Hb : forall i x, input !! i = Some x -> below 64 x).
  { intros i x Hx. apply (F32Facts.below_mono 1); [lia |].
    apply F32Facts.normalized_below.
    exact (Forall_lookup_1 _ _ _ _ Hnorm Hx). }
  rewrite F32Facts.floor_integral, F32Facts.sub_self in Hrun by exact Hint.
  pose proof (F32Facts.CubicHermite_at_zero A B C D
                (Hb _ _ HA) (Hb _ _ HB) (Hb _ _ HC) (Hb _ _ HD)) as Hz.
  exists B, (CubicHermite A B C D F32.zero).
  split.
  { rewrite <- HB. f_equal. rewrite Hi0. unfold vsize. lia. }
  split; [exact Hrun |].
  pose proof (Hb _ _ HB) as HbB.
  destruct B as [sB|sB| |sB mB eB]; simpl in HbB; try contradiction.
  - split; [| intros Hnz; now destruct Hnz].
    destruct (CubicHermite A (S754_zero sB) C D F32.zero);
      simpl in Hz; try contradiction. reflexivity.
  - rewrite Hz. split; [now apply F32Facts.eqb_refl | reflexivity].
Qed.

(** X25: the last frame.  For an input of whole frames of normalized
    samples, with 1 to 65535 channels and 1 to [2^24 - 1] frames, and a
    time multiplier that gives an output of 2 to [2^24] frames,
    [TimeAdjust] reads its last frame at the position one past the last
    input frame, where the reader clamps every index to the last slot of
    the interleaved buffer: every channel of the last output frame holds
    the last sample of the buffer, the sample of the last channel, up to
    the sign of a zero.  (From [2^24] frames on, binary32 no longer
    represents every frame count, and the position may be another
    one.) *)
Theorem TimeAdjust_last_frame (input output : list float)
    (numChannels frames : Z) (timeMultiplier : float) (channel : Z) :
  Forall normalized input -> 1 <= numChannels < 65536 ->
  vsize input = frames * numChannels -> 1 <= frames < 2 ^ 24 ->
  2 <= truncatedLength input numChannels timeMultiplier <= 2 ^ 24 ->
  0 <= channel < numChannels ->
  exists out x y,
    TimeAdjust input output numChannels timeMultiplier = Done out /\
    input !! (length input - 1)%nat = Some x /\
    out !! Z.to_nat
             ((truncatedLength input numChannels timeMultiplier - 1)
              * numChannels + channel) = Some y /\
    sameSample y x.
Proof.
  intros Hnorm Hc Hsize Hframes Hlen Hch.
  assert (Hmax : vsize input <= max_size)
    by (rewrite Hsize, max_size_eq; nia).
  assert (Hper : perChannel input numChannels = frames)
    by (unfold perChannel; rewrite Hsize, Z.div_mul; lia).
  set (N := truncatedLength input numChannels timeMultiplier) in *.
  destruct (TimeAdjust_filled input output numChannels timeMultiplier
              ltac:(lia) Hmax ltac:(fold N; rewrite max_size_eq; nia))
    as (out & Hrun & _ & Hget).
  fold N in Hget.
  pose proof (Hget (N - 1) channel ltac:(lia) Hch) as G.
  unfold resamplePosition in G. rewrite Hper in G.
  rewrite (wrap_small (N - 1)) in G by (rewrite size_mod_eq; lia).
  destruct (F32Facts.of_size_small (N - 1) ltac:(lia)) as (m & e & E & _).
  rewrite E, div_self in G.
  destruct (F32Facts.of_size_small frames ltac:(lia))
    as (m' & e' & E' & Hd & He & _).
  rewrite F32Exact.mul_one_valid in G;
    [| rewrite E'; apply F32Exact.normal_bounded; [exact Hd | lia]
     | rewrite E'; exact I].
  destruct (read_past_end input frames channel numChannels Hnorm Hc Hsize
              Hframes Hch) as (stored & r & Hstored & Hread & Hsame).
  rewrite Hread in G.
  exists out, stored, r. split; [exact Hrun |]. split; [exact Hstored |].
  split; [| exact Hsame].
  unfold vget in G.
  destruct (out !! Z.to_nat ((N - 1) * numChannels + channel)); congruence.
Qed.

Lemma TimeAdjust_last_frame_witness :
  exists out x y,
    TimeAdjust twoFrames [] 2 F32.two = Done out /\
    twoFrames !! (length twoFrames - 1)%nat = Some x /\
    out !! Z.to_nat ((truncatedLength twoFrames 2 F32.two - 1) * 2 + 0)
    = Some y /\
    sameSample y x.
Proof.
  apply (TimeAdjust_last_frame twoFrames [] 2 2 F32.two 0).
  - repeat (constructor; [split; reflexivity |]). constructor.
  - lia.
  - reflexivity.
  - lia.
  - vm_compute. split; discriminate.
  - lia.
Defined.

(** ** Chunks the reader skips *)

Lemma drop_at (P X : list byte) (k : Z) :
  0 <= k -> drop (Z.to_nat (vsize P + k)) (P ++ X) = drop (Z.to_nat k) X.
Proof.
  intros Hk. unfold vsize. rewrite Z2Nat.inj_add, Nat2Z.id by lia.
  apply drop_app_add'. reflexivity.
Qed.

Lemma tagAt_app (P id rest : list byte) (s : string) :
  length id = 4%nat ->
  tagAt (P ++ id ++ rest) (vsize P) s = bool_decide (id = tag s).
Proof.
  intros Hid. unfold tagAt, vsize.
  rewrite Nat2Z.id, drop_app_length, take_app_length'; [reflexivity | now rewrite Hid].
Qed.

Lemma minimalFile_chunked (chunkSize numChannels sampleRate byteRate blockAlign
    bitsPerSample dataSize : Z) (payload : list byte) :
  minimalFile chunkSize numChannels sampleRate byteRate blockAlign
    bitsPerSample dataSize payload
  = chunkedFile chunkSize numChannels sampleRate byteRate blockAlign
      bitsPerSample dataSize [] [] payload.
Proof. reflexivity. Qed.

Lemma findChunks_skip (others : list (list byte * list byte)) :
  Forall foreign others ->
  forall (fuel : nat) (fileData P rest : list byte) (chunkPosFmt chunkPosData : Z),
    fileData = P ++ concat (map chunkBytes others) ++ rest ->
    (chunkPosFmt =? SIZE_MAX) || (chunkPosData =? SIZE_MAX) = true ->
    vsize fileData < 2 ^ 63 ->
    findChunks (length others + fuel) fileData (vsize P) chunkPosFmt chunkPosData
    = findChunks fuel fileData
        (vsize P + vsize (concat (map chunkBytes others)))
        chunkPosFmt chunkPosData.
Proof.
  induction 1 as [|[id contents] others (Hid & Hfmt & Hdata & Hsize) _ IH];
    intros fuel fileData P rest chunkPosFmt chunkPosData Hfile Hcond Hfit.
  - cbn [map concat length Nat.add]. change (vsize (@nil byte)) with 0.
    now rewrite Z.add_0_r.
  - cbn [fst snd] in *. cbn [map concat] in *. unfold chunkBytes at 1 in Hfile.
    cbn [fst snd] in Hfile. rewrite <- !app_assoc in Hfile.
    pose proof (vsize_nonneg P) as HP. pose proof (vsize_nonneg contents) as HC.
    pose proof (vsize_nonneg (concat (map chunkBytes others))) as HO.
    pose proof (vsize_nonneg rest) as HR.
    assert (Hlen : vsize fileData
                   = vsize P + 8 + vsize contents
                     + vsize (concat (map chunkBytes others)) + vsize rest).
    { rewrite Hfile. unfold vsize in *. rewrite !length_app, Hid.
      cbn [le32 length]. lia. }
    cbn [length Nat.add findChunks]. rewrite Hcond.
    rewrite (wrap_small (vsize P + 8)) by (rewrite size_mod_eq; lia).
    rewrite (proj2 (Z.ltb_ge _ _)) by lia.
    destruct id as [|b0 [|b1 [|b2 [|b3 [|]]]]]; try discriminate.
    assert (Hget : bget fileData (vsize P) = Done b0)
      by (rewrite Hfile, bget_app0; reflexivity).
    rewrite Hget. cbn [mbind outcome_bind].
    rewrite (wrap_small (vsize P + 4)) by (rewrite size_mod_eq; lia).
    rewrite (rd32_le32 fileData (vsize P + 4) (vsize contents)
               (contents ++ concat (map chunkBytes others) ++ rest))
      by (rewrite ?size_mod_eq; try lia;
          rewrite Hfile, drop_at by lia; reflexivity).
    cbn [mbind outcome_bind].
    assert (Hf : tagAt fileData (vsize P) "fmt " = false).
    { rewrite Hfile, tagAt_app by reflexivity. now apply bool_decide_eq_false. }
    assert (Hd : tagAt fileData (vsize P) "data" = false).
    { rewrite Hfile, tagAt_app by reflexivity. now apply bool_decide_eq_false. }
    rewrite Hf, Hd. unfold uint32. rewrite (Z.mod_small (vsize contents)) by lia.
    rewrite (wrap_small (vsize P + 4 + 4)) by (rewrite size_mod_eq; lia).
    rewrite (wrap_small (vsize P + 4 + 4 + vsize contents))
      by (rewrite size_mod_eq; lia).
    replace (vsize P + 4 + 4 + vsize contents)
      with (vsize (P ++ [b0; b1; b2; b3] ++ le32 (vsize contents) ++ contents))
      by (unfold vsize; rewrite !length_app; cbn [le32 length]; lia).
    rewrite (IH fuel fileData _ rest chunkPosFmt chunkPosData);
      [| rewrite Hfile, <- !app_assoc; reflexivity | exact Hcond | exact Hfit].
    f_equal. unfold chunkBytes at 2. cbn [fst snd].
    unfold vsize. rewrite !length_app. cbn [le32 length]. lia.
Qed.

Lemma PCMToFloat_shift (P payload : list byte) (k numBytes : Z) :
  0 <= k -> vsize P + k + 3 < size_mod ->
  PCMToFloat (P ++ payload) (vsize P + k) numBytes
  = PCMToFloat payload k numBytes.
Proof.
  intros Hk Hfit. rewrite size_mod_eq in Hfit.
  pose proof (vsize_nonneg P) as HP. unfold PCMToFloat.
  rewrite !(wrap_small (vsize P + k + _)) by (rewrite size_mod_eq; lia).
  rewrite !(wrap_small (k + _)) by (rewrite size_mod_eq; lia).
  rewrite <- !Z.add_assoc, !bget_app by lia. reflexivity.
Qed.

(** The sample loop of the reader sees the data chunk only. *)
Lemma readSamples_shift (P payload : list byte) (bytesPerSample : Z) :
  0 <= bytesPerSample -> vsize P < 2 ^ 63 ->
  forall (count : nat) (nIndex k : Z) (data : list float),
    0 <= k -> k + Z.of_nat count * bytesPerSample < 2 ^ 62 ->
    for_range (St := list float * Z) count nIndex
      (fun nIndex '(data, fileIndex) =>
         _ ← bget (P ++ payload) fileIndex;
         x ← PCMToFloat (P ++ payload) fileIndex bytesPerSample;
         data ← vset data nIndex x;
         Done (data, wrap (fileIndex + bytesPerSample)))
      (data, vsize P + k)
    = '(data, fileIndex) ←
        for_range (St := list float * Z) count nIndex
          (fun nIndex '(data, fileIndex) =>
             _ ← bget payload fileIndex;
             x ← PCMToFloat payload fileIndex bytesPerSample;
             data ← vset data nIndex x;
             Done (data, wrap (fileIndex + bytesPerSample)))
          (data, k);
      Done (data, vsize P + fileIndex).
Proof.
  intros Hb HP. pose proof (vsize_nonneg P) as HP0.
  induction count as [|count IH]; intros nIndex k data Hk Hfit.
  - reflexivity.
  - cbn [for_range].
    rewrite bget_app by exact Hk.
    rewrite PCMToFloat_shift by (rewrite ?size_mod_eq; lia).
    destruct (bget payload k); cbn [mbind outcome_bind]; try reflexivity.
    destruct (PCMToFloat payload k bytesPerSample);
      cbn [mbind outcome_bind]; try reflexivity.
    destruct (vset data nIndex a0); cbn [mbind outcome_bind]; try reflexivity.
    rewrite (wrap_small (vsize P + k + bytesPerSample))
      by (rewrite size_mod_eq; nia).
    rewrite (wrap_small (k + bytesPerSample)) by (rewrite size_mod_eq; nia).
    rewrite <- Z.add_assoc. apply IH; nia.
Qed.

Section Chunked.

Variables chunkSize numChannels sampleRate byteRate blockAlign bitsPerSample
  dataSize : Z.
Variables pre mid : list (list byte * list byte).
Variable payload : list byte.

Hypothesis pre_foreign : Forall foreign pre.
Hypothesis mid_foreign : Forall foreign mid.
Hypothesis file_fits :
  vsize (chunkedFile chunkSize numChannels sampleRate byteRate blockAlign
           bitsPerSample dataSize pre mid payload) < 2 ^ 62.

(** What the reader makes of the file: the outcome depends on the
    fields and on the data, not on the chunks it skips. *)
Lemma parse_chunked (fuel : nat) (p : Process) (fileName : string)
    (out : WaveData) :
  (length pre + length mid + 2 <= fuel)%nat ->
  parseWaveFile fuel p fileName
    (chunkedFile chunkSize numChannels sampleRate byteRate blockAlign
       bitsPerSample dataSize pre mid payload) out
  = if negb (uint16 1 =? 1) || (uint16 numChannels <? 1)
       || (2 <? uint16 numChannels) || (32 <? uint16 bitsPerSample)
       || negb (uint16 bitsPerSample mod 8 =? 0) || (8 <? uint16 blockAlign)
    then Done (invalidInputFile p fileName "7", out, false)
    else
      let bytesPerSample := uint16 blockAlign / uint16 numChannels in
      if bytesPerSample =? 0 then Undefined else
      let numSourceSamples := uint32 dataSize / bytesPerSample in
      let data :=
        resize (Z.to_nat numSourceSamples) F32.zero (wave_data out) in
      if vsize payload <? numSourceSamples * bytesPerSample
      then
        Done (invalidInputFile p fileName "8",
              {| wave_data := data;
                 wave_numChannels := wave_numChannels out;
                 wave_sampleRate := wave_sampleRate out;
                 wave_numBytes := wave_numBytes out |},
              false)
      else
        '(data, _) ← for_range (St := list float * Z)
          (Z.to_nat numSourceSamples) 0
          (fun nIndex '(data, fileIndex) =>
             _ ← bget payload fileIndex;
             x ← PCMToFloat payload fileIndex bytesPerSample;
             data ← vset data nIndex x;
             Done (data, wrap (fileIndex + bytesPerSample)))
          (data, 0);
        Done (print p (fileName +:+ " loaded." +:+ newline),
              {| wave_data := data;
                 wave_numChannels := uint16 numChannels;
                 wave_sampleRate := uint32 sampleRate;
                 wave_numBytes := uint16 bitsPerSample / 8 |},
              true).
Proof.
  intros Hfuel. revert file_fits.
  remember (chunkedFile chunkSize numChannels sampleRate byteRate blockAlign
              bitsPerSample dataSize pre mid payload) as file eqn:Efile.
  intros Hfit.
  set (preB := concat (map chunkBytes pre)) in *.
  set (midB := concat (map chunkBytes mid)) in *.
  set (P1 := tag "RIFF" ++ le32 chunkSize ++ tag "WAVE").
  set (F := tag "fmt " ++ le32 16 ++ le16 1 ++ le16 numChannels
            ++ le32 sampleRate ++ le32 byteRate ++ le16 blockAlign
            ++ le16 bitsPerSample).
  set (D := tag "data" ++ le32 dataSize).
  assert (E1 : file = P1 ++ preB ++ F ++ midB ++ D ++ payload)
    by (rewrite Efile; reflexivity).
  assert (E2 : file = (P1 ++ preB) ++ F ++ midB ++ D ++ payload)
    by (rewrite E1, <- !app_assoc; reflexivity).
  assert (E3 : file = (P1 ++ preB ++ F) ++ midB ++ D ++ payload)
    by (rewrite E1, <- !app_assoc; reflexivity).
  assert (E4 : file = (P1 ++ preB ++ F ++ midB) ++ D ++ payload)
    by (rewrite E1, <- !app_assoc; reflexivity).
  assert (E5 : file = (P1 ++ preB ++ F ++ midB ++ D) ++ payload)
    by (rewrite E1, <- !app_assoc; reflexivity).
  pose proof (vsize_nonneg preB) as HpreB. pose proof (vsize_nonneg midB) as HmidB.
  pose proof (vsize_nonneg payload) as Hpay.
  assert (L1 : length P1 = 12%nat) by reflexivity.
  assert (LF : length F = 24%nat) by reflexivity.
  assert (LD : length D = 8%nat) by reflexivity.
  assert (S2 : vsize (P1 ++ preB) = 12 + vsize preB)
    by (unfold vsize; rewrite length_app, L1; lia).
  assert (S3 : vsize (P1 ++ preB ++ F) = 36 + vsize preB)
    by (unfold vsize; rewrite !length_app, L1, LF; lia).
  assert (S4 : vsize (P1 ++ preB ++ F ++ midB) = 36 + vsize preB + vsize midB)
    by (unfold vsize; rewrite !length_app, L1, LF; lia).
  assert (S5 : vsize (P1 ++ preB ++ F ++ midB ++ D)
               = 44 + vsize preB + vsize midB)
    by (unfold vsize; rewrite !length_app, L1, LF, LD; lia).
  assert (Hsize : vsize file = 44 + vsize preB + vsize midB + vsize payload).
  { rewrite E5. unfold vsize in *. rewrite length_app. lia. }
  (* the RIFF header *)
  unfold parseWaveFile.
  rewrite (proj2 (Z.ltb_ge _ 4)) by lia.
  assert (Hriff : tagAt file 0 "RIFF" = true) by (rewrite E1; reflexivity).
  rewrite Hriff. cbn [negb orb].
  rewrite (proj2 (Z.ltb_ge _ 8)) by lia.
  rewrite (rd32_le32 file 4 chunkSize (drop 8 file))
    by (rewrite ?size_mod_eq; try lia; rewrite E1; reflexivity).
  cbn [mbind outcome_bind].
  rewrite (proj2 (Z.ltb_ge _ 12)) by lia.
  assert (Hwave : tagAt file 8 "WAVE" = true) by (rewrite E1; reflexivity).
  rewrite Hwave. cbn [negb orb].
  (* the chunks *)
  assert (Hfound : findChunks fuel file 12 SIZE_MAX SIZE_MAX
                   = Done (Some (12 + vsize preB, 36 + vsize preB + vsize midB))).
  { replace fuel
      with (length pre + S (length mid + S (fuel - length pre - length mid - 2)))%nat
      by lia.
    change 12 with (vsize P1) at 1.
    rewrite (findChunks_skip pre pre_foreign _ file P1 (F ++ midB ++ D ++ payload)
               SIZE_MAX SIZE_MAX E1 eq_refl ltac:(lia)).
    fold preB. change (vsize P1) with 12.
    cbn [findChunks]. change (SIZE_MAX =? SIZE_MAX) with true. cbn [orb].
    rewrite (wrap_small (12 + vsize preB + 8)) by (rewrite size_mod_eq; lia).
    rewrite (proj2 (Z.ltb_ge _ _)) by lia.
    assert (Hget : bget file (12 + vsize preB) = Done "f"%byte)
      by (rewrite <- S2, E2, bget_app0; reflexivity).
    rewrite Hget. cbn [mbind outcome_bind].
    rewrite (wrap_small (12 + vsize preB + 4)) by (rewrite size_mod_eq; lia).
    rewrite (rd32_le32 file (12 + vsize preB + 4) 16
               (drop 8 (F ++ midB ++ D ++ payload)))
      by (rewrite ?size_mod_eq; try lia;
          rewrite <- S2, E2, drop_at by lia; reflexivity).
    cbn [mbind outcome_bind].
    assert (Hfmt : tagAt file (12 + vsize preB) "fmt " = true)
      by (rewrite <- S2, E2; apply (tagAt_app _ (tag "fmt ")); reflexivity).
    rewrite Hfmt. change (uint32 16) with 16.
    rewrite (wrap_small (12 + vsize preB + 4 + 4)) by (rewrite size_mod_eq; lia).
    rewrite (wrap_small (12 + vsize preB + 4 + 4 + 16))
      by (rewrite size_mod_eq; lia).
    rewrite (wrap_small (12 + vsize preB + 4 + 4 - 8))
      by (rewrite size_mod_eq; lia).
    replace (12 + vsize preB + 4 + 4 + 16) with (vsize (P1 ++ preB ++ F)) by lia.
    rewrite (findChunks_skip mid mid_foreign _ file (P1 ++ preB ++ F)
               (D ++ payload) _ SIZE_MAX E3 ltac:(apply orb_true_r) ltac:(lia)).
    fold midB. rewrite S3.
    assert (Hpos : (12 + vsize preB + 4 + 4 - 8 =? SIZE_MAX) = false)
      by (apply Z.eqb_neq; unfold SIZE_MAX; rewrite size_mod_eq; lia).
    cbn [findChunks]. rewrite Hpos.
    change (SIZE_MAX =? SIZE_MAX) with true. cbn [orb].
    rewrite (wrap_small (36 + vsize preB + vsize midB + 8))
      by (rewrite size_mod_eq; lia).
    rewrite (proj2 (Z.ltb_ge _ _)) by lia.
    assert (Hget' : bget file (36 + vsize preB + vsize midB) = Done "d"%byte)
      by (rewrite <- S4, E4, bget_app0; reflexivity).
    rewrite Hget'. cbn [mbind outcome_bind].
    rewrite (wrap_small (36 + vsize preB + vsize midB + 4))
      by (rewrite size_mod_eq; lia).
    rewrite (rd32_le32 file (36 + vsize preB + vsize midB + 4) dataSize payload)
      by (rewrite ?size_mod_eq; try lia;
          rewrite <- S4, E4, drop_at by lia; reflexivity).
    cbn [mbind outcome_bind].
    assert (Hnofmt : tagAt file (36 + vsize preB + vsize midB) "fmt " = false)
      by (rewrite <- S4, E4; apply (tagAt_app _ (tag "data")); reflexivity).
    assert (Hdata : tagAt file (36 + vsize preB + vsize midB) "data" = true)
      by (rewrite <- S4, E4; apply (tagAt_app _ (tag "data")); reflexivity).
    rewrite Hnofmt, Hdata.
    rewrite (wrap_small (36 + vsize preB + vsize midB + 4 + 4))
      by (rewrite size_mod_eq; lia).
    rewrite (wrap_small (36 + vsize preB + vsize midB + 4 + 4 - 8))
      by (rewrite size_mod_eq; lia).
    rewrite findChunks_found;
      [do 3 f_equal; lia | |];
      unfold SIZE_MAX; rewrite size_mod_eq; lia. }
  rewrite Hfound. cbn [mbind outcome_bind].
  (* the fields *)
  rewrite !(wrap_small (12 + vsize preB + _)) by (rewrite size_mod_eq; lia).
  rewrite !(wrap_small (36 + vsize preB + vsize midB + _))
    by (rewrite size_mod_eq; lia).
  rewrite (proj2 (Z.ltb_ge _ (12 + vsize preB + 24))) by lia.
  rewrite (rd16_le16 file (12 + vsize preB + 8) 1
             (drop 10 (F ++ midB ++ D ++ payload)))
    by (rewrite ?size_mod_eq; try lia;
        rewrite <- S2, E2, drop_at by lia; reflexivity).
  rewrite (rd16_le16 file (12 + vsize preB + 10) numChannels
             (drop 12 (F ++ midB ++ D ++ payload)))
    by (rewrite ?size_mod_eq; try lia;
        rewrite <- S2, E2, drop_at by lia; reflexivity).
  rewrite (rd32_le32 file (12 + vsize preB + 12) sampleRate
             (drop 16 (F ++ midB ++ D ++ payload)))
    by (rewrite ?size_mod_eq; try lia;
        rewrite <- S2, E2, drop_at by lia; reflexivity).
  rewrite (rd16_le16 file (12 + vsize preB + 20) blockAlign
             (drop 22 (F ++ midB ++ D ++ payload)))
    by (rewrite ?size_mod_eq; try lia;
        rewrite <- S2, E2, drop_at by lia; reflexivity).
  rewrite (rd16_le16 file (12 + vsize preB + 22) bitsPerSample
             (midB ++ D ++ payload))
    by (rewrite ?size_mod_eq; try lia;
        rewrite <- S2, E2, drop_at by lia; reflexivity).
  cbn [mbind outcome_bind].
  rewrite (proj2 (Z.ltb_ge _ (36 + vsize preB + vsize midB + 8))) by lia.
  rewrite (rd32_le32 file (36 + vsize preB + vsize midB + 4) dataSize payload)
    by (rewrite ?size_mod_eq; try lia;
        rewrite <- S4, E4, drop_at by lia; reflexivity).
  cbn [mbind outcome_bind].
  (* the checks and the samples *)
  destruct (negb (uint16 1 =? 1) || (uint16 numChannels <? 1)
            || (2 <? uint16 numChannels) || (32 <? uint16 bitsPerSample)
            || negb (uint16 bitsPerSample mod 8 =? 0)
            || (8 <? uint16 blockAlign)) eqn:Hchecks; [reflexivity |].
  cbv zeta.
  set (bytesPerSample := uint16 blockAlign / uint16 numChannels).
  destruct (bytesPerSample =? 0) eqn:Hzero; [reflexivity |].
  apply Z.eqb_neq in Hzero.
  assert (Hbps : 1 <= bytesPerSample < 2 ^ 16).
  { assert (0 <= uint16 blockAlign < 2 ^ 16) by (apply Z.mod_pos_bound; lia).
    assert (0 <= uint16 numChannels < 2 ^ 16) by (apply Z.mod_pos_bound; lia).
    assert (0 <= bytesPerSample) by (apply Z.div_pos; lia).
    assert (bytesPerSample <= uint16 blockAlign)
      by (apply Z.div_le_upper_bound; nia).
    lia. }
  set (numSourceSamples := uint32 dataSize / bytesPerSample).
  assert (Hn : 0 <= numSourceSamples * bytesPerSample < 2 ^ 32).
  { assert (0 <= uint32 dataSize < 2 ^ 32) by (apply Z.mod_pos_bound; lia).
    assert (0 <= numSourceSamples) by (apply Z.div_pos; lia).
    assert (bytesPerSample * numSourceSamples <= uint32 dataSize)
      by (apply Z.mul_div_le; lia).
    nia. }
  rewrite (wrap_small (numSourceSamples * bytesPerSample))
    by (rewrite size_mod_eq; lia).
  rewrite (wrap_small (_ + numSourceSamples * bytesPerSample))
    by (rewrite size_mod_eq; lia).
  replace (vsize file <? 36 + vsize preB + vsize midB + 8
                         + numSourceSamples * bytesPerSample)
    with (vsize payload <? numSourceSamples * bytesPerSample)
    by (rewrite Hsize; destruct (Z.ltb_spec (vsize payload)
                                   (numSourceSamples * bytesPerSample));
        symmetry; [apply Z.ltb_lt | apply Z.ltb_ge]; lia).
  destruct (vsize payload <? numSourceSamples * bytesPerSample);
    [reflexivity |].
  replace (36 + vsize preB + vsize midB + 8)
    with (vsize (P1 ++ preB ++ F ++ midB ++ D) + 0) by lia.
  rewrite E5.
  rewrite (readSamples_shift (P1 ++ preB ++ F ++ midB ++ D) payload
             bytesPerSample ltac:(lia) ltac:(lia))
    by (try lia; rewrite Z2Nat.id by nia; nia).
  destruct (for_range _ _ _ _) as [[data fileIndex]| |]; reflexivity.
Qed.

End Chunked.

(** X26: chunks the reader has no use for.  Chunks other than "fmt " and
    "data" that stand before the "fmt " chunk or between the "fmt " and
    the "data" chunk are skipped: with fuel for every chunk, the reader
    does on such a file exactly what it does on the file without them
    (the same return value, output and printed line, or the same
    division by zero), whatever the fields of the header are. *)
Theorem ReadWaveFile_skips_chunks (fuel : nat) (p : Process)
    (fs fs' : FileSystem) (fileName : string) (out : WaveData)
    (chunkSize numChannels sampleRate byteRate blockAlign bitsPerSample
       dataSize : Z) (pre mid : list (list byte * list byte))
    (payload : list byte) :
  Forall foreign pre -> Forall foreign mid ->
  (length pre + length mid + 2 <= fuel)%nat ->
  vsize (chunkedFile chunkSize numChannels sampleRate byteRate blockAlign
           bitsPerSample dataSize pre mid payload) < 2 ^ 62 ->
  files fs !! fileName
  = Some (chunkedFile chunkSize numChannels sampleRate byteRate blockAlign
            bitsPerSample dataSize pre mid payload) ->
  files fs' !! fileName
  = Some (minimalFile chunkSize numChannels sampleRate byteRate blockAlign
            bitsPerSample dataSize payload) ->
  ReadWaveFile fuel p fs fileName out = ReadWaveFile fuel p fs' fileName out.
Proof.
  intros Hpre Hmid Hfuel Hfit Hfile Hfile'. unfold ReadWaveFile.
  rewrite (ReadFileIntoMemory_found p fs fileName _ Hfile) by discriminate.
  rewrite (ReadFileIntoMemory_found p fs' fileName _ Hfile') by discriminate.
  cbn [mbind outcome_bind]. rewrite minimalFile_chunked.
  rewrite (parse_chunked chunkSize numChannels sampleRate byteRate blockAlign
             bitsPerSample dataSize pre mid payload Hpre Hmid Hfit fuel p
             fileName out Hfuel).
  rewrite (parse_chunked chunkSize numChannels sampleRate byteRate blockAlign
             bitsPerSample dataSize [] [] payload); try reflexivity.
  - constructor.
  - constructor.
  - revert Hfit. unfold chunkedFile, vsize. rewrite !length_app.
    cbn [map concat length]. lia.
  - cbn [length]. lia.
Qed.

Lemma ReadWaveFile_skips_chunks_witness :
  ReadWaveFile 3 startup (oneFileDisk "a.wav" listFile) "a.wav" noWave
  = ReadWaveFile 3 startup (oneFileDisk "a.wav" monoFile) "a.wav" noWave.
Proof.
  apply (ReadWaveFile_skips_chunks 3 startup (oneFileDisk "a.wav" listFile)
           (oneFileDisk "a.wav" monoFile) "a.wav" noWave
           40 1 8000 16000 2 16 4 [] [(tag "LIST", [Byte.x01; Byte.x02])]
           ([Byte.x00; Byte.x40] ++ [Byte.xff; Byte.x7f])).
  - constructor.
  - constructor; [| constructor].
    split; [reflexivity |]. split; [discriminate |]. split; [discriminate |].
    reflexivity.
  - simpl. lia.
  - reflexivity.
  - reflexivity.
  - reflexivity.
Defined.

Lemma wide_loop (payload : list byte) (bytesPerSample : Z) :
  5 <= bytesPerSample <= 8 ->
  forall (count : nat) (nIndex k : Z) (done todo : list float),
    0 <= k -> k + Z.of_nat count * bytesPerSample <= vsize payload ->
    vsize payload < 2 ^ 62 ->
    vsize done = nIndex -> length todo = count ->
    for_range (St := list float * Z) count nIndex
      (fun nIndex '(data, fileIndex) =>
         _ ← bget payload fileIndex;
         x ← PCMToFloat payload fileIndex bytesPerSample;
         data ← vset data nIndex x;
         Done (data, wrap (fileIndex + bytesPerSample)))
      (done ++ todo, k)
    = Done (done ++ replicate count F32.zero,
            k + Z.of_nat count * bytesPerSample).
Proof.
  intros Hb. induction count as [|count IH];
    intros nIndex k done todo Hk Hroom Hfit Hdone Htodo.
  - destruct todo; [| discriminate]. cbn [for_range replicate].
    do 2 f_equal. lia.
  - destruct todo as [|t todo]; [discriminate |]. injection Htodo as Htodo.
    cbn [for_range].
    destruct (bget_defined payload k ltac:(nia)) as (b & ->).
    cbn [mbind outcome_bind].
    assert (Hzero : PCMToFloat payload k bytesPerSample = Done F32.zero).
    { unfold PCMToFloat.
      rewrite (proj2 (Z.eqb_neq bytesPerSample 1)),
        (proj2 (Z.eqb_neq bytesPerSample 4)),
        (proj2 (Z.eqb_neq bytesPerSample 3)),
        (proj2 (Z.eqb_neq bytesPerSample 2)) by lia.
      reflexivity. }
    rewrite Hzero. cbn [mbind outcome_bind].
    rewrite <- Hdone, vset_app0. cbn [mbind outcome_bind].
    rewrite (wrap_small (k + bytesPerSample)) by (rewrite size_mod_eq; nia).
    change (done ++ F32.zero :: todo) with (done ++ [F32.zero] ++ todo).
    rewrite app_assoc.
    rewrite (IH (vsize done + 1) (k + bytesPerSample) (done ++ [F32.zero]) todo);
      try nia; try assumption.
    + rewrite <- app_assoc. cbn [replicate app]. do 2 f_equal. lia.
    + unfold vsize. rewrite length_app. cbn [length]. lia.
Qed.

(** X27: samples wider than four bytes.  A mono file whose header passes
    the checks with a block align of 5 to 8 is read without an error,
    and every sample it returns is [+0.0f], whatever the data chunk
    holds: [PCMToFloat] decodes nothing for such a width. *)
Theorem ReadWaveFile_wide_samples (fuel : nat) (p : Process) (fs : FileSystem)
    (fileName : string) (out : WaveData)
    (chunkSize sampleRate byteRate blockAlign bitsPerSample dataSize : Z)
    (payload : list byte) :
  (2 <= fuel)%nat -> 5 <= blockAlign <= 8 -> 0 <= sampleRate < 2 ^ 32 ->
  0 <= bitsPerSample <= 32 -> bitsPerSample mod 8 = 0 ->
  0 <= dataSize < 2 ^ 32 ->
  dataSize / blockAlign * blockAlign <= vsize payload -> vsize payload < 2 ^ 61 ->
  files fs !! fileName
  = Some (minimalFile chunkSize 1 sampleRate byteRate blockAlign
            bitsPerSample dataSize payload) ->
  ReadWaveFile fuel p fs fileName out
  = Done (print p (fileName +:+ " loaded." +:+ newline),
          {| wave_data := replicate (Z.to_nat (dataSize / blockAlign)) F32.zero;
             wave_numChannels := 1;
             wave_sampleRate := sampleRate;
             wave_numBytes := bitsPerSample / 8 |},
          true).
Proof.
  intros Hfuel Hba Hsr Hbps Hmod Hds Hroom Hfit Hfile. unfold ReadWaveFile.
  rewrite (ReadFileIntoMemory_found p fs fileName _ Hfile) by discriminate.
  cbn [mbind outcome_bind]. rewrite minimalFile_chunked.
  assert (Hsize : vsize (chunkedFile chunkSize 1 sampleRate byteRate blockAlign
                           bitsPerSample dataSize [] [] payload) < 2 ^ 62).
  { rewrite <- minimalFile_chunked, image_size. lia. }
  rewrite (parse_chunked chunkSize 1 sampleRate byteRate blockAlign
             bitsPerSample dataSize [] [] payload (Forall_nil_2 _)
             (Forall_nil_2 _) Hsize fuel p fileName out ltac:(cbn [length]; lia)).
  change (uint16 1) with 1. unfold uint16, uint32.
  rewrite (Z.mod_small blockAlign), (Z.mod_small bitsPerSample),
    (Z.mod_small sampleRate), (Z.mod_small dataSize) by lia.
  rewrite Z.div_1_r.
  change (1 =? 1) with true. change (1 <? 1) with false.
  change (2 <? 1) with false.
  rewrite (proj2 (Z.ltb_ge 32 bitsPerSample)), (proj2 (Z.ltb_ge 8 blockAlign)),
    (proj2 (Z.eqb_eq (bitsPerSample mod 8) 0)) by lia.
  cbn [negb orb]. cbv zeta.
  rewrite (proj2 (Z.eqb_neq blockAlign 0)) by lia.
  rewrite (proj2 (Z.ltb_ge _ _)) by lia.
  assert (Hn : 0 <= dataSize / blockAlign) by (apply Z.div_pos; lia).
  pose proof (wide_loop payload blockAlign Hba (Z.to_nat (dataSize / blockAlign))
                0 0 [] (resize (Z.to_nat (dataSize / blockAlign)) F32.zero
                          (wave_data out))
                ltac:(lia) ltac:(rewrite Z2Nat.id by lia; lia) ltac:(lia) eq_refl
                ltac:(now rewrite length_resize)) as Hloop.
  cbn [app] in Hloop. rewrite Hloop. reflexivity.
Qed.

Lemma ReadWaveFile_wide_samples_witness :
  ReadWaveFile 2 startup (oneFileDisk "a.wav" wideFile) "a.wav" noWave
  = Done (print startup ("a.wav" +:+ " loaded." +:+ newline),
          {| wave_data := replicate (Z.to_nat (12 / 6)) F32.zero;
             wave_numChannels := 1;
             wave_sampleRate := 8000;
             wave_numBytes := 16 / 8 |},
          true).
Proof.
  apply (ReadWaveFile_wide_samples 2 startup (oneFileDisk "a.wav" wideFile)
           "a.wav" noWave 48 8000 16000 6 16 12
           [Byte.x00; Byte.x40; Byte.xff; Byte.x7f; Byte.x00; Byte.x40;
            Byte.x00; Byte.x40; Byte.xff; Byte.x7f; Byte.x00; Byte.x40]);
    try lia; try reflexivity.
Defined.
